(** * The static summary pipeline of scripts/generateSummary.ts

    A shallow embedding of the summary generator: front-matter splitting
    and merging, the text normaliser, the code-likeness scorer, the
    overwrite policy, the request built for the summary endpoint and the
    per-document processing, followed by the properties established
    about them.

    JavaScript strings are sequences of UTF-16 code units, and every
    regular expression of the script is written without the [u] flag,
    so it works on code units as well.  A string is therefore modelled
    as [list N], one number per code unit; [length] is the [.length] of
    the script. *)

From Stdlib Require Import String Ascii.
From Stdlib Require Import List NArith ZArith Lia Bool Permutation.
Import ListNotations.

(** ** Strings and literals *)

Definition str := list N.

(** Code units that cannot be written inside a Rocq string literal. *)
Definition LF : N := 10.
Definition CR : N := 13.
Definition DQ : N := 34.
Definition BOM : N := 65279.

(** [js lit] decodes the UTF-8 bytes of the literal [lit] into UTF-16
    code units, so that the literals of the script can be written as
    they appear in it. *)
Definition emit_code_point (cp : N) : str :=
  if (cp <? 65536)%N then [cp]
  else [(55296 + (cp - 65536) / 1024)%N; (56320 + (cp - 65536) mod 1024)%N].

Fixpoint utf8_decode (acc : N) (need : nat) (bs : list N) : str :=
  match bs with
  | [] => []
  | b :: bs' =>
      match need with
      | O =>
          if (b <? 128)%N then b :: utf8_decode 0 0 bs'
          else if (b <? 224)%N then utf8_decode (b mod 32) 1 bs'
          else if (b <? 240)%N then utf8_decode (b mod 16) 2 bs'
          else utf8_decode (b mod 8) 3 bs'
      | S O => emit_code_point (acc * 64 + b mod 64) ++ utf8_decode 0 0 bs'
      | S k => utf8_decode (acc * 64 + b mod 64) k bs'
      end
  end.

Definition js (lit : string) : str :=
  utf8_decode 0 0 (map N_of_ascii (list_ascii_of_string lit)).

Fixpoint str_eqb (a b : str) : bool :=
  match a, b with
  | [], [] => true
  | x :: a', y :: b' => (x =? y)%N && str_eqb a' b'
  | _, _ => false
  end.

(** ** Character classes *)

Definition one_of (chars : str) (c : N) : bool := existsb (N.eqb c) chars.

Definition in_range (lo hi c : N) : bool := ((lo <=? c) && (c <=? hi))%N.

(** [\s], which is also what [trim] removes: WhiteSpace and
    LineTerminator of ECMAScript. *)
Definition is_space (c : N) : bool :=
  in_range 9 13 c || one_of [32; 160; 5760; 8232; 8233; 8239; 8287; 12288; 65279]%N c
  || in_range 8192 8202 c.

(** LineTerminator: what [.] does not match and where [^] and [$] match
    under the [m] flag. *)
Definition is_line_terminator (c : N) : bool := one_of [10; 13; 8232; 8233]%N c.

Definition is_digit (c : N) : bool := in_range 48 57 c.

(** [\w] *)
Definition is_word (c : N) : bool :=
  in_range 97 122 c || in_range 65 90 c || is_digit c || (c =? 95)%N.

(** ** String operations of the language *)

Fixpoint dropWhile (p : N -> bool) (s : str) : str :=
  match s with
  | [] => []
  | c :: s' => if p c then dropWhile p s' else s
  end.

Fixpoint span_len (p : N -> bool) (s : str) : nat :=
  match s with
  | [] => O
  | c :: s' => if p c then S (span_len p s') else O
  end.

Definition trimStart (s : str) : str := dropWhile is_space s.
Definition trimEnd (s : str) : str := rev (dropWhile is_space (rev s)).
Definition trim (s : str) : str := trimEnd (trimStart s).

Fixpoint startsWith (p s : str) : bool :=
  match p, s with
  | [], _ => true
  | x :: p', y :: s' => (x =? y)%N && startsWith p' s'
  | _ :: _, [] => false
  end.

Definition endsWith (suffix s : str) : bool :=
  (length suffix <=? length s)%nat
  && str_eqb (skipn (length s - length suffix) s) suffix.

(** [parts.join(sep)] *)
Fixpoint join (sep : str) (parts : list str) : str :=
  match parts with
  | [] => []
  | [p] => p
  | p :: rest => p ++ sep ++ join sep rest
  end.

(** [s.split(c)] for a separator of one code unit. *)
Fixpoint split_char (c : N) (s : str) : list str :=
  match s with
  | [] => [[]]
  | x :: s' =>
      if (x =? c)%N then [] :: split_char c s'
      else match split_char c s' with
           | [] => [[x]]
           | l :: ls => (x :: l) :: ls
           end
  end.

(** ** Global replacement by a regular expression

    A [matcher] is one regular expression tried at one position:
    [m prev rest] receives the code unit before the position (none at
    the start of the input) and the input from the position on, and
    answers with the number of code units the match consumes and the
    text that replaces them.  [replaceAll] is [s.replace(/re/g, ...)]:
    the input is scanned from the left, a match is replaced and the scan
    resumes behind it, an empty match is followed by one step forward. *)
Definition matcher := option N -> str -> option (nat * str).

Fixpoint scan (m : matcher) (skip : nat) (prev : option N) (s : str) : str :=
  match s with
  | [] =>
      match skip with
      | O => match m prev [] with Some (_, out) => out | None => [] end
      | S _ => []
      end
  | c :: s' =>
      match skip with
      | S k => scan m k (Some c) s'
      | O =>
          match m prev s with
          | Some (S k, out) => out ++ scan m k (Some c) s'
          | Some (O, out) => out ++ c :: scan m 0 (Some c) s'
          | None => c :: scan m 0 (Some c) s'
          end
      end
  end.

Definition replaceAll (m : matcher) (s : str) : str := scan m 0 None s.

(** [/[cls]{k,}/] replaced by [out]: a greedy run of at least [k] code
    units of the class. *)
Definition re_run (k : nat) (cls : N -> bool) (out : str) : matcher :=
  fun _ s =>
    let n := span_len cls s in
    if ((1 <=? n) && (k <=? n))%nat then Some (n, out) else None.

(** [/[cls]/] replaced by the empty string. *)
Definition re_drop (cls : N -> bool) : matcher :=
  fun _ s =>
    match s with
    | c :: _ => if cls c then Some (1%nat, []) else None
    | [] => None
    end.

(** [/[cls]+$/] replaced by the empty string ([$] without the [m]
    flag is the end of the input). *)
Definition re_trailing (cls : N -> bool) : matcher :=
  fun _ s =>
    match s with
    | [] => None
    | _ :: _ => if forallb cls s then Some (length s, []) else None
    end.

(** [s.split(/[cls]+/)] *)
Fixpoint split_runs_from (cls : N -> bool) (in_sep : bool) (acc : str) (s : str)
  : list str :=
  match s with
  | [] => [rev acc]
  | c :: s' =>
      if cls c then
        if in_sep then split_runs_from cls true acc s'
        else rev acc :: split_runs_from cls true [] s'
      else split_runs_from cls false (c :: acc) s'
  end.

Definition split_runs (cls : N -> bool) (s : str) : list str :=
  split_runs_from cls false [] s.

(** [filter(Boolean)] on strings keeps the non-empty ones. *)
Definition nonempty (s : str) : bool :=
  match s with [] => false | _ :: _ => true end.

(** ** The declarative-sentence canonicaliser *)

Definition SUMMARY_MAX_LEN : Z := 500.

(** The punctuation stage: the five replacements that open
    [toDeclarativeSentence], in the order of the script. *)
Definition canonPunct (s : str) : str :=
  let s := replaceAll (re_run 1 (one_of (js ".;")) (js "。")) s in
  let s := replaceAll (re_run 1 (one_of (js "!?")) (js "！")) s in
  let s := replaceAll (re_run 1 (one_of (js ",，")) (js "，")) s in
  let s := replaceAll (re_run 1 (one_of (js ":：")) (js "：")) s in
  replaceAll (re_run 1 (one_of (js ";；")) (js "；")) s.

(** The three removals of symbols that follow. *)
Definition dropSymbols (s : str) : str :=
  let s := replaceAll (re_drop (one_of (DQ :: js "'`~^_*@#$%&+=<>"))) s in
  let s := replaceAll (re_drop (one_of (js "()[]{}（ ）【 】"))) s in
  replaceAll (re_drop (one_of (js "|\/"))) s.

(** Clauses joined into one, blanks and commas collapsed. *)
Definition mergeClauses (s : str) : str :=
  let parts :=
    filter nonempty (map trim (split_runs (one_of (js "。！？!？…")) s)) in
  let merged := join (js "，") parts in
  trim (replaceAll (re_run 2 (one_of (js "，")) (js "，"))
          (replaceAll (re_run 2 is_space (js " ")) merged)).

Definition toDeclarativeSentence (text : str) (maxLen : Z) : str :=
  let merged := mergeClauses (dropSymbols (canonPunct text)) in
  let coreMax := Z.max 1 (maxLen - 1) in
  let merged :=
    if (Z.of_nat (length merged) >? coreMax)%Z then
      replaceAll (re_trailing (one_of (js "，、：；")))
        (firstn (Z.to_nat coreMax) merged)
    else replaceAll (re_trailing (one_of (js "，、：；"))) merged in
  if endsWith (js "。") merged then merged else merged ++ js "。".

(** [escapeYaml]: every double quote gets a backslash in front, the
    whole is put between double quotes. *)
Definition re_quote : matcher :=
  fun _ s =>
    match s with
    | c :: _ => if (c =? DQ)%N then Some (1%nat, js "\" ++ [DQ]) else None
    | [] => None
    end.

Definition escapeYaml (text : str) : str :=
  [DQ] ++ replaceAll re_quote text ++ [DQ].

(** ** Lines of a front-matter block *)

(** [s.split(/\r?\n/)]: a line feed separates, and takes a carriage
    return standing before it along. *)
Fixpoint split_lines (s : str) : list str :=
  match s with
  | [] => [[]]
  | x :: s' =>
      if (x =? LF)%N then [] :: split_lines s'
      else if (x =? CR)%N && startsWith [LF] s' then split_lines s'
      else match split_lines s' with
           | [] => [[x]]
           | l :: ls => (x :: l) :: ls
           end
  end.

(** [lines.findIndex((l, i) => p l i)], with -1 when no line
    qualifies. *)
Fixpoint findIndex_from (p : str -> Z -> bool) (i : Z) (lines : list str) : Z :=
  match lines with
  | [] => (-1)%Z
  | l :: rest => if p l i then i else findIndex_from p (i + 1)%Z rest
  end.

Definition findIndex (p : str -> Z -> bool) (lines : list str) : Z :=
  findIndex_from p 0%Z lines.

(** [lines.slice(a, b)] and [lines.slice(a)] for indices that are not
    negative. *)
Definition slice (a b : Z) (lines : list str) : list str :=
  firstn (Z.to_nat (b - a)) (skipn (Z.to_nat a) lines).

Definition slice_from (a : Z) (lines : list str) : list str :=
  skipn (Z.to_nat a) lines.

(** [(l, i) => i > 0 && l.trim() === '---'] *)
Definition is_closing (l : str) (i : Z) : bool :=
  (0 <? i)%Z && str_eqb (trim l) (js "---").

(** Canonicalisation of a code unit under the [i] flag, for matching
    against an ASCII letter: an ASCII lower-case letter is compared
    through its upper case; a code unit outside ASCII never
    canonicalises to an ASCII one, so it equals no ASCII letter. *)
Definition canon_i (c : N) : N :=
  if in_range 97 122 c then (c - 32)%N else c.

Fixpoint startsWith_i (p s : str) : bool :=
  match p, s with
  | [], _ => true
  | x :: p', y :: s' => (canon_i x =? canon_i y)%N && startsWith_i p' s'
  | _ :: _, [] => false
  end.

Definition head_is (c : N) (s : str) : bool :=
  match s with x :: _ => (x =? c)%N | [] => false end.

(** [/^\s*summary\s*:/i] at the start of [s]. *)
Definition re_summary_key (s : str) : bool :=
  let s1 := dropWhile is_space s in
  startsWith_i (js "summary") s1
  && head_is 58 (dropWhile is_space (skipn 7 s1)).

(** [/^\s*```/] *)
Definition re_fence_line (s : str) : bool :=
  startsWith (js "```") (dropWhile is_space s).

(** [/^\s*[A-Za-z_][\w-]*\s*:/] *)
Definition yamlKey (s : str) : bool :=
  match dropWhile is_space s with
  | c :: r =>
      (in_range 65 90 c || in_range 97 122 c || (c =? 95)%N)
      && head_is 58
           (dropWhile is_space (dropWhile (fun x => is_word x || (x =? 45)%N) r))
  | [] => false
  end.

(** The [.+] of the list-item pattern after the first blank of [\s+]:
    further blanks may be taken by [\s+], and then one code unit that
    is no line terminator has to follow. *)
Fixpoint list_item_text (r : str) : bool :=
  match r with
  | [] => false
  | c :: r' => negb (is_line_terminator c) || (is_space c && list_item_text r')
  end.

(** [/^\s*-\s+.+/] *)
Definition yamlListItem (s : str) : bool :=
  match dropWhile is_space s with
  | c :: w :: r => (c =? 45)%N && is_space w && list_item_text r
  | _ => false
  end.

(** [/^\s*#/] *)
Definition yamlComment (s : str) : bool :=
  head_is 35 (dropWhile is_space s).

(** [/^\s*$/] *)
Definition emptyLine (s : str) : bool := forallb is_space s.

(** The filter of [upsertSummaryInFrontmatter]. *)
Definition keepLine (l : str) : bool :=
  if re_summary_key l then false
  else if re_fence_line l then false
  else yamlKey l || yamlListItem l || yamlComment l || emptyLine l.

Definition summaryLine (summary : str) : str :=
  js "summary: " ++ escapeYaml summary.

Definition upsertSummaryInFrontmatter (frontmatter summary : str) : str :=
  match frontmatter with
  | [] => js "---" ++ [LF] ++ summaryLine summary ++ [LF] ++ js "---" ++ [LF]
  | _ :: _ =>
      let lines := split_char LF frontmatter in
      let endIdx := findIndex is_closing lines in
      let endIdx := if (endIdx =? -1)%Z then Z.of_nat (length lines) else endIdx in
      let bodyLines := filter keepLine (slice 1 endIdx lines) in
      let rebuilt := [js "---"] ++ bodyLines ++ [summaryLine summary; js "---"] in
      let fmStr := join [LF] rebuilt in
      if endsWith [LF] fmStr then fmStr else fmStr ++ [LF]
  end.

(** [mergeFrontmatterBlocks] *)
Definition innerLines (fm : str) : list str :=
  let lines := split_lines fm in
  let endIdx := findIndex is_closing lines in
  if (endIdx >? -1)%Z then slice 1 endIdx lines else slice_from 1 lines.

Definition mergeFrontmatterBlocks (fm1 fm2 : str) : str :=
  let cleaned1 := filter (fun l => negb (re_summary_key l)) (innerLines fm1) in
  let cleaned2 := filter (fun l => negb (re_summary_key l)) (innerLines fm2) in
  let combined := [js "---"] ++ cleaned1 ++ cleaned2 ++ [js "---"] in
  let fmStr := join [LF] combined in
  if endsWith [LF] fmStr then fmStr else fmStr ++ [LF].

(** ** Splitting a document *)

(** The look-ahead [(?=\r?\n|$)] *)
Definition fm_lookahead (t : str) : bool :=
  match t with
  | [] => true
  | c :: t' => (c =? LF)%N || ((c =? CR)%N && head_is LF t')
  end.

(** [\n---(?=\r?\n|$)] at the start of [r]. *)
Definition fm_close_here (r : str) : bool :=
  match r with
  | c :: r' => (c =? LF)%N && startsWith (js "---") r' && fm_lookahead (skipn 3 r')
  | [] => false
  end.

(** [\r?\n---(?=\r?\n|$)] at the start of [r]: the code units it
    takes. *)
Definition fm_close_len (r : str) : option nat :=
  match r with
  | c :: r' =>
      if (c =? CR)%N then (if fm_close_here r' then Some 5%nat else None)
      else if fm_close_here r then Some 4%nat else None
  | [] => None
  end.

(** [[\s\S]*?\r?\n---(?=\r?\n|$)]: the lazy star stops at the first
    position where the closing delimiter matches. *)
Fixpoint fm_rest_len (r : str) : option nat :=
  match fm_close_len r with
  | Some n => Some n
  | None =>
      match r with
      | [] => None
      | _ :: r' => option_map S (fm_rest_len r')
      end
  end.

(** [/^---\r?\n[\s\S]*?\r?\n---(?=\r?\n|$)/.exec(s)]: the length of
    the match, which can only start at index 0. *)
Definition exec_frontmatter (s : str) : option nat :=
  if startsWith (js "---") s then
    match skipn 3 s with
    | c :: r =>
        if (c =? LF)%N then option_map (fun n => (4 + n)%nat) (fm_rest_len r)
        else if (c =? CR)%N && head_is LF r then
          option_map (fun n => (5 + n)%nat) (fm_rest_len (tl r))
        else None
    | [] => None
    end
  else None.

(** [content.replace(/^\uFEFF?/, '').trimStart()] *)
Definition stripLead (content : str) : str :=
  trimStart (match content with
             | c :: r => if (c =? BOM)%N then r else content
             | [] => []
             end).

(** [tail.replace(/^\r?\n*/, '')] *)
Definition stripBreaks (tail : str) : str :=
  dropWhile (N.eqb LF)
    (match tail with
     | c :: r => if (c =? CR)%N then r else tail
     | [] => []
     end).

Definition splitFrontmatterAndBody (content : str) : str * str :=
  let content := stripLead content in
  match exec_frontmatter content with
  | None => ([], content)
  | Some n =>
      let fm := firstn n content in
      let tail := skipn n content in
      match exec_frontmatter tail with
      | Some n2 =>
          (mergeFrontmatterBlocks fm (firstn n2 tail), stripBreaks (skipn n2 tail))
      | None => (fm, stripBreaks tail)
      end
  end.

Definition extractBodyOnly (content : str) : str :=
  let s := stripLead content in
  match exec_frontmatter s with
  | None => s
  | Some n =>
      let tail := skipn n s in
      match exec_frontmatter tail with
      | Some n2 => stripBreaks (skipn n2 tail)
      | None => stripBreaks tail
      end
  end.

(** [/(^|\n)\s*summary\s*:/i.test(frontmatter)] *)
Fixpoint summary_key_after_lf (s : str) : bool :=
  match s with
  | [] => false
  | c :: s' => ((c =? LF)%N && re_summary_key s') || summary_key_after_lf s'
  end.

Definition hasSummaryInFrontmatter (frontmatter : str) : bool :=
  match frontmatter with
  | [] => false
  | _ :: _ => re_summary_key frontmatter || summary_key_after_lf frontmatter
  end.

(** [frontmatter.match(/\ntitle:\s*Q?([^Q]+)Q?\s*\n/)], where [Q]
    stands for the two quote characters of the class written in the
    script, the single and the double quote. *)
Definition is_quote (c : N) : bool := (c =? 39)%N || (c =? DQ)%N.

(** [\s*\n] at the start of [t]: the blanks can be given back up to a
    line feed among them. *)
Fixpoint blanks_then_lf (t : str) : bool :=
  match t with
  | [] => false
  | c :: r => (c =? LF)%N || (is_space c && blanks_then_lf r)
  end.

(** [Q?\s*\n] at the start of [t]. *)
Definition title_tail (t : str) : bool :=
  match t with
  | c :: r => if is_quote c then blanks_then_lf r else blanks_then_lf t
  | [] => false
  end.

(** The greedy group [([^Q]+)] followed by the tail: the longest
    run that the tail can follow. *)
Fixpoint title_capture (t : str) : option nat :=
  match t with
  | [] => None
  | c :: r =>
      if is_quote c then None
      else match title_capture r with
           | Some n => Some (S n)
           | None => if title_tail r then Some 1%nat else None
           end
  end.

(** [Q?([^Q]+)Q?\s*\n] at the start of [t]: the group. *)
Definition title_quoted (t : str) : option str :=
  let t' := match t with
            | c :: r => if is_quote c then r else t
            | [] => t
            end in
  option_map (fun n => firstn n t') (title_capture t').

(** [\s*Q?([^Q]+)Q?\s*\n]: the leading blanks are taken
    greedily and given back one by one. *)
Fixpoint title_value (t : str) : option str :=
  match t with
  | [] => None
  | c :: r =>
      if is_space c then
        match title_value r with
        | Some v => Some v
        | None => title_quoted t
        end
      else title_quoted t
  end.

Fixpoint title_match (s : str) : option str :=
  match s with
  | [] => None
  | c :: r =>
      if (c =? LF)%N && startsWith (js "title:") r then
        match title_value (skipn 6 r) with
        | Some v => Some v
        | None => title_match r
        end
      else title_match r
  end.

Definition readTitleFromFrontmatter (frontmatter : str) : str :=
  match title_match frontmatter with
  | Some v => trim v
  | None => []
  end.

(** ** Stripping markup *)

Definition is_not (c x : N) : bool := negb (x =? c)%N.

(** Index of the first occurrence of [pat] in [s]. *)
Fixpoint indexOf (pat s : str) : option nat :=
  if startsWith pat s then Some O
  else match s with
       | [] => None
       | _ :: s' => option_map S (indexOf pat s')
       end.

(** [^] under the [m] flag: the start of the input or the position
    behind a line terminator. *)
Definition at_line_start (prev : option N) : bool :=
  match prev with None => true | Some c => is_line_terminator c end.

Definition is_blank_tab (c : N) : bool := (c =? 32)%N || (c =? 9)%N.

(** [/```[\s\S]*?```/] *)
Definition re_fenced : matcher :=
  fun _ s =>
    if startsWith (js "```") s then
      option_map (fun j => (3 + j + 3, []))%nat (indexOf (js "```") (skipn 3 s))
    else None.

(** [/`[^`]*`/] *)
Definition re_inline : matcher :=
  fun _ s =>
    match s with
    | c :: r =>
        let n := span_len (is_not 96) r in
        if (c =? 96)%N && head_is 96 (skipn n r) then Some (S (S n), []) else None
    | [] => None
    end.

(** [/!\[[^\]]*\]\([^\)]+\)/] *)
Definition re_image : matcher :=
  fun _ s =>
    if startsWith (js "![") s then
      let r := skipn 2 s in
      let a := span_len (is_not 93) r in
      let r2 := skipn a r in
      if startsWith (js "](") r2 then
        let b := span_len (is_not 41) (skipn 2 r2) in
        if (1 <=? b)%nat && head_is 41 (skipn b (skipn 2 r2))
        then Some (2 + a + 2 + b + 1, [])%nat else None
      else None
    else None.

(** [/\[([^\]]+)\]\([^\)]+\)/], replaced by the group. *)
Definition re_link : matcher :=
  fun _ s =>
    match s with
    | c :: r =>
        let a := span_len (is_not 93) r in
        let r2 := skipn a r in
        if (c =? 91)%N && (1 <=? a)%nat && startsWith (js "](") r2 then
          let b := span_len (is_not 41) (skipn 2 r2) in
          if (1 <=? b)%nat && head_is 41 (skipn b (skipn 2 r2))
          then Some (1 + a + 2 + b + 1, firstn a r)%nat else None
        else None
    | [] => None
    end.

(** [/\*{1,3}([^*]+)\*{1,3}/], replaced by the group.  The group has
    to start behind the whole run of stars, so the run has at most
    three; the group is the run of other code units, and stars have
    to follow it. *)
Definition re_emphasis : matcher :=
  fun _ s =>
    let k := span_len (N.eqb 42) s in
    let r := skipn k s in
    let n := span_len (is_not 42) r in
    let m := span_len (N.eqb 42) (skipn n r) in
    if (1 <=? k)%nat && (k <=? 3)%nat && (1 <=? n)%nat && (1 <=? m)%nat
    then Some (k + n + Nat.min 3 m, firstn n r)%nat else None.

(** [/__([^_]+)__/] and [/_([^_]+)_/], replaced by the group. *)
Definition re_underscores (k : nat) : matcher :=
  fun _ s =>
    let mark := repeat 95%N k in
    let r := skipn k s in
    let n := span_len (is_not 95) r in
    if startsWith mark s && (1 <=? n)%nat && startsWith mark (skipn n r)
    then Some (k + n + k, firstn n r)%nat else None.

(** [/^[ \t]*#{1,6}[^\n]*\n/m] *)
Definition re_heading : matcher :=
  fun prev s =>
    let a := span_len is_blank_tab s in
    match skipn a s with
    | c :: r =>
        let j := span_len (is_not LF) r in
        if at_line_start prev && (c =? 35)%N && head_is LF (skipn j r)
        then Some (a + 1 + j + 1, [])%nat else None
    | [] => None
    end.

(** [/^>\s+/m] *)
Definition re_quote_mark : matcher :=
  fun prev s =>
    match s with
    | c :: r =>
        let w := span_len is_space r in
        if at_line_start prev && (c =? 62)%N && (1 <=? w)%nat
        then Some (S w, []) else None
    | [] => None
    end.

(** [/^[ \t]*[-*+]\s+/m] *)
Definition re_bullet : matcher :=
  fun prev s =>
    let a := span_len is_blank_tab s in
    match skipn a s with
    | c :: r =>
        let w := span_len is_space r in
        if at_line_start prev && one_of (js "-*+") c && (1 <=? w)%nat
        then Some (a + 1 + w, [])%nat else None
    | [] => None
    end.

(** [/^[ \t]*\d+\.\s+/m] *)
Definition re_numbered : matcher :=
  fun prev s =>
    let a := span_len is_blank_tab s in
    let d := span_len is_digit (skipn a s) in
    match skipn d (skipn a s) with
    | c :: r =>
        let w := span_len is_space r in
        if at_line_start prev && (1 <=? d)%nat && (c =? 46)%N && (1 <=? w)%nat
        then Some (a + d + 1 + w, [])%nat else None
    | [] => None
    end.

(** [/<[^>]+>/] *)
Definition re_tag : matcher :=
  fun _ s =>
    match s with
    | c :: r =>
        let n := span_len (is_not 62) r in
        if (c =? 60)%N && (1 <=? n)%nat && head_is 62 (skipn n r)
        then Some (S (S n), []) else None
    | [] => None
    end.

(** [/\r?\n+/], replaced by one blank. *)
Definition re_newlines : matcher :=
  fun _ s =>
    match s with
    | c :: r =>
        if (c =? CR)%N then
          let n := span_len (N.eqb LF) r in
          if (1 <=? n)%nat then Some (S n, js " ") else None
        else
          let n := span_len (N.eqb LF) s in
          if (1 <=? n)%nat then Some (n, js " ") else None
    | [] => None
    end.

Definition collapseBlanks (s : str) : str :=
  trim (replaceAll (re_run 2 is_space (js " ")) (replaceAll re_newlines s)).

Definition stripLineMarkup (s : str) : str :=
  replaceAll re_tag
    (replaceAll re_numbered
       (replaceAll re_bullet
          (replaceAll re_quote_mark (replaceAll re_heading s)))).

Definition sanitizeSummaryText (text : str) (maxLen : Z) : str :=
  match text with
  | [] => []
  | _ :: _ =>
      let s := replaceAll re_fenced text in
      let s := replaceAll re_image s in
      let s := replaceAll re_link s in
      let s := replaceAll re_emphasis s in
      let s := replaceAll (re_underscores 1) (replaceAll (re_underscores 2) s) in
      let s := collapseBlanks (stripLineMarkup s) in
      match s with
      | [] => []
      | _ :: _ => toDeclarativeSentence s maxLen
      end
  end.

(** The chain shared by [sanitizeBodyForAPI] and
    [localGenerateSummary]. *)
Definition plainText (body : str) : str :=
  let s := replaceAll re_fenced body in
  let s := replaceAll re_inline s in
  let s := replaceAll re_image s in
  let s := replaceAll re_link s in
  collapseBlanks (stripLineMarkup s).

Definition sanitizeBodyForAPI (body : str) : str :=
  match body with
  | [] => []
  | _ :: _ => plainText body
  end.

Definition localGenerateSummary (title body : str) (maxLen : Z) : str :=
  match plainText body with
  | [] =>
      toDeclarativeSentence
        (match title with [] => js "本文介绍相关主题与步骤。" | _ :: _ => title end)
        maxLen
  | (_ :: _) as clean => toDeclarativeSentence clean maxLen
  end.

Definition limitBody (body : str) (maxChars : Z) : str :=
  if (maxChars <=? 0)%Z then body
  else if (Z.of_nat (length body) >? maxChars)%Z
       then firstn (Z.to_nat maxChars) body else body.

(** ** The code-likeness scorer *)

(** [re.test(text)]: the expression is tried at every position, the
    end of the input included. *)
Fixpoint test_from (m : matcher) (prev : option N) (s : str) : bool :=
  match m prev s with
  | Some _ => true
  | None =>
      match s with
      | [] => false
      | c :: s' => test_from m (Some c) s'
      end
  end.

Definition test (m : matcher) (s : str) : bool := test_from m None s.

(** [/`[^`]+`/] *)
Definition re_inline_code : matcher :=
  fun _ s =>
    match s with
    | c :: r =>
        let n := span_len (is_not 96) r in
        if (c =? 96)%N && (1 <=? n)%nat && head_is 96 (skipn n r)
        then Some (S (S n), []) else None
    | [] => None
    end.

Definition keywords : list str :=
  [js "import"; js "export"; js "const"; js "let"; js "var"; js "function";
   js "interface"; js "class"; js "return"; js "new"].

Definition word_before (prev : option N) : bool :=
  match prev with Some c => is_word c | None => false end.

Definition word_at (s : str) : bool :=
  match s with c :: _ => is_word c | [] => false end.

(** [\b]: a word character on exactly one side. *)
Definition word_boundary (prev : option N) (s : str) : bool :=
  xorb (word_before prev) (word_at s).

(** [/\b(import|export|const|let|var|function|interface|class|return|new)\b/] *)
Definition re_keyword : matcher :=
  fun prev s =>
    if word_boundary prev s
       && existsb (fun kw => startsWith kw s
                             && word_boundary (Some (last kw 0%N)) (skipn (length kw) s))
            keywords
    then Some (O, []) else None.

(** [/\w+\s*=>/] *)
Definition re_arrow : matcher :=
  fun _ s =>
    let w := span_len is_word s in
    if (1 <=? w)%nat && startsWith (js "=>") (dropWhile is_space (skipn w s))
    then Some (O, []) else None.

(** [/\w+\.\w+/] *)
Definition re_member : matcher :=
  fun _ s =>
    let w := span_len is_word s in
    match skipn w s with
    | c :: r => if (1 <=? w)%nat && (c =? 46)%N && word_at r then Some (O, []) else None
    | [] => None
    end.

(** [(text.match(/[{}();\[\]]/g) || []).length] *)
Definition punctCount (text : str) : nat :=
  length (filter (one_of (js "{}();[]")) text).

Definition codeScore (text : str) : nat :=
  let score := O in
  let score := if test re_fenced text then (score + 2)%nat else score in
  let score := if test re_inline_code text then (score + 1)%nat else score in
  let score := if test re_keyword text then (score + 2)%nat else score in
  let score := if test re_arrow text then (score + 1)%nat else score in
  let score := if test re_member text then (score + 1)%nat else score in
  let score := if (3 <=? punctCount text)%nat then (score + 1)%nat else score in
  score.

Definition looksLikeCode (text : str) : bool :=
  match text with
  | [] => false
  | _ :: _ => (2 <=? codeScore text)%nat
  end.

(** ** The overwrite policy *)

Inductive OverwritePolicy := ask | always | never.

(** [toLowerCase] on code units.  The ASCII capitals are lowered; the
    Kelvin sign lowers to [k] and the dotted capital I to [i] with a
    combining dot.  These are the only code units outside ASCII whose
    lower case contains an ASCII letter; the lower case of every other
    one stays outside ASCII, and the script compares lowered strings
    with ASCII words only, so those are left as they are. *)
Definition lower_unit (c : N) : str :=
  if in_range 65 90 c then [(c + 32)%N]
  else if (c =? 8490)%N then [107%N]
  else if (c =? 304)%N then [105%N; 775%N]
  else [c].

Definition toLowerCase (s : str) : str := flat_map lower_unit s.

Definition includes (words : list str) (v : str) : bool :=
  existsb (str_eqb v) words.

(** The value tests shared by the two readers of the policy. *)
Definition policyOfWord (v : str) : option OverwritePolicy :=
  if str_eqb v (js "ask") then Some ask
  else if str_eqb v (js "always") then Some always
  else if str_eqb v (js "never") then Some never
  else if includes [js "yes"; js "y"; js "true"; js "1"] v then Some always
  else if includes [js "no"; js "n"; js "false"; js "0"] v then Some never
  else None.

(** [\s*$] under the [m] flag, behind the greedy [(\w+)]: blanks up
    to the end of the input or to a line terminator. *)
Fixpoint blanks_then_eol (t : str) : bool :=
  match t with
  | [] => true
  | c :: r => is_line_terminator c || (is_space c && blanks_then_eol r)
  end.

(** [/^\s*\/\/\s*AISUMMARY_OVERWRITE_EXISTING\s*[:=]\s*(\w+)\s*$/mi]
    tried at one position: the group. *)
Definition policy_line (prev : option N) (s : str) : option str :=
  let s1 := dropWhile is_space s in
  let s2 := dropWhile is_space (skipn 2 s1) in
  let s3 := dropWhile is_space (skipn 28 s2) in
  let s4 := dropWhile is_space (tl s3) in
  let w := span_len is_word s4 in
  if at_line_start prev
     && startsWith (js "//") s1
     && startsWith_i (js "AISUMMARY_OVERWRITE_EXISTING") s2
     && (head_is 58 s3 || head_is 61 s3)
     && (1 <=? w)%nat
     && blanks_then_eol (skipn w s4)
  then Some (firstn w s4) else None.

(** [content.match(re)]: the leftmost position where the expression
    matches. *)
Fixpoint policy_match (prev : option N) (s : str) : option str :=
  match policy_line prev s with
  | Some v => Some v
  | None =>
      match s with
      | [] => None
      | c :: s' => policy_match (Some c) s'
      end
  end.

(** The configuration file is absent ([None]) or has a content. *)
Definition readOverwritePolicyFromCustom (file : option str) : option OverwritePolicy :=
  match file with
  | None => None
  | Some content =>
      match policy_match None content with
      | None => None
      | Some v => policyOfWord (toLowerCase v)
      end
  end.

(** The environment variable is unset ([None]) or has a value. *)
Definition readOverwritePolicyFromEnv (env : option str) : option OverwritePolicy :=
  let raw := toLowerCase (trim (match env with Some v => v | None => [] end)) in
  match raw with
  | [] => None
  | _ :: _ => policyOfWord raw
  end.

Definition getOverwritePolicy (file env : option str) (isInteractive : bool)
  : OverwritePolicy :=
  match readOverwritePolicyFromCustom file with
  | Some c => c
  | None =>
      match readOverwritePolicyFromEnv env with
      | Some e => e
      | None => if isInteractive then ask else never
      end
  end.

(** [!!process.stdin.isTTY && !!process.stdout.isTTY] of [run]. *)
Definition isInteractive (stdinTTY stdoutTTY : bool) : bool := stdinTTY && stdoutTTY.

(** [promptYesNo]: what the promise resolves to when the user answers
    [ans]. *)
Definition promptYesNo (ans : str) (defaultYes : bool) : bool :=
  let v := toLowerCase (trim ans) in
  match v with
  | [] => defaultYes
  | _ :: _ => str_eqb v (js "y") || str_eqb v (js "yes")
  end.

(** ** The request to the summary endpoint *)

(** [/^[\x00-\x7F]*$/.test(str)] *)
Definition isASCII (s : str) : bool := forallb (fun c => (c <=? 127)%N) s.

Inductive json := JString (s : str) | JNumber (n : Z).

(** A JavaScript object used as a record of named fields: assignment
    replaces the value of a field that exists and appends a new one. *)
Definition object (V : Type) := list (str * V).

Fixpoint get {V : Type} (o : object V) (k : str) : option V :=
  match o with
  | [] => None
  | (k', v) :: o' => if str_eqb k' k then Some v else get o' k
  end.

Fixpoint set {V : Type} (o : object V) (k : str) (v : V) : object V :=
  match o with
  | [] => [(k, v)]
  | (k', v') :: o' => if str_eqb k' k then (k', v) :: o' else (k', v') :: set o' k v
  end.

Record Request := {
  url : str;
  method : str;
  headers : object str;
  payload : object json
}.

(** What [fetch] and [res.json()] can produce. *)
Inductive Response :=
| NetworkError
| HttpError (status : Z)
| BadJson
| NoSummary
| Summary (s : str).

(** Where the endpoint and the credential come from: the commented
    configuration file and the environment, each value possibly
    absent. *)
Record Settings := {
  cfg_api : option str;
  cfg_key : option str;
  env_api : option str;
  env_key : option str
}.

Definition truthy (v : option str) : bool :=
  match v with Some (_ :: _) => true | _ => false end.

(** [a || b] on values that are a string or absent. *)
Definition or_else (a b : option str) : option str :=
  if truthy a then a else b.

(** The request that [callSummaryAPI] hands to [fetch] for the
    endpoint [api] and the credential [key]. *)
Definition buildRequest (api : str) (key : option str) (title body : str) (limit : Z)
  : Request :=
  let limited := limitBody body limit in
  let payload : object json :=
    [(js "title", JString title); (js "content", JString limited);
     (js "wordLimit", JNumber limit)] in
  let headers : object str :=
    [(js "Content-Type", js "application/json"); (js "Accept", js "application/json")] in
  match key with
  | Some ((_ :: _) as k) =>
      if isASCII k then
        {| url := api; method := js "POST";
           headers := set headers (js "Authorization") (js "Bearer " ++ k);
           payload := payload |}
      else
        {| url := api; method := js "POST";
           headers := headers;
           payload := set payload (js "apiKey") (JString k) |}
  | _ => {| url := api; method := js "POST"; headers := headers; payload := payload |}
  end.

(** What [callSummaryAPI] makes of the response: the trimmed summary
    of a 2xx response that carries one, nothing otherwise. *)
Definition summaryOf (resp : Response) : option str :=
  match resp with
  | Summary s => Some (trim s)
  | _ => None
  end.

Definition callSummaryAPI (st : Settings) (fetch : Request -> Response)
  (title body : str) (limit : Z) : option str :=
  let api := or_else (cfg_api st) (env_api st) in
  let key := or_else (cfg_key st) (env_key st) in
  match api with
  | Some ((_ :: _) as a) => summaryOf (fetch (buildRequest a key title body limit))
  | _ => None
  end.

(** ** One document *)

(** What [processOne] does to the outside: whether the user was
    asked, and the content written to the file, if any.  Log lines and
    the wording of the question are left out; reading and writing the
    file are taken to succeed (on an exception the script logs the
    failure and leaves the file as it is). *)
Record Outcome := {
  prompted : bool;
  written : option str
}.

(** The run parameters that [processOne] reads from the enclosing
    [run]. *)
Record Run := {
  overwritePolicy : OverwritePolicy;
  cleanBeforeAPI : bool;
  settings : Settings;
  fetch : Request -> Response;
  answer : str
}.

Definition hasCustomAPI (st : Settings) : bool :=
  truthy (or_else (cfg_api st) (env_api st)).

(** The summary chosen for a document, and whether it is the one of
    the endpoint. *)
Definition chooseSummary (apiSummary : option str) (title limitedBody : str)
  : bool * str :=
  let summaryRaw := match apiSummary with Some s => s | None => [] end in
  let summary := sanitizeSummaryText summaryRaw SUMMARY_MAX_LEN in
  let '(fromAPI, summary) :=
    if negb (nonempty summary) || looksLikeCode summary
    then (false, localGenerateSummary title limitedBody SUMMARY_MAX_LEN)
    else (true, summary) in
  (fromAPI, toDeclarativeSentence summary SUMMARY_MAX_LEN).

(** The part of [processOne] behind the overwrite decision: the
    summary for the document, and the new content of the file. *)
Definition summaryFor (r : Run) (content : str) (limit : Z) : str :=
  let frontmatter := fst (splitFrontmatterAndBody content) in
  let bodyOnly := extractBodyOnly content in
  let title := readTitleFromFrontmatter frontmatter in
  let limitedBody := limitBody bodyOnly limit in
  let contentForAPI :=
    if cleanBeforeAPI r then sanitizeBodyForAPI limitedBody else limitedBody in
  let apiSummary :=
    if hasCustomAPI (settings r)
    then callSummaryAPI (settings r) (fetch r) title contentForAPI limit
    else None in
  snd (chooseSummary apiSummary title limitedBody).

Definition generateAndWrite (r : Run) (content : str) (limit : Z) : str :=
  let '(frontmatter, body) := splitFrontmatterAndBody content in
  let nextFrontmatter :=
    upsertSummaryInFrontmatter frontmatter (summaryFor r content limit) in
  nextFrontmatter ++ body.

Definition processOne (r : Run) (content : str) (limit : Z) : Outcome :=
  let frontmatter := fst (splitFrontmatterAndBody content) in
  if hasSummaryInFrontmatter frontmatter then
    match overwritePolicy r with
    | never => {| prompted := false; written := None |}
    | ask =>
        if promptYesNo (answer r) false
        then {| prompted := true; written := Some (generateAndWrite r content limit) |}
        else {| prompted := true; written := None |}
    | always =>
        {| prompted := false; written := Some (generateAndWrite r content limit) |}
    end
  else {| prompted := false; written := Some (generateAndWrite r content limit) |}.

(** ** Reading the summary back, previews *)

Definition stripQuoteStart (s : str) : str :=
  match s with
  | c :: r => if is_quote c then r else s
  | [] => []
  end.

Definition stripQuoteEnd (s : str) : str := rev (stripQuoteStart (rev s)).

(** [l.match(/^\s*summary\s*:\s*(G)$/i)], where the group [G] is the
    dot under a star: the group.  Behind the colon the blanks are taken
    greedily, and the dot has to run up to the end of the line, so what
    follows the blanks must hold no line terminator. *)
Definition summary_value (l : str) : option str :=
  let s1 := dropWhile is_space l in
  if startsWith_i (js "summary") s1 then
    match dropWhile is_space (skipn 7 s1) with
    | c :: r =>
        let t := dropWhile is_space r in
        if (c =? 58)%N && forallb (fun x => negb (is_line_terminator x)) t
        then Some t else None
    | [] => None
    end
  else None.

(** The loop over the inner lines: the first line that matches gives
    the value, trimmed and without one quote at either end. *)
Fixpoint first_summary (inner : list str) : str :=
  match inner with
  | [] => []
  | l :: rest =>
      match summary_value l with
      | Some v => stripQuoteEnd (stripQuoteStart (trim v))
      | None => first_summary rest
      end
  end.

Definition readSummaryFromFrontmatter (frontmatter : str) : str :=
  match frontmatter with
  | [] => []
  | _ :: _ => first_summary (innerLines frontmatter)
  end.

(** [s.slice(0, e)] on a string. *)
Definition slice0 (s : str) (e : Z) : str :=
  if (e <? 0)%Z then firstn (Z.to_nat (Z.of_nat (length s) + e)) s
  else firstn (Z.to_nat e) s.

Definition previewText (text : str) (max : Z) : str :=
  let s := collapseBlanks text in
  if (Z.of_nat (length s) >? max)%Z then slice0 s max ++ js "…" else s.

(** ** Numbers in the configuration *)

Fixpoint digits_value (acc : Z) (ds : str) : Z :=
  match ds with
  | [] => acc
  | d :: ds' => digits_value (10 * acc + Z.of_N (d - 48))%Z ds'
  end.

(** [parseInt(s, 10)] as a mathematical integer, [None] for NaN:
    leading white space, an optional sign, then the longest run of
    decimal digits. *)
Definition parseInt10 (s : str) : option Z :=
  let s := trimStart s in
  let '(sign, s) :=
    match s with
    | c :: r => if (c =? 45)%N then ((-1)%Z, r)
                else if (c =? 43)%N then (1%Z, r) else (1%Z, s)
    | [] => (1%Z, s)
    end in
  let n := span_len is_digit s in
  match n with
  | O => None
  | S _ => Some (sign * digits_value 0 (firstn n s))%Z
  end.

(** The integers that become a finite Number: rounding to the nearest
    double gives Infinity from [2^1024 - 2^970] on. *)
Definition finiteNumber (v : Z) : bool :=
  (Z.abs v <? 2 ^ 1024 - 2 ^ 970)%Z.

(** [Number.isFinite(v) && v > 0 ? v : null] *)
Definition positiveOrNull (v : option Z) : option Z :=
  match v with
  | Some x => if finiteNumber x && (0 <? x)%Z then Some x else None
  | None => None
  end.

(** [/^\s*\/\/\s*KEY\s*[:=]\s*([cls]+)\s*$/m] tried at one position,
    for a key of the configuration and a class of value characters:
    the group. *)
Definition comment_value (key : str) (cls : N -> bool) (prev : option N) (s : str)
  : option str :=
  let s1 := dropWhile is_space s in
  let s2 := dropWhile is_space (skipn 2 s1) in
  let s3 := dropWhile is_space (skipn (length key) s2) in
  let s4 := dropWhile is_space (tl s3) in
  let w := span_len cls s4 in
  if at_line_start prev
     && startsWith (js "//") s1
     && startsWith key s2
     && (head_is 58 s3 || head_is 61 s3)
     && (1 <=? w)%nat
     && blanks_then_eol (skipn w s4)
  then Some (firstn w s4) else None.

(** [content.match(re)]: the leftmost position where it matches. *)
Fixpoint comment_match (key : str) (cls : N -> bool) (prev : option N) (s : str)
  : option str :=
  match comment_value key cls prev s with
  | Some v => Some v
  | None =>
      match s with
      | [] => None
      | c :: s' => comment_match key cls (Some c) s'
      end
  end.

Definition readConcurrencyFromCustom (file : option str) : option Z :=
  match file with
  | None => None
  | Some content =>
      match comment_match (js "AISUMMARY_CONCURRENCY") is_digit None content with
      | None => None
      | Some v => positiveOrNull (parseInt10 v)
      end
  end.

Definition readConcurrencyFromEnv (env : option str) : option Z :=
  positiveOrNull (parseInt10 (match env with Some v => v | None => [] end)).

(** [Math.max(1, Math.min(5, n))] *)
Definition clampConcurrency (n : Z) : Z := Z.max 1 (Z.min 5 n).

(** [getConcurrency].  The Number that the readers return is the
    integer rounded to a double; rounding leaves every integer below
    [2^53] as it is and no integer from 5 on below 5, so the clamped
    value is the one of the integer itself. *)
Definition getConcurrency (file env : option str) : Z :=
  clampConcurrency
    (match readConcurrencyFromCustom file with
     | Some c => c
     | None => match readConcurrencyFromEnv env with
               | Some c => c
               | None => 3%Z
               end
     end).

(** ** The flag for cleaning the body before submission *)

(** [(true|false|1|0)\s*$] under the flags [m] and [i]: the text of
    the alternative that matches. *)
Definition clean_word (s : str) : option str :=
  let try_word (w : str) :=
    startsWith_i w s && blanks_then_eol (skipn (length w) s) in
  if try_word (js "true") then Some (firstn 4 s)
  else if try_word (js "false") then Some (firstn 5 s)
  else if try_word (js "1") then Some (firstn 1 s)
  else if try_word (js "0") then Some (firstn 1 s)
  else None.

(** [/^[\t ]*\/\/\s*AISUMMARY_CLEAN_BEFORE_API\s*[:=]\s*(true|false|1|0)\s*$/mi]
    tried at one position. *)
Definition clean_line (prev : option N) (s : str) : option str :=
  let s1 := dropWhile is_blank_tab s in
  let s2 := dropWhile is_space (skipn 2 s1) in
  let s3 := dropWhile is_space (skipn 26 s2) in
  let s4 := dropWhile is_space (tl s3) in
  if at_line_start prev
     && startsWith (js "//") s1
     && startsWith_i (js "AISUMMARY_CLEAN_BEFORE_API") s2
     && (head_is 58 s3 || head_is 61 s3)
  then clean_word s4 else None.

Fixpoint clean_match (prev : option N) (s : str) : option str :=
  match clean_line prev s with
  | Some v => Some v
  | None =>
      match s with
      | [] => None
      | c :: s' => clean_match (Some c) s'
      end
  end.

Definition readCleanBeforeAPIFromCustom (file : option str) : option bool :=
  match file with
  | None => None
  | Some content =>
      match clean_match None content with
      | None => None
      | Some m1 =>
          let v := toLowerCase m1 in
          if str_eqb v (js "true") || str_eqb v (js "1") then Some true
          else if str_eqb v (js "false") || str_eqb v (js "0") then Some false
          else None
      end
  end.

Definition readCleanBeforeAPIFromEnv (env : option str) : option bool :=
  let raw := trim (match env with Some v => v | None => [] end) in
  match raw with
  | [] => None
  | _ :: _ =>
      let v := toLowerCase raw in
      if includes [js "true"; js "1"; js "yes"; js "y"] v then Some true
      else if includes [js "false"; js "0"; js "no"; js "n"] v then Some false
      else None
  end.

Definition getCleanBeforeAPI (file env : option str) : bool :=
  match readCleanBeforeAPIFromCustom file with
  | Some v => v
  | None => match readCleanBeforeAPIFromEnv env with
            | Some e => e
            | None => false
            end
  end.

(** ** Finding the articles *)

(** What [readdirSync] with [withFileTypes] lists in a directory: a
    file, a directory with what it holds, or an entry that is neither
    (a link, a socket and the like). *)
Local Unset Elimination Schemes.

Inductive node :=
| File (name : str)
| Dir (name : str) (items : list node)
| Other (name : str).

Local Set Elimination Schemes.

(** A path is the list of its segments; [path.join(dir, name)] adds
    one. *)
Definition path := list str.

(** [/index\.mdx?$/] tried at one position. *)
Definition re_index : matcher :=
  fun _ s =>
    if startsWith (js "index.md") s
       && (match skipn 8 s with
           | [] => true
           | [c] => (c =? 120)%N
           | _ => false
           end)
    then Some (O, []) else None.

Fixpoint entriesOf (dir : path) (item : node) : list path :=
  match item with
  | Dir name items =>
      (fix each (l : list node) : list path :=
         match l with
         | [] => []
         | x :: rest => entriesOf (dir ++ [name]) x ++ each rest
         end) items
  | File name => if test re_index name then [dir ++ [name]] else []
  | Other _ => []
  end.

(** [findMarkdownEntries(dir)] for a directory that holds [items]. *)
Definition findMarkdownEntries (dir : path) (items : list node) : list path :=
  flat_map (entriesOf dir) items.

(** ** The analytics loader *)

Record Decision := {
  shouldLoad : bool;
  reason : str
}.

(** [getUmamiDecision], with the development flag of the build as an
    argument. *)
Definition getUmamiDecision (dev : bool) (hostname : str) : Decision :=
  if dev then {| shouldLoad := false; reason := js "DEV 模式，跳过加载" |}
  else if str_eqb hostname (js "localhost") || str_eqb hostname (js "127.0.0.1")
          || str_eqb hostname (js "0.0.0.0") || str_eqb hostname (js "::1")
  then {| shouldLoad := false;
          reason := js "本地地址（" ++ hostname ++ js "），跳过加载" |}
  else match indexOf (js "blog.ljx.icu") hostname with
       | None =>
           {| shouldLoad := false;
              reason := js "域名不匹配（" ++ hostname ++ js "），跳过加载" |}
       | Some _ =>
           {| shouldLoad := true;
              reason := js "域名匹配（" ++ hostname ++ js "），准备注入脚本" |}
       end.

(** A script element of the document: its [src] and its
    [data-website-id]. *)
Record Script := {
  script_src : str;
  website_id : str;
  script_async : bool
}.

Definition UMAMI_SCRIPT_SRC : str := js "https://umami.ljx.icu/script.js".
Definition UMAMI_WEBSITE_ID : str := js "ad11c7a4-dbb8-42ff-8f60-7c225d9e9ffd".

(** [document.querySelector] for a script with the two attributes. *)
Definition isUmamiScript (s : Script) : bool :=
  str_eqb (script_src s) UMAMI_SCRIPT_SRC && str_eqb (website_id s) UMAMI_WEBSITE_ID.

(** [injectUmamiScript] on the scripts of the document: the scripts
    afterwards. *)
Definition injectUmamiScript (dev : bool) (hostname : str) (scripts : list Script)
  : list Script :=
  if shouldLoad (getUmamiDecision dev hostname) then
    if existsb isUmamiScript scripts then scripts
    else scripts ++ [{| script_src := UMAMI_SCRIPT_SRC;
                        website_id := UMAMI_WEBSITE_ID;
                        script_async := true |}]
  else scripts.

(** [hostname.includes] of the two loaders. *)
Definition hostMatches (hostname : str) : bool :=
  match indexOf (js "blog.ljx.icu") hostname with Some _ => true | None => false end.

(** The script element that both loaders create. *)
Definition umamiScript : Script :=
  {| script_src := UMAMI_SCRIPT_SRC; website_id := UMAMI_WEBSITE_ID; script_async := true |}.

(** The first loader: the script that it appends for the host name,
    without looking at the scripts that are there. *)
Definition firstLoader (hostname : str) (scripts : list Script) : list Script :=
  match indexOf (js "blog.ljx.icu") hostname with
  | Some _ => scripts ++ [umamiScript]
  | None =>
      match indexOf (js "[站点2]") hostname with
      | Some _ =>
          scripts ++ [{| script_src := js "https://你的站点/script.js";
                         website_id := js "[站点2的网站ID]";
                         script_async := true |}]
      | None => scripts
      end
  end.

(** ** The earlier script

    The script that came before [generateSummary.ts]: its cleaning of
    the body, its sentence, its test for a summary and its search for
    the articles. *)

(** [sanitize] *)
Definition sanitize (text : str) : str :=
  collapseBlanks
    (replaceAll re_tag
       (replaceAll re_link (replaceAll re_image (replaceAll re_fenced text)))).

(** [/[。.!?]$/.test(s)] *)
Definition endsInMark (s : str) : bool :=
  match rev s with
  | c :: _ => one_of (js "。.!?") c
  | [] => false
  end.

(** [toSentence], with [MAX_LEN] as an argument. *)
Definition toSentence (s : str) (maxLen : Z) : str :=
  let s := trim (slice0 s maxLen) in
  if endsInMark s then s else s ++ js "。".

(** [/^\s*summary\s*:/] at the start of [s], without the [i] flag. *)
Definition re_summary_key_exact (s : str) : bool :=
  let s1 := dropWhile is_space s in
  startsWith (js "summary") s1
  && head_is 58 (dropWhile is_space (skipn 7 s1)).

Fixpoint summary_key_exact_after_lf (s : str) : bool :=
  match s with
  | [] => false
  | c :: s' => ((c =? LF)%N && re_summary_key_exact s') || summary_key_exact_after_lf s'
  end.

(** [hasSummary] *)
Definition hasSummary (fm : str) : bool :=
  re_summary_key_exact fm || summary_key_exact_after_lf fm.

(** [findEntries]: whatever is not a directory is tested by its name. *)
Fixpoint entriesOfEarlier (dir : path) (item : node) : list path :=
  match item with
  | Dir name items =>
      (fix each (l : list node) : list path :=
         match l with
         | [] => []
         | x :: rest => entriesOfEarlier (dir ++ [name]) x ++ each rest
         end) items
  | File name => if test re_index name then [dir ++ [name]] else []
  | Other name => if test re_index name then [dir ++ [name]] else []
  end.

Definition findEntries (dir : path) (items : list node) : list path :=
  flat_map (entriesOfEarlier dir) items.

(** [\r?\n---] at the start of [r]: the code units it takes. *)
Definition close_mark (r : str) : option nat :=
  match r with
  | c :: r' =>
      if (c =? CR)%N then
        (if startsWith (LF :: js "---") r' then Some 5%nat else None)
      else if startsWith (LF :: js "---") r then Some 4%nat else None
  | [] => None
  end.

(** The lazy group in front of the closing mark: its length, and the
    length of the mark. *)
Fixpoint lazy_group (r : str) : option (nat * nat) :=
  match close_mark r with
  | Some k => Some (O, k)
  | None =>
      match r with
      | [] => None
      | _ :: r' => option_map (fun nk => (S (fst nk), snd nk)) (lazy_group r')
      end
  end.

(** [\r?\n?] at the start of [t]: what is left behind it. *)
Definition skip_break (t : str) : str :=
  let t := match t with
           | c :: r => if (c =? CR)%N then r else t
           | [] => []
           end in
  match t with
  | c :: r => if (c =? LF)%N then r else t
  | [] => []
  end.

(** [/^---\r?\n(G1)\r?\n---\r?\n?(G2)$/m] tried at one position, where
    [G1] is the lazy and [G2] the greedy run of any code units: the two
    groups. *)
Definition earlier_block (prev : option N) (s : str) : option (str * str) :=
  if at_line_start prev && startsWith (js "---") s then
    let r := skipn 3 s in
    let r := match r with
             | c :: r' => if (c =? CR)%N then r' else r
             | [] => []
             end in
    match r with
    | c :: r0 =>
        if (c =? LF)%N then
          match lazy_group r0 with
          | Some (n, k) => Some (firstn n r0, skip_break (skipn (n + k) r0))
          | None => None
          end
        else None
    | [] => None
    end
  else None.

(** [re.exec(s)]: the leftmost position where the expression
    matches. *)
Fixpoint earlier_exec (prev : option N) (s : str) : option (str * str) :=
  match earlier_block prev s with
  | Some m => Some m
  | None =>
      match s with
      | [] => None
      | c :: s' => earlier_exec (Some c) s'
      end
  end.

(** [splitFrontmatter] *)
Definition splitFrontmatter (content : str) : str * str :=
  match earlier_exec None (trimStart content) with
  | Some m => m
  | None => ([], content)
  end.

(** Every double quote replaced by a single quote. *)
Definition re_quote_single : matcher :=
  fun _ s =>
    match s with
    | c :: _ => if (c =? DQ)%N then Some (1%nat, js "'") else None
    | [] => None
    end.

(** The content that the loop of the earlier script writes for a
    block, a body and a summary. *)
Definition earlierContent (fm body summary : str) : str :=
  js "---" ++ [LF] ++ fm ++ [LF] ++ js "summary: " ++ [DQ]
    ++ replaceAll re_quote_single summary ++ [DQ] ++ [LF] ++ js "---" ++ [LF; LF] ++ body.

(** One round of the loop on the content of a file: nothing is written
    when the block has a summary; otherwise the summary is the one of
    the endpoint, if it gave one that is not empty, or the sentence made
    of the cleaned body. *)
Definition earlierProcess (apiSummary : option str) (maxLen : Z) (raw : str)
  : option str :=
  let '(fm, body) := splitFrontmatter raw in
  if hasSummary fm then None
  else
    let cleanText := sanitize body in
    let summary :=
      match apiSummary with
      | Some ((_ :: _) as s) => s
      | _ => toSentence cleanText maxLen
      end in
    Some (earlierContent fm body summary).

(** ** The pool of workers

    [run] copies the list of articles into a queue and starts as many
    workers as the concurrency says; a worker takes the article at the
    head of the queue and processes it, until the queue is empty.
    [processOne] reads the file when it starts and writes it when it is
    done; in between it may wait for the user or for the endpoint, and
    the other workers go on.  A state of the pool is the queue, the
    articles that are being processed, each with the content that was
    read, and the content of every file. *)
Record Pool := {
  queue : list path;
  active : list (path * str);
  disk : path -> str
}.

Fixpoint path_eqb (a b : path) : bool :=
  match a, b with
  | [], [] => true
  | x :: a', y :: b' => str_eqb x y && path_eqb a' b'
  | _, _ => false
  end.

(** [fs.writeFileSync(f, c)] *)
Definition writeFile (d : path -> str) (f : path) (c : str) : path -> str :=
  fun g => if path_eqb g f then c else d g.

(** The content of a file after [processOne] has run on what was read
    from it. *)
Definition processed (r : Run) (limit : Z) (c : str) : str :=
  match written (processOne r c limit) with
  | Some w => w
  | None => c
  end.

(** One step of the pool: a worker that is free takes the head of the
    queue and reads the file, or a worker finishes its article. *)
Inductive step (runOf : path -> Run) (limit concurrency : Z) : Pool -> Pool -> Prop :=
| step_take (f : path) (q : list path) (a : list (path * str)) (d : path -> str) :
    (Z.of_nat (length a) < concurrency)%Z ->
    step runOf limit concurrency
      {| queue := f :: q; active := a; disk := d |}
      {| queue := q; active := a ++ [(f, d f)]; disk := d |}
| step_finish (f : path) (c : str) (a1 a2 : list (path * str)) (q : list path)
    (d : path -> str) :
    step runOf limit concurrency
      {| queue := q; active := a1 ++ (f, c) :: a2; disk := d |}
      {| queue := q; active := a1 ++ a2;
         disk := writeFile d f (processed (runOf f) limit c) |}.

(** [n] steps of the pool. *)
Inductive steps (runOf : path -> Run) (limit concurrency : Z) : nat -> Pool -> Pool -> Prop :=
| steps_zero (st : Pool) : steps runOf limit concurrency 0 st st
| steps_more (n : nat) (st st' st'' : Pool) :
    steps runOf limit concurrency n st st' ->
    step runOf limit concurrency st' st'' ->
    steps runOf limit concurrency (S n) st st''.

(** The number of workers that [run] starts for the articles [files]
    that [findMarkdownEntries] has found.  When there is none, [run]
    returns before it comes to the workers.  Otherwise the concurrency
    is lowered to 1 under the policy [ask], and
    [Array.from({ length: concurrency }, () => worker())] starts that
    many workers. *)
Definition workerCount (files : list path) (policy : OverwritePolicy)
  (concurrency : Z) : Z :=
  match files with
  | [] => 0%Z
  | _ :: _ =>
      let concurrency :=
        match policy with
        | ask => if (concurrency >? 1)%Z then 1%Z else concurrency
        | _ => concurrency
        end in
      concurrency
  end.

(** ** The endpoint and the credential in the configuration file *)

(** The code units up to the end of the line. *)
Fixpoint upToLineEnd (s : str) : str :=
  match s with
  | [] => []
  | c :: r => if is_line_terminator c then [] else c :: upToLineEnd r
  end.

(** The last code unit of [w] that is no line terminator. *)
Fixpoint lastOnLine (w : str) : option N :=
  match w with
  | [] => None
  | c :: r =>
      match lastOnLine r with
      | Some d => Some d
      | None => if is_line_terminator c then None else Some c
      end
  end.

(** [/^\s*\/\/\s*KEY\s*[:=]\s*(G)$/m] tried at one position, where the
    group [G] is one or more code units that are no line terminators:
    the group.  The blanks behind the separator are taken greedily and
    the group then runs to the end of the line; when only blanks follow
    up to the end of the input, they are given back one by one until the
    group can take one of them. *)
Definition config_line (key : str) (prev : option N) (s : str) : option str :=
  let s1 := dropWhile is_space s in
  let s2 := dropWhile is_space (skipn 2 s1) in
  let s3 := dropWhile is_space (skipn (length key) s2) in
  if at_line_start prev
     && startsWith (js "//") s1
     && startsWith key s2
     && (head_is 58 s3 || head_is 61 s3)
  then
    match dropWhile is_space (tl s3) with
    | (_ :: _) as s4 => Some (upToLineEnd s4)
    | [] => option_map (fun c => [c]) (lastOnLine (tl s3))
    end
  else None.

Fixpoint config_match (key : str) (prev : option N) (s : str) : option str :=
  match config_line key prev s with
  | Some v => Some v
  | None =>
      match s with
      | [] => None
      | c :: s' => config_match key (Some c) s'
      end
  end.

(** [val.replace(/\s+\/\/.*$/, '')]: the value is cut at the first
    white space behind which two slashes follow, when no line
    terminator comes after them. *)
Fixpoint cutComment (s : str) : str :=
  match s with
  | [] => []
  | c :: r =>
      let t := dropWhile is_space r in
      if is_space c && startsWith (js "//") t
         && forallb (fun x => negb (is_line_terminator x)) (skipn 2 t)
      then [] else c :: cutComment r
  end.

(** [read(key)] of [readAIConfigFromCustom] on the content of the
    configuration file. *)
Definition readConfigValue (key : str) (content : str) : option str :=
  match config_match key None content with
  | None => None
  | Some g =>
      let val := trim g in
      let val := stripQuoteEnd (stripQuoteStart val) in
      let val := cutComment val in
      let val := replaceAll (re_trailing (N.eqb 59)) val in
      let val := trim val in
      match val with
      | [] => None
      | _ :: _ => Some val
      end
  end.

(** [readAIConfigFromCustom]: the endpoint and the credential. *)
Definition readAIConfigFromCustom (file : option str) : option str * option str :=
  match file with
  | None => (None, None)
  | Some content =>
      (readConfigValue (js "AI_SUMMARY_API") content,
       readConfigValue (js "AI_SUMMARY_KEY") content)
  end.

(** ** Stated properties, auxiliary notions and sample data *)

(** Lines joined by line feeds, to write documents down. *)
Definition nl (parts : list str) : str := join [LF] parts.

(** The code units that never survive the canonicaliser: the ASCII
    colon (rewritten by the punctuation stage), the double quote and
    the backtick (first removal) and the backslash (third removal). *)
Definition survives (c : N) : Prop :=
  c <> 58%N /\ c <> DQ /\ c <> 96%N /\ c <> 92%N.


(** The number of [summary] key lines of a block, with the test that
    the script itself applies to a line. *)
Definition summaryKeyLines (block : str) : nat :=
  length (filter re_summary_key (split_char LF block)).

(** Every double quote of [e] has a backslash in front. *)
Definition quotesEscaped (e : str) : Prop :=
  forall a b, e = a ++ DQ :: b -> exists a', a = a' ++ [92%N].

(** What [escapeYaml] does to one code unit. *)
Definition escapeUnit (c : N) : str :=
  if (c =? DQ)%N then [92%N; DQ] else [c].

(** A line that is not the closing delimiter. *)
Definition openLine (l : str) : bool := negb (str_eqb (trim l) (js "---")).

(** The lines in front of the first closing delimiter. *)
Fixpoint take_open (lines : list str) : list str :=
  match lines with
  | [] => []
  | l :: rest => if openLine l then l :: take_open rest else []
  end.

(** A line that [upsertSummaryInFrontmatter] keeps between the
    delimiters. *)
Definition keptLine (l : str) : Prop :=
  keepLine l = true /\ ~ In LF l /\ openLine l = true.

(** Idempotence of the upsert for one block and one summary. *)
Definition idempotent (fm s : str) : Prop :=
  upsertSummaryInFrontmatter (upsertSummaryInFrontmatter fm s) s
  = upsertSummaryInFrontmatter fm s.

(** The summary holds no line feed. *)
Definition oneLine (s : str) : bool := forallb (is_not LF) s.

(** The summary line as the specification words it.  The lines of the
    block that the upsert returns, which are what stands between its
    line feeds, are: the opening delimiter; lines
    that are neither a [summary] key line nor a delimiter; one line
    [summary: "..."] that holds the whole summary between two double
    quotes, a backslash in front of every double quote of it; directly
    behind that line the closing delimiter; and nothing behind the
    line feed that ends the closing delimiter.  That line is the only
    [summary] key line of the block. *)
Definition summaryLineLast (fm s : str) : Prop :=
  exists body e,
    split_char LF (upsertSummaryInFrontmatter fm s)
    = js "---" :: body ++ [js "summary: " ++ [DQ] ++ e ++ [DQ]; js "---"; []]
    /\ Forall (fun l => re_summary_key l = false /\ openLine l = true) body
    /\ e = flat_map escapeUnit s
    /\ quotesEscaped e
    /\ summaryKeyLines (upsertSummaryInFrontmatter fm s) = 1%nat.

(** A block with an old summary and a stray line. *)
Definition sampleBlock : str :=
  nl [js "---"; js "title: T"; js "summary: old"; js "stray text"; js "---"].




(** A document with one front-matter block, and one with none that
    starts with an empty line. *)
Definition sampleDocument : str :=
  nl [js "---"; js "title: T"; js "---"; []; js "Body text."; []].


(** The points that one signal of the scorer contributes. *)
Definition weight (signal : bool) (points : nat) : nat :=
  if signal then points else O.

(** The gate as the specification words it: a response with a fenced
    block and a keyword is not taken over from the endpoint. *)
Definition codeGate (response title body : str) : Prop :=
  test re_fenced response = true -> test re_keyword response = true ->
  fst (chooseSummary (Some response) title body) = false.

(** A response of the endpoint with a fenced block and the keyword
    [function], inside the block and outside of it; and a run in which
    the endpoint, answering 2xx, returns it. *)
Definition sampleResponse : str := js "Intro ```function f``` a function here".

Definition sampleRun : Run :=
  {| overwritePolicy := always;
     cleanBeforeAPI := false;
     settings := {| cfg_api := Some (js "https://api.example/summary");
                    cfg_key := None; env_api := None; env_key := None |};
     fetch := fun _ => Summary sampleResponse;
     answer := [] |}.

(** A run in which the endpoint, answering 2xx, returns [response];
    a response that is a line of code; and one with a carriage return
    in it. *)
Definition answeringRun (response : str) : Run :=
  {| overwritePolicy := always;
     cleanBeforeAPI := false;
     settings := {| cfg_api := Some (js "https://api.example/summary");
                    cfg_key := None; env_api := None; env_key := None |};
     fetch := fun _ => Summary response;
     answer := [] |}.

Definition arrowResponse : str := js "x => { return y.z; }".

Definition returnResponse : str := js "a" ++ [CR] ++ js "b".

(** The code units that the signals of the scorer other than the
    keywords need: the backtick of the fenced block and of the inline
    code, the equals sign of the arrow, the full stop of the member
    access, and the structural characters that are counted. *)
Definition codeFree (c : N) : Prop :=
  c <> 46%N /\ c <> 59%N /\ c <> 96%N /\ c <> 61%N
  /\ c <> 40%N /\ c <> 41%N /\ c <> 91%N /\ c <> 93%N
  /\ c <> 123%N /\ c <> 125%N.

(** A document that has a summary already, and runs under the three
    policies in which the user, if asked, answers with a bare return
    or with [nope]. *)
Definition summarisedDocument : str :=
  nl [js "---"; js "title: T"; js "summary: " ++ [DQ] ++ js "Old。" ++ [DQ];
      js "---"; js "Body text."; []].

Definition localRun (p : OverwritePolicy) (ans : str) : Run :=
  {| overwritePolicy := p;
     cleanBeforeAPI := false;
     settings := {| cfg_api := None; cfg_key := None;
                    env_api := None; env_key := None |};
     fetch := fun _ => NetworkError;
     answer := ans |}.

(** The answers that count as a yes. *)
Definition affirmative (ans : str) : bool :=
  includes [js "y"; js "yes"] (toLowerCase (trim ans)).

(** A document whose title line is followed by another line and whose
    body is empty. *)
Definition titledDocument : str :=
  nl [js "---"; js "title: a"; js "b: c"; js "---"; []].

(** A document of that kind in which a line of three dashes and a
    blank stands between the two. *)
Definition delimiterDocument : str :=
  nl [js "---"; js "title: a"; js "--- "; js "b: c"; js "---"; []].


(** A configuration file whose only line sets the policy to [w]. *)
Definition policyFile (w : str) : str :=
  js "// AISUMMARY_OVERWRITE_EXISTING=" ++ w.

(** Settings with an endpoint from the configuration file and a
    credential from the environment; a credential within ASCII and one
    outside of it. *)
Definition sampleEndpoint : str := Eval vm_compute in js "https://api.example/summary".

Definition keyedSettings (key : str) : Settings :=
  {| cfg_api := Some sampleEndpoint; cfg_key := None;
     env_api := None; env_key := Some key |}.

Definition asciiKey : str := Eval vm_compute in js "sk-123".
Definition wideKey : str := Eval vm_compute in js "密钥".

(** Notions for the further properties. *)

Definition linesText (lines : list str) : str := flat_map (fun l => l ++ [LF]) lines.

Fixpoint chopCR (l : str) : str :=
  match l with
  | [] => []
  | c :: l' =>
      match l' with
      | [] => if (c =? CR)%N then [] else [c]
      | _ :: _ => c :: chopCR l'
      end
  end.

Definition lineTerminatorFree (s : str) : bool :=
  forallb (fun x => negb (is_line_terminator x)) s.

(** The code units that end a sentence for the canonicaliser: the two
    classes that the punctuation stage rewrites into terminal marks, and
    the class at which the clauses are split. *)
Definition sentenceMark (c : N) : bool :=
  one_of (js ".;") c || one_of (js "!?") c || one_of (js "。！？!？…") c.

(** One sentence of at most [maxLen] code units: a core without a
    sentence mark that does not end in a separator and has at most
    [max 1 (maxLen - 1)] code units, and the terminal mark behind it. *)
Definition singleSentence (maxLen : Z) (out : str) : Prop :=
  exists core,
    out = core ++ js "。"
    /\ Forall (fun c => sentenceMark c = false) core
    /\ (forall pre d, core = pre ++ [d] -> one_of (js "，、：；") d = false)
    /\ (Z.of_nat (length core) <= Z.max 1 (maxLen - 1))%Z.

(** No two white-space code units stand next to each other. *)
Fixpoint spacedOnce (s : str) : bool :=
  match s with
  | [] => true
  | c :: r =>
      match r with
      | [] => true
      | d :: _ => negb (is_space c && is_space d) && spacedOnce r
      end
  end.

(** A text on one line, with single white space only and none at
    either end. *)
Definition normalised (t : str) : Prop :=
  ~ In LF t /\ spacedOnce t = true /\ trim t = t.

Definition headSpace (s : str) : bool :=
  match s with c :: _ => is_space c | [] => false end.

(** A run whose endpoint answers every request with an error status. *)
Definition failingRun : Run :=
  {| overwritePolicy := always;
     cleanBeforeAPI := true;
     settings := keyedSettings asciiKey;
     fetch := fun _ => HttpError 500;
     answer := [] |}.

(** The positive number configured for the concurrency, 3 when there
    is none. *)
Definition configuredConcurrency (file env : option str) : Z :=
  match readConcurrencyFromCustom file with
  | Some c => c
  | None => match readConcurrencyFromEnv env with
            | Some c => c
            | None => 3%Z
            end
  end.

(** The words that set the cleaning flag, in the configuration file
    and in the environment. *)
Definition cleanWordsFile : list (str * bool) :=
  [(js "true", true); (js "1", true); (js "false", false); (js "0", false)].

Definition cleanWordsEnv : list (str * bool) :=
  [(js "true", true); (js "1", true); (js "yes", true); (js "y", true);
   (js "false", false); (js "0", false); (js "no", false); (js "n", false)].

Definition lookupFlag (table : list (str * bool)) (v : str) : option bool :=
  option_map snd (find (fun e => str_eqb v (fst e)) table).

(** A lower-case ASCII letter or a digit. *)
Definition lowerOrDigit (c : N) : bool := in_range 97 122 c || is_digit c.

(** Every file below a directory, with its path, in the order of the
    listing. *)
Fixpoint filesOf (dir : path) (item : node) : list path :=
  match item with
  | Dir name items =>
      (fix each (l : list node) : list path :=
         match l with
         | [] => []
         | x :: rest => filesOf (dir ++ [name]) x ++ each rest
         end) items
  | File name => [dir ++ [name]]
  | Other _ => []
  end.

Definition allFiles (dir : path) (items : list node) : list path :=
  flat_map (filesOf dir) items.

(** A name that ends in [index.md] or [index.mdx]. *)
Definition isIndexName (name : str) : bool :=
  endsWith (js "index.md") name || endsWith (js "index.mdx") name.

(** A listing in which every entry that is neither a file nor a
    directory is taken for a file. *)
Fixpoint asFile (item : node) : node :=
  match item with
  | Dir name items => Dir name (map asFile items)
  | File name => File name
  | Other name => File name
  end.

(** The closing mark of the earlier expression stands at the start of
    [t]. *)
Definition marked (t : str) : bool :=
  match close_mark t with Some _ => true | None => false end.

(** The content that a file has when all the articles are done. *)
Definition afterRun (runOf : path -> Run) (limit : Z) (files : list path)
  (d : path -> str) (f : path) : str :=
  if existsb (path_eqb f) files then processed (runOf f) limit (d f) else d f.

(** Two articles, and a disk on which every file holds the sample
    document. *)
Definition twoArticles : list path :=
  [[js "blog"; js "a"; js "index.md"]; [js "blog"; js "b"; js "index.mdx"]].

Definition sampleDisk : path -> str := fun _ => sampleDocument.

(** What holds of every state that the pool reaches from the start:
    the articles in the queue and in work are distinct and untouched,
    those in work were read from the initial disk, every other article
    is done, and no other file was touched. *)
Definition poolInv (runOf : path -> Run) (limit : Z) (files : list path)
  (d0 : path -> str) (st : Pool) : Prop :=
  NoDup (queue st ++ map fst (active st))
  /\ incl (queue st ++ map fst (active st)) files
  /\ (forall f c, In (f, c) (active st) -> c = d0 f)
  /\ (forall f, In f (queue st ++ map fst (active st)) -> disk st f = d0 f)
  /\ (forall f, ~ In f (queue st ++ map fst (active st)) ->
        disk st f = afterRun runOf limit files d0 f).

(** A front-matter block whose first line gives the title between
    quotes. *)
Definition titledBlock (pre ws : str) (q1 q2 : N) (title rest : str) : str :=
  pre ++ LF :: js "title:" ++ ws ++ q1 :: title ++ q2 :: LF :: rest.

(** * Properties *)

(** ** The embedding at work *)

Example canonical_sentence :
  toDeclarativeSentence (js "Hello world, visit here. Done!") SUMMARY_MAX_LEN
  = js "Helloworld，visithere，Done。".
Proof. vm_compute. reflexivity. Qed.

Example truncated_sentence :
  toDeclarativeSentence (js "one, two, three") 5 = js "one。".
Proof. vm_compute. reflexivity. Qed.

Example sanitized_markup :
  sanitizeSummaryText
    (nl [js "# T"; []; js "Hello **world**, visit [here](http://x)."; []])
    SUMMARY_MAX_LEN
  = js "Helloworld，visithere。".
Proof. vm_compute. reflexivity. Qed.

Example split_document :
  splitFrontmatterAndBody sampleDocument
  = (nl [js "---"; js "title: T"; js "---"], nl [js "Body text."; []]).
Proof. vm_compute. reflexivity. Qed.

Example upsert_block :
  upsertSummaryInFrontmatter sampleBlock (js "New。")
  = nl [js "---"; js "title: T"; js "summary: " ++ [DQ] ++ js "New。" ++ [DQ];
        js "---"; []].
Proof. vm_compute. reflexivity. Qed.

(** The group of the title expression is greedy and excludes the
    quotes only, so it runs over the lines that follow the title up to
    the last line feed of the block. *)
Example title_of_block :
  readTitleFromFrontmatter (fst (splitFrontmatterAndBody sampleDocument)) = js "T"
  /\ readTitleFromFrontmatter (fst (splitFrontmatterAndBody titledDocument))
     = nl [js "a"; js "b: c"].
Proof. vm_compute. auto. Qed.

Example code_score :
  codeScore (js "a `b` c.d x => { ( ; function") = 6%nat
  /\ looksLikeCode (js "A plain sentence.") = false.
Proof. vm_compute. auto. Qed.

Example policy_from_file :
  readOverwritePolicyFromCustom
    (Some (nl [js "export default {}"; js "  // AISUMMARY_OVERWRITE_EXISTING : Yes  "]))
  = Some always.
Proof. vm_compute. reflexivity. Qed.

(** A document without front-matter, no endpoint configured: the
    summary comes from the body and the body stays as it is. *)
Example document_without_block :
  written
    (processOne (localRun never [])
       (nl [js "# T"; []; js "Hello **world**, visit [here](http://x)."; []])
       500)
  = Some (nl [js "---";
              js "summary: " ++ [DQ] ++ js "Helloworld，visithere。" ++ [DQ];
              js "---"; js "# T"; [];
              js "Hello **world**, visit [here](http://x)."; []]).
Proof. vm_compute. reflexivity. Qed.

(** ** Lists and strings *)

(** [Forall Q l] from a hypothesis [H : Forall P l] whose [P] has [Q]
    among its conjuncts. *)
Ltac weaken H :=
  eapply Forall_impl; [|exact H]; let c := fresh "c" in
  let Hc := fresh "Hc" in intros c Hc; apply Hc.

Lemma str_eqb_eq (a b : str) : str_eqb a b = true <-> a = b.
Proof.
  revert b; induction a as [|x a IH]; intros [|y b]; simpl; split; intro H;
    try reflexivity; try discriminate.
  - apply andb_true_iff in H as [H1 H2]. apply N.eqb_eq in H1.
    apply IH in H2. now subst.
  - injection H as -> ->. rewrite N.eqb_refl. now apply IH.
Qed.

Lemma str_eqb_refl (a : str) : str_eqb a a = true.
Proof. now apply str_eqb_eq. Qed.

Lemma dropWhile_incl (p : N -> bool) (s : str) (c : N) :
  In c (dropWhile p s) -> In c s.
Proof.
  induction s as [|x s IH]; simpl; [tauto|].
  destruct (p x); simpl; intuition.
Qed.

Lemma dropWhile_Forall (Q : N -> Prop) (p : N -> bool) (s : str) :
  Forall Q s -> Forall Q (dropWhile p s).
Proof.
  intro H. apply Forall_forall. intros c Hc.
  eapply Forall_forall in H; [exact H|]. eapply dropWhile_incl; eauto.
Qed.

Lemma trim_Forall (Q : N -> Prop) (s : str) : Forall Q s -> Forall Q (trim s).
Proof.
  intro H. unfold trim, trimEnd, trimStart.
  apply Forall_rev, dropWhile_Forall, Forall_rev, dropWhile_Forall, H.
Qed.

Lemma firstn_In {A : Type} (n : nat) (l : list A) (x : A) :
  In x (firstn n l) -> In x l.
Proof.
  revert l; induction n as [|n IH]; intros [|y l]; simpl; try tauto.
  intros [H|H]; auto.
Qed.

Lemma skipn_In {A : Type} (n : nat) (l : list A) (x : A) :
  In x (skipn n l) -> In x l.
Proof.
  revert l; induction n as [|n IH]; intros [|y l]; simpl; try tauto.
  intro H; auto.
Qed.

Lemma firstn_Forall {A : Type} (Q : A -> Prop) (n : nat) (s : list A) :
  Forall Q s -> Forall Q (firstn n s).
Proof.
  intro H. apply Forall_forall. intros c Hc.
  eapply Forall_forall in H; [exact H|]. eapply firstn_In; eauto.
Qed.

Lemma skipn_Forall {A : Type} (Q : A -> Prop) (n : nat) (s : list A) :
  Forall Q s -> Forall Q (skipn n s).
Proof.
  intro H. apply Forall_forall. intros c Hc.
  eapply Forall_forall in H; [exact H|]. eapply skipn_In; eauto.
Qed.

Lemma join_Forall (Q : N -> Prop) (sep : str) (parts : list str) :
  Forall Q sep -> Forall (Forall Q) parts -> Forall Q (join sep parts).
Proof.
  intros Hs Hp. induction Hp as [|p rest Hp Hrest IH]; simpl; [constructor|].
  destruct rest as [|q rest]; [exact Hp|].
  apply Forall_app; split; [exact Hp|]. apply Forall_app; split; [exact Hs|exact IH].
Qed.

Lemma split_runs_from_Forall (Q : N -> Prop) (cls : N -> bool) (s : str) :
  Forall Q s ->
  forall in_sep acc, Forall Q acc ->
  Forall (Forall Q) (split_runs_from cls in_sep acc s).
Proof.
  induction 1 as [|c s Hc Hs IH]; intros in_sep acc Hacc; simpl.
  - constructor; [now apply Forall_rev|constructor].
  - destruct (cls c).
    + destruct in_sep; [now apply IH|].
      constructor; [now apply Forall_rev|]. apply IH. constructor.
    + apply IH. now constructor.
Qed.

Lemma filter_Forall {A : Type} (Q : A -> Prop) (f : A -> bool) (l : list A) :
  Forall Q l -> Forall Q (filter f l).
Proof.
  intro H. apply Forall_forall. intros x Hx. apply filter_In in Hx as [Hx _].
  eapply Forall_forall in H; eauto.
Qed.

Lemma map_Forall {A B : Type} (P : A -> Prop) (Q : B -> Prop) (f : A -> B) (l : list A) :
  (forall x, P x -> Q (f x)) -> Forall P l -> Forall Q (map f l).
Proof. intros Hf H. induction H; simpl; constructor; auto. Qed.

(** ** The scan of a global replacement *)

Section Scan.

Variable m : matcher.

(** Code units of the result satisfy [Q] when the replacement texts
    do and when every code unit that the scan copies does. *)
Lemma scan_Forall (R Q : N -> Prop) :
  (forall prev t n out, m prev t = Some (n, out) -> Forall Q out) ->
  (forall prev c t, R c ->
     match m prev (c :: t) with Some (S _, _) => True | _ => Q c end) ->
  forall s, Forall R s -> forall k prev, Forall Q (scan m k prev s).
Proof.
  intros Hout Hcopy s Hs. induction Hs as [|c s Hc Hs IH]; intros k prev; simpl.
  - destruct k; [|constructor].
    destruct (m prev []) as [[n out]|] eqn:E; [|constructor].
    eapply Hout; eauto.
  - destruct k as [|k]; [|apply IH].
    specialize (Hcopy prev c s Hc).
    destruct (m prev (c :: s)) as [[[|n] out]|] eqn:E.
    + apply Forall_app; split; [eapply Hout; eauto|].
      constructor; [exact Hcopy|apply IH].
    + apply Forall_app; split; [eapply Hout; eauto|apply IH].
    + constructor; [exact Hcopy|apply IH].
Qed.

Lemma replaceAll_preserves (Q : N -> Prop) (s : str) :
  (forall prev t n out, m prev t = Some (n, out) -> Forall Q out) ->
  Forall Q s -> Forall Q (replaceAll m s).
Proof.
  intros Hout Hs. unfold replaceAll. apply scan_Forall with (R := Q); auto.
  intros prev c t Hc. destruct (m prev (c :: t)) as [[[|n] out]|]; auto.
Qed.

(** A replacement by the empty string does not lengthen. *)
Lemma scan_length_le :
  (forall prev t n out, m prev t = Some (n, out) -> out = []) ->
  forall s k prev, (length (scan m k prev s) <= length s)%nat.
Proof.
  intros Hout s. induction s as [|c s IH]; intros k prev; simpl.
  - destruct k; [|simpl; lia].
    destruct (m prev []) as [[n out]|] eqn:E; [|simpl; lia].
    apply Hout in E. subst. simpl. lia.
  - destruct k as [|k]; [|specialize (IH k (Some c)); lia].
    destruct (m prev (c :: s)) as [[[|n] out]|] eqn:E.
    + apply Hout in E. subst. simpl. specialize (IH O (Some c)). lia.
    + apply Hout in E. subst. simpl. specialize (IH n (Some c)). lia.
    + simpl. specialize (IH O (Some c)). lia.
Qed.

End Scan.

Lemma re_run_out (k : nat) (cls : N -> bool) (o : str) prev t n out :
  re_run k cls o prev t = Some (n, out) -> out = o /\ (1 <= n)%nat.
Proof.
  unfold re_run. destruct (_ && _) eqn:E; [|discriminate].
  intro H. injection H as <- <-. apply andb_true_iff in E as [E _].
  apply Nat.leb_le in E. auto.
Qed.

Lemma re_drop_out (cls : N -> bool) prev t n out :
  re_drop cls prev t = Some (n, out) -> out = [] /\ n = 1%nat.
Proof.
  unfold re_drop. destruct t as [|c t]; [discriminate|].
  destruct (cls c); [|discriminate]. intro H. now injection H as <- <-.
Qed.

Lemma re_trailing_out (cls : N -> bool) prev t n out :
  re_trailing cls prev t = Some (n, out) -> out = [].
Proof.
  unfold re_trailing. destruct t as [|c t]; [discriminate|].
  destruct (forallb cls (c :: t)); [|discriminate]. intro H. now injection H as <- <-.
Qed.

(** After [/[cls]+/g] no code unit of the class is left, unless the
    replacement text brings one. *)
Lemma replaceAll_run_clears (Q : N -> Prop) (cls : N -> bool) (o : str) (s : str) :
  Forall Q o -> (forall c, cls c = false -> Q c) ->
  Forall Q (replaceAll (re_run 1 cls o) s).
Proof.
  intros Ho Hc. unfold replaceAll.
  apply scan_Forall with (R := fun _ => True).
  - intros prev t n out H. apply re_run_out in H as [-> _]. exact Ho.
  - intros prev c t _. unfold re_run. simpl.
    destruct (cls c) eqn:E; simpl; auto.
  - apply Forall_forall. auto.
Qed.

Lemma replaceAll_drop_clears (R Q : N -> Prop) (cls : N -> bool) (s : str) :
  (forall c, R c -> cls c = false -> Q c) ->
  Forall R s -> Forall Q (replaceAll (re_drop cls) s).
Proof.
  intros Hc Hs. unfold replaceAll.
  apply scan_Forall with (R := R); auto.
  - intros prev t n out H. apply re_drop_out in H as [-> _]. constructor.
  - intros prev c t HR. unfold re_drop. destruct (cls c) eqn:E; auto.
Qed.

(** ** The canonicaliser: which code units can occur in its result *)

Lemma js_period : js "。" = [12290%N]. Proof. reflexivity. Qed.
Lemma js_comma : js "，" = [65292%N]. Proof. reflexivity. Qed.
Lemma js_blank : js " " = [32%N]. Proof. reflexivity. Qed.

(** Everything behind the removal of symbols only moves code units
    around or inserts a comma, a blank or the final mark. *)
Lemma toDeclarativeSentence_from_core (Q : N -> Prop) (text : str) (maxLen : Z) :
  Q 65292%N -> Q 32%N -> Q 12290%N ->
  Forall Q (dropSymbols (canonPunct text)) ->
  Forall Q (toDeclarativeSentence text maxLen).
Proof.
  intros Hcomma Hblank Hperiod Hcore. unfold toDeclarativeSentence.
  assert (Hm : Forall Q (mergeClauses (dropSymbols (canonPunct text)))).
  { unfold mergeClauses. apply trim_Forall.
    apply replaceAll_preserves.
    { intros prev t n out H. apply re_run_out in H as [-> _].
      rewrite js_comma. now constructor. }
    apply replaceAll_preserves.
    { intros prev t n out H. apply re_run_out in H as [-> _].
      rewrite js_blank. now constructor. }
    apply join_Forall; [rewrite js_comma; now constructor|].
    apply filter_Forall.
    apply map_Forall with (P := Forall Q); [intros x Hx; now apply trim_Forall|].
    apply split_runs_from_Forall; [exact Hcore|constructor]. }
  set (merged := mergeClauses _) in *.
  assert (Hcut : forall x, Forall Q x ->
            Forall Q (replaceAll (re_trailing (one_of (js "，、：；"))) x)).
  { intros x Hx. apply replaceAll_preserves; [|exact Hx].
    intros prev t n out H. apply re_trailing_out in H as ->. constructor. }
  destruct (Z.of_nat (length merged) >? Z.max 1 (maxLen - 1))%Z.
  - match goal with |- context [endsWith ?a ?b] => destruct (endsWith a b) end.
    + apply Hcut. now apply firstn_Forall.
    + apply Forall_app; split; [apply Hcut; now apply firstn_Forall|].
      rewrite js_period. now constructor.
  - match goal with |- context [endsWith ?a ?b] => destruct (endsWith a b) end.
    + now apply Hcut.
    + apply Forall_app; split; [now apply Hcut|].
      rewrite js_period. now constructor.
Qed.

Lemma canonPunct_preserves (Q : N -> Prop) (s : str) :
  Q 12290%N -> Q 65281%N -> Q 65292%N -> Q 65306%N -> Q 65307%N ->
  Forall Q s -> Forall Q (canonPunct s).
Proof.
  intros H1 H2 H3 H4 H5 Hs. unfold canonPunct.
  repeat (apply replaceAll_preserves;
          [intros prev t n out H; apply re_run_out in H as [-> _];
           repeat constructor; assumption|]).
  exact Hs.
Qed.

Lemma dropSymbols_preserves (Q : N -> Prop) (s : str) :
  Forall Q s -> Forall Q (dropSymbols s).
Proof.
  intro Hs. unfold dropSymbols.
  repeat (apply replaceAll_preserves;
          [intros prev t n out H; apply re_drop_out in H as [-> _]; constructor|]).
  exact Hs.
Qed.

(** A code unit of the result comes from the input or is one of the
    six marks that the canonicaliser writes. *)
Lemma toDeclarativeSentence_preserves (Q : N -> Prop) (text : str) (maxLen : Z) :
  Q 12290%N -> Q 65281%N -> Q 65292%N -> Q 65306%N -> Q 65307%N -> Q 32%N ->
  Forall Q text -> Forall Q (toDeclarativeSentence text maxLen).
Proof.
  intros H1 H2 H3 H4 H5 H6 Hs.
  apply toDeclarativeSentence_from_core; auto.
  apply dropSymbols_preserves, canonPunct_preserves; auto.
Qed.

Lemma canonPunct_no_colon (s : str) : Forall (fun c => c <> 58%N) (canonPunct s).
Proof.
  unfold canonPunct.
  apply replaceAll_preserves.
  { intros prev t n out H. apply re_run_out in H as [-> _].
    repeat constructor. discriminate. }
  apply replaceAll_run_clears.
  - repeat constructor. discriminate.
  - intros c Hc ->. discriminate Hc.
Qed.

Lemma dropSymbols_survives (s : str) :
  Forall (fun c => c <> 58%N) s -> Forall survives (dropSymbols s).
Proof.
  intro Hs. unfold dropSymbols.
  apply replaceAll_drop_clears
    with (R := fun c => c <> 58%N /\ c <> DQ /\ c <> 96%N).
  { intros c (H1 & H2 & H3) Hc. repeat split; auto. intros ->. discriminate Hc. }
  apply replaceAll_preserves.
  { intros prev t n out H. apply re_drop_out in H as [-> _]. constructor. }
  apply replaceAll_drop_clears with (R := fun c => c <> 58%N); [|exact Hs].
  intros c H1 Hc. repeat split; auto; intros ->; discriminate Hc.
Qed.

Lemma toDeclarativeSentence_survives (text : str) (maxLen : Z) :
  Forall survives (toDeclarativeSentence text maxLen).
Proof.
  apply toDeclarativeSentence_from_core.
  - repeat split; discriminate.
  - repeat split; discriminate.
  - repeat split; discriminate.
  - apply dropSymbols_survives, canonPunct_no_colon.
Qed.

(** ** Length of the canonical sentence *)



Lemma replaceAll_trailing_length (cls : N -> bool) (s : str) :
  (length (replaceAll (re_trailing cls) s) <= length s)%nat.
Proof.
  unfold replaceAll. apply scan_length_le.
  intros prev t n out H. now apply re_trailing_out in H.
Qed.



(** ** Splitting into lines and joining *)

Lemma split_char_nonempty (c : N) (s : str) : split_char c s <> [].
Proof.
  destruct s as [|x s]; simpl; [discriminate|].
  destruct (x =? c)%N; [discriminate|]. destruct (split_char c s); discriminate.
Qed.

Lemma split_char_app (c : N) (a b : str) :
  split_char c (a ++ c :: b) = split_char c a ++ split_char c b.
Proof.
  induction a as [|x a IH]; simpl.
  - now rewrite N.eqb_refl.
  - destruct (x =? c)%N; [now rewrite IH|]. rewrite IH.
    pose proof (split_char_nonempty c a) as Hne.
    destruct (split_char c a) as [|l ls]; [contradiction|reflexivity].
Qed.

Lemma split_char_absent (c : N) (s : str) : ~ In c s -> split_char c s = [s].
Proof.
  induction s as [|x s IH]; simpl; intro H; [reflexivity|].
  destruct (x =? c)%N eqn:E.
  - apply N.eqb_eq in E. tauto.
  - rewrite IH by tauto. reflexivity.
Qed.

Lemma split_char_pieces (Q : N -> Prop) (c : N) (s : str) :
  Forall Q s -> Forall (fun l => Forall Q l /\ ~ In c l) (split_char c s).
Proof.
  induction 1 as [|x s Hx Hs IH]; simpl.
  - repeat constructor. tauto.
  - destruct (x =? c)%N eqn:E.
    + constructor; [split; [constructor|tauto]|exact IH].
    + apply N.eqb_neq in E.
      destruct (split_char c s) as [|l ls]; [repeat constructor; simpl; intuition|].
      inversion IH as [|? ? [H1 H2] H3]; subst.
      constructor; [|exact H3]. split; [now constructor|]. simpl. intuition.
Qed.

Lemma join_cons (sep p : str) (rest : list str) :
  rest <> [] -> join sep (p :: rest) = p ++ sep ++ join sep rest.
Proof. destruct rest; [contradiction|reflexivity]. Qed.

Lemma join_snoc (sep : str) (parts : list str) (x : str) :
  parts <> [] -> join sep (parts ++ [x]) = join sep parts ++ sep ++ x.
Proof.
  induction parts as [|p rest IH]; [contradiction|]. intros _.
  destruct rest as [|q rest]; [reflexivity|].
  change ((p :: q :: rest) ++ [x]) with (p :: ((q :: rest) ++ [x])).
  rewrite join_cons by (simpl; discriminate).
  rewrite IH by discriminate.
  rewrite (join_cons sep p (q :: rest)) by discriminate.
  now rewrite <- !app_assoc.
Qed.

Lemma split_join (c : N) (parts : list str) :
  parts <> [] ->
  split_char c (join [c] parts) = flat_map (split_char c) parts.
Proof.
  induction parts as [|p rest IH]; [contradiction|]. intros _.
  destruct rest as [|q rest]; [simpl; now rewrite app_nil_r|].
  rewrite join_cons by discriminate.
  change ([c] ++ join [c] (q :: rest)) with (c :: join [c] (q :: rest)).
  rewrite split_char_app, IH by discriminate. reflexivity.
Qed.

Lemma flat_map_single (c : N) (parts : list str) :
  Forall (fun l => ~ In c l) parts -> flat_map (split_char c) parts = parts.
Proof.
  induction 1 as [|p rest Hp Hrest IH]; simpl; [reflexivity|].
  now rewrite split_char_absent, IH.
Qed.

Lemma endsWith_last (c d : N) (y : str) :
  endsWith [c] (y ++ [d]) = (d =? c)%N.
Proof.
  unfold endsWith. rewrite length_app. simpl length.
  replace (length y + 1 - 1)%nat with (length y + 0)%nat by lia.
  rewrite skipn_app, skipn_all2 by lia.
  replace (length y + 0 - length y)%nat with O by lia.
  replace (1 <=? length y + 1)%nat with true by (symmetry; apply Nat.leb_le; lia).
  simpl. now rewrite andb_true_r.
Qed.

(** ** The lines in front of the closing delimiter *)

Lemma is_closing_open (l : str) (i : Z) : openLine l = true -> is_closing l i = false.
Proof.
  unfold openLine, is_closing. intro H. apply negb_true_iff in H.
  rewrite H. apply andb_false_r.
Qed.

Lemma is_closing_closed (l : str) (i : Z) :
  (1 <= i)%Z -> openLine l = false -> is_closing l i = true.
Proof.
  unfold openLine, is_closing. intros Hi H. apply negb_false_iff in H.
  rewrite H, andb_true_r. apply Z.ltb_lt. lia.
Qed.

Lemma findIndex_from_open (rest : list str) (i : Z) :
  (1 <= i)%Z ->
  let e := findIndex_from is_closing i rest in
  (e = (-1)%Z /\ take_open rest = rest)
  \/ ((i <= e)%Z /\ firstn (Z.to_nat (e - i)) rest = take_open rest).
Proof.
  revert i. induction rest as [|l rest IH]; intros i Hi; simpl.
  - now left.
  - destruct (openLine l) eqn:E.
    + rewrite is_closing_open by exact E.
      destruct (IH (i + 1)%Z ltac:(lia)) as [[H1 H2]|[H1 H2]].
      * left. simpl in H1. rewrite H1, H2. auto.
      * right. simpl in H1, H2. split; [lia|].
        replace (Z.to_nat (findIndex_from is_closing (i + 1) rest - i))
          with (S (Z.to_nat (findIndex_from is_closing (i + 1) rest - (i + 1)))) by lia.
        simpl. now rewrite H2.
    + rewrite is_closing_closed by (auto; lia). right. split; [lia|].
      now replace (i - i)%Z with 0%Z by lia.
Qed.

(** The slice that the script takes between the delimiters. *)
Lemma slice_take_open (l0 : str) (rest : list str) :
  let lines := l0 :: rest in
  let endIdx := findIndex is_closing lines in
  slice 1 (if (endIdx =? -1)%Z then Z.of_nat (length lines) else endIdx) lines
  = take_open rest.
Proof.
  cbv zeta. unfold findIndex, slice. cbn [findIndex_from].
  change (is_closing l0 0) with false. cbv iota. change (0 + 1)%Z with 1%Z.
  change (skipn (Z.to_nat 1) (l0 :: rest)) with rest.
  destruct (findIndex_from_open rest 1 ltac:(lia)) as [[H1 H2]|[H1 H2]];
    cbv zeta in H1, H2.
  - rewrite H1. change (-1 =? -1)%Z with true. cbv iota.
    rewrite H2. change (length (l0 :: rest)) with (S (length rest)).
    replace (Z.to_nat (Z.of_nat (S (length rest)) - 1)) with (length rest) by lia.
    apply firstn_all.
  - destruct (findIndex_from is_closing 1 rest =? -1)%Z eqn:E.
    + apply Z.eqb_eq in E. lia.
    + exact H2.
Qed.

Lemma take_open_Forall (lines : list str) :
  Forall (fun l => openLine l = true) (take_open lines).
Proof.
  induction lines as [|l rest IH]; simpl; [constructor|].
  destruct (openLine l) eqn:E; constructor; auto.
Qed.

Lemma take_open_incl (lines : list str) (l : str) :
  In l (take_open lines) -> In l lines.
Proof.
  induction lines as [|x rest IH]; simpl; [tauto|].
  destruct (openLine x); simpl; intuition.
Qed.

Lemma take_open_app (A : list str) (x : str) (rest : list str) :
  Forall (fun l => openLine l = true) A -> openLine x = false ->
  take_open (A ++ x :: rest) = A.
Proof.
  intros HA Hx. induction HA as [|a A Ha HA IH]; simpl.
  - now rewrite Hx.
  - now rewrite Ha, IH.
Qed.

(** ** The summary line and the escaping *)

Lemma dropWhile_snoc (p : N -> bool) (l : str) (c : N) :
  p c = false -> dropWhile p (l ++ [c]) = dropWhile p l ++ [c].
Proof.
  intro Hc. induction l as [|x l IH]; simpl; [now rewrite Hc|].
  destruct (p x); [exact IH|reflexivity].
Qed.

Lemma trim_head (c : N) (t : str) :
  is_space c = false -> exists r, trim (c :: t) = c :: r.
Proof.
  intro Hc. unfold trim, trimStart, trimEnd. simpl dropWhile at 2. rewrite Hc.
  simpl rev. rewrite dropWhile_snoc by exact Hc. rewrite rev_app_distr.
  simpl. eauto.
Qed.

Lemma scan_re_quote (s : str) (prev : option N) :
  scan re_quote 0 prev s = flat_map escapeUnit s.
Proof.
  revert prev. induction s as [|c s IH]; intro prev; [reflexivity|].
  simpl. unfold escapeUnit. destruct (c =? DQ)%N; simpl; now rewrite IH.
Qed.

Lemma escapeYaml_flat_map (s : str) :
  escapeYaml s = [DQ] ++ flat_map escapeUnit s ++ [DQ].
Proof. unfold escapeYaml, replaceAll. now rewrite scan_re_quote. Qed.

Lemma escape_plain (s : str) : ~ In DQ s -> flat_map escapeUnit s = s.
Proof.
  induction s as [|c s IH]; simpl; intro H; [reflexivity|].
  unfold escapeUnit at 1. destruct (c =? DQ)%N eqn:E.
  - apply N.eqb_eq in E. subst. tauto.
  - simpl. rewrite IH by tauto. reflexivity.
Qed.

Lemma escape_quotesEscaped (s : str) : quotesEscaped (flat_map escapeUnit s).
Proof.
  induction s as [|c s IH]; intros a b H; simpl in H.
  - destruct a; discriminate H.
  - unfold escapeUnit at 1 in H. destruct (c =? DQ)%N eqn:E; simpl in H.
    + destruct a as [|x [|y a]]; simpl in H.
      * discriminate H.
      * injection H as <- _. now exists [].
      * injection H as <- <- H. destruct (IH a b H) as [a' ->].
        now exists (92%N :: DQ :: a').
    + destruct a as [|x a]; simpl in H.
      * injection H as -> _. discriminate E.
      * injection H as <- H. destruct (IH a b H) as [a' ->].
        now exists (c :: a').
Qed.

Lemma escape_Forall (Q : N -> Prop) (s : str) :
  Q 92%N -> Q DQ -> Forall Q s -> Forall Q (flat_map escapeUnit s).
Proof.
  intros H1 H2 Hs. induction Hs as [|c s Hc Hs IH]; simpl; [constructor|].
  apply Forall_app; split; [|exact IH].
  unfold escapeUnit. destruct (c =? DQ)%N; repeat constructor; auto.
Qed.

Lemma summaryLine_eq (s : str) :
  summaryLine s = js "summary: " ++ [DQ] ++ flat_map escapeUnit s ++ [DQ].
Proof. unfold summaryLine. now rewrite escapeYaml_flat_map. Qed.

Lemma summaryLine_key (s : str) : re_summary_key (summaryLine s) = true.
Proof. reflexivity. Qed.

Lemma summaryLine_dropped (s : str) : keepLine (summaryLine s) = false.
Proof. unfold keepLine. now rewrite summaryLine_key. Qed.

Lemma summaryLine_open (s : str) : openLine (summaryLine s) = true.
Proof.
  unfold openLine.
  destruct (trim_head 115 (skipn 1 (summaryLine s)) eq_refl) as [r Hr].
  change (115%N :: skipn 1 (summaryLine s)) with (summaryLine s) in Hr.
  now rewrite Hr.
Qed.

Lemma summaryLine_Forall (Q : N -> Prop) (s : str) :
  Forall Q (js "summary: ") -> Q 92%N -> Q DQ -> Forall Q s ->
  Forall Q (summaryLine s).
Proof.
  intros H0 H1 H2 Hs. rewrite summaryLine_eq.
  apply Forall_app; split; [exact H0|].
  apply Forall_app; split; [now repeat constructor|].
  apply Forall_app; split; [now apply escape_Forall|now repeat constructor].
Qed.

Lemma Forall_not_In (c : N) (s : str) : Forall (fun x => x <> c) s <-> ~ In c s.
Proof.
  rewrite Forall_forall. split.
  - intros H Hc. now apply (H c Hc).
  - intros H x Hx ->. tauto.
Qed.

Lemma summaryLine_one_line (s : str) : ~ In LF s -> ~ In LF (summaryLine s).
Proof.
  intro H. apply Forall_not_In. apply summaryLine_Forall.
  - repeat constructor; discriminate.
  - discriminate.
  - discriminate.
  - now apply Forall_not_In.
Qed.

(** ** The block that the upsert returns *)

Lemma nl_closed (parts : list str) :
  parts <> [] -> nl (parts ++ [js "---"; []]) = nl (parts ++ [js "---"]) ++ [LF].
Proof.
  intro H. unfold nl.
  change (parts ++ [js "---"; []]) with (parts ++ [js "---"] ++ [[]]).
  rewrite app_assoc, join_snoc by (destruct parts; discriminate).
  now rewrite app_nil_r.
Qed.

Lemma nl_open_end (parts : list str) :
  parts <> [] -> endsWith [LF] (nl (parts ++ [js "---"])) = false.
Proof.
  intro H. unfold nl. rewrite join_snoc by exact H.
  change (js "---") with ([45; 45]%N ++ [45%N]). rewrite !app_assoc.
  now rewrite endsWith_last.
Qed.

Lemma upsert_rebuilt (body : list str) (s : str) :
  (let fmStr := join [LF] ([js "---"] ++ body ++ [summaryLine s; js "---"]) in
   if endsWith [LF] fmStr then fmStr else fmStr ++ [LF])
  = nl (js "---" :: body ++ [summaryLine s; js "---"; []]).
Proof.
  cbv zeta.
  assert (E : [js "---"] ++ body ++ [summaryLine s; js "---"]
              = (js "---" :: body ++ [summaryLine s]) ++ [js "---"]).
  { simpl. now rewrite <- app_assoc. }
  rewrite E. fold (nl ((js "---" :: body ++ [summaryLine s]) ++ [js "---"])).
  rewrite nl_open_end by discriminate.
  rewrite <- nl_closed by discriminate.
  f_equal. simpl. now rewrite <- app_assoc.
Qed.

(** The shape of every block that comes out of the upsert. *)
Lemma upsert_shape (fm s : str) :
  exists body,
    Forall keptLine body
    /\ upsertSummaryInFrontmatter fm s
       = nl (js "---" :: body ++ [summaryLine s; js "---"; []]).
Proof.
  destruct fm as [|c fm].
  - exists []. split; [constructor|]. simpl. unfold nl. simpl.
    now rewrite <- !app_assoc.
  - unfold upsertSummaryInFrontmatter.
    pose proof (split_char_nonempty LF (c :: fm)) as Hne.
    assert (Hpieces := split_char_pieces (fun _ => True) LF (c :: fm)
                         ltac:(apply Forall_forall; auto)).
    destruct (split_char LF (c :: fm)) as [|l0 rest]; [contradiction|].
    cbv zeta. rewrite slice_take_open.
    exists (filter keepLine (take_open rest)). split.
    + apply Forall_forall. intros l Hl. apply filter_In in Hl as [Hl Hk].
      repeat split; [exact Hk| |].
      * apply take_open_incl in Hl.
        assert (Hin : In l (l0 :: rest)) by now right.
        eapply Forall_forall in Hpieces; [|exact Hin]. tauto.
      * pose proof (take_open_Forall rest) as Ho.
        eapply Forall_forall in Ho; eauto.
    + apply upsert_rebuilt.
Qed.

Lemma filter_all {A : Type} (f : A -> bool) (l : list A) :
  Forall (fun x => f x = true) l -> filter f l = l.
Proof.
  induction 1 as [|x l Hx Hl IH]; simpl; [reflexivity|]. now rewrite Hx, IH.
Qed.

Lemma filter_none {A : Type} (f : A -> bool) (l : list A) :
  Forall (fun x => f x = false) l -> filter f l = [].
Proof.
  induction 1 as [|x l Hx Hl IH]; simpl; [reflexivity|]. now rewrite Hx, IH.
Qed.

(** A block of that shape is a fixed point of the upsert, as long as
    the summary is one line. *)
Lemma upsert_fixed (body : list str) (s : str) :
  Forall keptLine body -> ~ In LF s ->
  upsertSummaryInFrontmatter
    (nl (js "---" :: body ++ [summaryLine s; js "---"; []])) s
  = nl (js "---" :: body ++ [summaryLine s; js "---"; []]).
Proof.
  intros Hbody Hs.
  set (rest := body ++ [summaryLine s; js "---"; []]).
  assert (Hrest : rest <> []) by (unfold rest; destruct body; discriminate).
  assert (Hlines : split_char LF (nl (js "---" :: rest)) = js "---" :: rest).
  { unfold nl. rewrite split_join by discriminate. apply flat_map_single.
    constructor; [vm_compute; intuition discriminate|].
    unfold rest. apply Forall_app; split.
    - apply Forall_forall. intros l Hl.
      eapply Forall_forall in Hbody; [|exact Hl]. apply Hbody.
    - repeat constructor; [now apply summaryLine_one_line| |tauto].
      vm_compute; intuition discriminate. }
  destruct (nl (js "---" :: rest)) as [|c fm] eqn:E.
  { unfold nl in E. rewrite join_cons in E by exact Hrest. discriminate E. }
  unfold upsertSummaryInFrontmatter. rewrite Hlines. cbv zeta.
  rewrite slice_take_open.
  assert (Htake : take_open rest = body ++ [summaryLine s]).
  { unfold rest.
    change (body ++ [summaryLine s; js "---"; []])
      with (body ++ [summaryLine s] ++ js "---" :: [[]]).
    rewrite app_assoc. apply take_open_app; [|reflexivity].
    apply Forall_app; split.
    - apply Forall_forall. intros l Hl.
      eapply Forall_forall in Hbody; [|exact Hl]. apply Hbody.
    - repeat constructor. apply summaryLine_open. }
  rewrite Htake, filter_app, filter_all.
  - change (filter keepLine [summaryLine s])
      with (if keepLine (summaryLine s) then [summaryLine s] else []).
    rewrite summaryLine_dropped, app_nil_r.
    pose proof (upsert_rebuilt body s) as R. cbv zeta in R. rewrite R.
    exact E.
  - apply Forall_forall. intros l Hl.
    eapply Forall_forall in Hbody; [|exact Hl]. apply Hbody.
Qed.

(** ** C2 and C3: the upsert *)

Lemma oneLine_spec (s : str) : oneLine s = true <-> ~ In LF s.
Proof.
  unfold oneLine. rewrite forallb_forall. split.
  - intros H Hin. apply H in Hin. unfold is_not in Hin.
    now rewrite N.eqb_refl in Hin.
  - intros H x Hx. unfold is_not. apply negb_true_iff, N.eqb_neq.
    intros ->. contradiction.
Qed.

(** C3, as stated, fails for a summary of several lines: the second
    line of the value reads as a YAML line on the next pass and is kept
    in front of the new summary.  This happens for a plain two-line
    text and for a result of the canonicaliser as well. *)
Lemma upsert_not_idempotent :
  ~ idempotent [] (nl [js "a"; js "b: c"])
  /\ ~ idempotent sampleBlock
         (toDeclarativeSentence (nl [js "a"; js "-" ++ [9%N] ++ js "b"]) SUMMARY_MAX_LEN).
Proof. split; intro H; vm_compute in H; discriminate H. Qed.

(** C3, amended: for every front-matter block and every summary
    without a line feed, a second upsert of the same summary returns
    the block of the first one unchanged. *)
Theorem upsert_idempotent (fm s : str) : oneLine s = true -> idempotent fm s.
Proof.
  intro H. unfold idempotent.
  assert (Hs : ~ In LF s).
  { unfold oneLine in H. rewrite forallb_forall in H. intro Hin.
    apply H in Hin. unfold is_not in Hin. now rewrite N.eqb_refl in Hin. }
  destruct (upsert_shape fm s) as (body & Hbody & ->).
  now apply upsert_fixed.
Qed.

(** The theorem at a block with an old summary and a stray line. *)
Lemma upsert_idempotent_witness : idempotent sampleBlock (js "One sentence。").
Proof. apply upsert_idempotent. reflexivity. Defined.

(** The lines of the block that the upsert returns, for a summary
    without a line feed. *)
Lemma upsert_lines (fm s : str) :
  ~ In LF s ->
  exists body,
    Forall keptLine body
    /\ split_char LF (upsertSummaryInFrontmatter fm s)
       = js "---" :: body ++ [summaryLine s; js "---"; []].
Proof.
  intro Hs. destruct (upsert_shape fm s) as (body & Hbody & Hout).
  exists body. split; [exact Hbody|].
  rewrite Hout. unfold nl. rewrite split_join by discriminate.
  apply flat_map_single.
  constructor; [vm_compute; intuition discriminate|].
  apply Forall_app; split.
  - apply Forall_forall. intros l Hl.
    eapply Forall_forall in Hbody; [|exact Hl]. apply Hbody.
  - repeat constructor; [now apply summaryLine_one_line| |tauto].
    vm_compute; intuition discriminate.
Qed.

Lemma third_from_end {A : Type} (l body : list A) (h x y z : A) :
  l = h :: body ++ [x; y; z] -> nth_error (rev l) 2 = Some x.
Proof. intros ->. cbn [rev]. rewrite rev_app_distr. reflexivity. Qed.

(** C2: for every block, the empty one included, and every summary
    without a line feed,
    [upsertSummaryInFrontmatter] returns a block with exactly one
    [summary] key line, which holds the whole summary between double
    quotes, every double quote of it escaped, and stands directly in
    front of the closing delimiter, behind which there is one line
    feed and nothing else.  The pipeline however produces summaries of
    several lines, against the documentation of the function (the
    summary is the last line between the delimiters; its argument is
    one sentence) and of [escapeYaml] (a text of one line): for the
    document [titledDocument] it computes a summary of two lines, the
    [summary] key line of the block holds the opening quote and the
    first line only, the rest stands on a line of its own between it
    and the closing delimiter, and the block is not of the stated
    form. *)
Theorem upsert_summary_over_lines :
  (forall fm s : str, oneLine s = true -> summaryLineLast fm s)
  /\ (let fm := fst (splitFrontmatterAndBody titledDocument) in
      let s := summaryFor (localRun always []) titledDocument 8000 in
      fm = nl [js "---"; js "title: a"; js "b: c"; js "---"]
      /\ s = nl [js "a"; js "b：c。"]
      /\ split_char LF (upsertSummaryInFrontmatter fm s)
         = [js "---"; js "title: a"; js "b: c";
            js "summary: " ++ [DQ] ++ js "a"; js "b：c。" ++ [DQ];
            js "---"; []]
      /\ ~ summaryLineLast fm s).
Proof.
  split.
  - intros fm s Hs. apply oneLine_spec in Hs.
    destruct (upsert_lines fm s Hs) as (body & Hbody & Hlines).
    exists body, (flat_map escapeUnit s).
    rewrite <- summaryLine_eq.
    split; [exact Hlines|]. split; [|split; [reflexivity|split]].
    + eapply Forall_impl; [|exact Hbody]. intros l (Hk & _ & Ho).
      split; [|exact Ho]. unfold keepLine in Hk.
      destruct (re_summary_key l); [discriminate|reflexivity].
    + apply escape_quotesEscaped.
    + unfold summaryKeyLines. rewrite Hlines.
      change (js "---" :: body ++ [summaryLine s; js "---"; []])
        with ([js "---"] ++ body ++ [summaryLine s; js "---"; []]).
      rewrite !filter_app, !length_app.
      rewrite (filter_none re_summary_key body).
      * cbn [filter]. rewrite summaryLine_key. reflexivity.
      * eapply Forall_impl; [|exact Hbody]. intros l (Hk & _). unfold keepLine in Hk.
        destruct (re_summary_key l); [discriminate|reflexivity].
  - cbv zeta.
    assert (Efm : fst (splitFrontmatterAndBody titledDocument)
                  = nl [js "---"; js "title: a"; js "b: c"; js "---"])
      by (vm_compute; reflexivity).
    assert (Es : summaryFor (localRun always []) titledDocument 8000
                 = nl [js "a"; js "b：c。"])
      by (vm_compute; reflexivity).
    rewrite Efm, Es.
    split; [reflexivity|]. split; [reflexivity|].
    split; [vm_compute; reflexivity|].
    intros (body & e & H & _ & -> & _).
    apply third_from_end in H. vm_compute in H. discriminate H.
Qed.

(** ** C4: splitting a document *)

Lemma dropWhile_prefix (p : N -> bool) (s : str) :
  exists lead, s = lead ++ dropWhile p s /\ forallb p lead = true.
Proof.
  induction s as [|c s (lead & IH1 & IH2)]; [now exists []|]. simpl.
  destruct (p c) eqn:E.
  - exists (c :: lead). simpl. rewrite E, IH2. split; [now f_equal|reflexivity].
  - now exists [].
Qed.



Lemma fm_close_here_spec (t : str) :
  fm_close_here t = true ->
  fm_lookahead (skipn 4 t) = true /\ (4 <= length t)%nat.
Proof.
  destruct t as [|c t]; [discriminate|]. unfold fm_close_here. intro H.
  apply andb_true_iff in H as [H H2]. apply andb_true_iff in H as [_ H1].
  split; [exact H2|].
  destruct t as [|a [|b [|d t]]]; simpl in H1;
    rewrite ?andb_false_r in H1; try discriminate H1. simpl. lia.
Qed.

Lemma fm_close_len_spec (r : str) (n : nat) :
  fm_close_len r = Some n ->
  fm_lookahead (skipn n r) = true /\ (n <= length r)%nat.
Proof.
  destruct r as [|c r]; [discriminate|]. unfold fm_close_len.
  destruct (c =? CR)%N.
  - destruct (fm_close_here r) eqn:E; [|discriminate].
    intro H. injection H as <-. apply fm_close_here_spec in E as [E1 E2].
    split; [exact E1|simpl; lia].
  - destruct (fm_close_here (c :: r)) eqn:E; [|discriminate].
    intro H. injection H as <-. now apply fm_close_here_spec in E.
Qed.

Lemma fm_rest_len_eq (r : str) :
  fm_rest_len r
  = match fm_close_len r with
    | Some n => Some n
    | None => match r with
              | [] => None
              | _ :: r' => option_map S (fm_rest_len r')
              end
    end.
Proof. destruct r; reflexivity. Qed.

Lemma fm_rest_len_spec (r : str) (k : nat) :
  fm_rest_len r = Some k ->
  fm_lookahead (skipn k r) = true /\ (k <= length r)%nat.
Proof.
  revert k. induction r as [|c r IH]; intros k; rewrite fm_rest_len_eq.
  - discriminate.
  - destruct (fm_close_len (c :: r)) as [n|] eqn:E.
    + intro H. injection H as <-. now apply fm_close_len_spec.
    + destruct (fm_rest_len r) as [k'|]; [|discriminate].
      intro H. injection H as <-. destruct (IH k' eq_refl) as [H1 H2].
      split; [exact H1|simpl; lia].
Qed.

Lemma lookahead_no_block (t : str) :
  fm_lookahead t = true -> exec_frontmatter t = None.
Proof.
  destruct t as [|c t]; [reflexivity|]. intro H.
  unfold exec_frontmatter.
  change (startsWith (js "---") (c :: t))
    with ((45 =? c)%N && startsWith [45; 45]%N t).
  destruct (45 =? c)%N eqn:E; [|reflexivity].
  apply N.eqb_eq in E. subst c. discriminate H.
Qed.

(** What is left behind a front-matter block never starts with
    another one, so the merge of two adjacent blocks is not reached. *)
Lemma exec_frontmatter_spec (s : str) (n : nat) :
  exec_frontmatter s = Some n ->
  fm_lookahead (skipn n s) = true /\ (n <= length s)%nat.
Proof.
  unfold exec_frontmatter.
  destruct (startsWith (js "---") s); [|discriminate].
  destruct (skipn 3 s) as [|c r] eqn:E; [discriminate|].
  assert (Hlen : (length s - 3 = S (length r))%nat).
  { rewrite <- length_skipn, E. reflexivity. }
  destruct (c =? LF)%N.
  - destruct (fm_rest_len r) as [k|] eqn:Ek; [|discriminate].
    intro H. injection H as <-. apply fm_rest_len_spec in Ek as [H1 H2].
    split; [|lia].
    replace (S (S (S (S k)))) with (k + (1 + 3))%nat by lia.
    now rewrite <- skipn_skipn, <- (skipn_skipn 1 3), E.
  - destruct ((c =? CR)%N && head_is LF r) eqn:Ec; [|discriminate].
    apply andb_true_iff in Ec as [_ Ec].
    destruct r as [|x r]; [discriminate Ec|]. simpl tl.
    destruct (fm_rest_len r) as [k|] eqn:Ek; [|discriminate].
    intro H. injection H as <-. apply fm_rest_len_spec in Ek as [H1 H2].
    split; [|simpl in Hlen; lia].
    replace (S (S (S (S (S k))))) with (k + (2 + 3))%nat by lia.
    now rewrite <- skipn_skipn, <- (skipn_skipn 2 3), E.
Qed.

(** What is left behind a front-matter block never starts with
    another one, so the merge of two adjacent blocks is not reached. *)
Lemma exec_frontmatter_tail (s : str) (n : nat) :
  exec_frontmatter s = Some n -> exec_frontmatter (skipn n s) = None.
Proof.
  intro H. apply exec_frontmatter_spec in H as [H _].
  now apply lookahead_no_block.
Qed.

Lemma dropWhile_head (p : N -> bool) (c : N) (l : str) :
  (forall x, (x =? c)%N = true -> p x = true) ->
  head_is c (dropWhile p l) = false.
Proof.
  intro Hp. induction l as [|x l IH]; simpl; [reflexivity|].
  destruct (p x) eqn:Ex; [exact IH|]. simpl.
  destruct (x =? c)%N eqn:Ey; [|reflexivity].
  apply Hp in Ey. congruence.
Qed.



(** ** C5: the code-likeness gate *)

Lemma startsWith_app (p s : str) : startsWith p (p ++ s) = true.
Proof. induction p as [|x p IH]; simpl; [reflexivity|]. now rewrite N.eqb_refl. Qed.

Lemma indexOf_eq (pat s : str) :
  indexOf pat s
  = if startsWith pat s then Some O
    else match s with
         | [] => None
         | _ :: s' => option_map S (indexOf pat s')
         end.
Proof. destruct s; reflexivity. Qed.

Lemma indexOf_app (pat a b : str) : indexOf pat (a ++ pat ++ b) <> None.
Proof.
  induction a as [|c a IH]; rewrite indexOf_eq.
  - simpl app. now rewrite startsWith_app.
  - destruct (startsWith pat ((c :: a) ++ pat ++ b)); [discriminate|].
    change ((c :: a) ++ pat ++ b) with (c :: (a ++ pat ++ b)). cbv iota.
    destruct (indexOf pat (a ++ pat ++ b)) as [n|]; [|contradiction].
    simpl. discriminate.
Qed.

Lemma test_from_eq (m : matcher) (prev : option N) (s : str) :
  test_from m prev s
  = match m prev s with
    | Some _ => true
    | None => match s with
              | [] => false
              | c :: s' => test_from m (Some c) s'
              end
    end.
Proof. destruct s; reflexivity. Qed.

(** The expression is found when it matches behind some prefix. *)
Lemma test_from_app (m : matcher) (pre s : str) :
  (forall prev, m prev s <> None) ->
  forall prev, test_from m prev (pre ++ s) = true.
Proof.
  intro Hm. induction pre as [|c pre IH]; intro prev; rewrite test_from_eq.
  - simpl app. specialize (Hm prev). destruct (m prev s); [reflexivity|contradiction].
  - destruct (m prev ((c :: pre) ++ s)); [reflexivity|].
    change ((c :: pre) ++ s) with (c :: (pre ++ s)). cbv iota. apply IH.
Qed.

(** An expression that starts with the code unit [c] is not found in a
    text without [c]. *)
Lemma test_from_absent (m : matcher) (c : N) :
  (forall prev t, head_is c t = false -> m prev t = None) ->
  forall s prev, ~ In c s -> test_from m prev s = false.
Proof.
  intro Hm. induction s as [|x s IH]; intros prev Hs; rewrite test_from_eq.
  - now rewrite Hm.
  - rewrite Hm.
    + apply IH. simpl in Hs. tauto.
    + simpl. apply N.eqb_neq. simpl in Hs. intros ->. tauto.
Qed.

Lemma re_fenced_head prev t : head_is 96 t = false -> re_fenced prev t = None.
Proof.
  unfold re_fenced. destruct t as [|x t]; [reflexivity|]. simpl head_is. intro H.
  change (startsWith (js "```") (x :: t))
    with ((96 =? x)%N && startsWith [96; 96]%N t).
  now rewrite N.eqb_sym, H.
Qed.

Lemma re_inline_code_head prev t :
  head_is 96 t = false -> re_inline_code prev t = None.
Proof.
  unfold re_inline_code. destruct t as [|x t]; [reflexivity|]. simpl head_is.
  intro H. now rewrite H.
Qed.

Lemma codeScore_weights (text : str) :
  codeScore text
  = (weight (test re_fenced text) 2 + weight (test re_inline_code text) 1
     + weight (test re_keyword text) 2 + weight (test re_arrow text) 1
     + weight (test re_member text) 1 + weight (3 <=? punctCount text)%nat 1)%nat.
Proof.
  unfold codeScore, weight.
  destruct (test re_fenced text), (test re_inline_code text),
    (test re_keyword text), (test re_arrow text), (test re_member text),
    (3 <=? punctCount text)%nat; reflexivity.
Qed.

(** An expression that needs the code unit [c] somewhere behind the
    position where it is tried is not found in a text without [c]. *)
Lemma test_from_without (m : matcher) (c : N) :
  (forall prev t, ~ In c t -> m prev t = None) ->
  forall s prev, ~ In c s -> test_from m prev s = false.
Proof.
  intro Hm. induction s as [|x s IH]; intros prev Hs; rewrite test_from_eq.
  - now rewrite Hm.
  - rewrite Hm by exact Hs. apply IH. simpl in Hs. tauto.
Qed.

Lemma re_arrow_needs prev t : ~ In 61%N t -> re_arrow prev t = None.
Proof.
  intro H. unfold re_arrow.
  destruct (dropWhile is_space (skipn (span_len is_word t) t)) as [|x r] eqn:E.
  - now rewrite andb_false_r.
  - change (startsWith (js "=>") (x :: r)) with ((61 =? x)%N && startsWith [62%N] r).
    destruct (61 =? x)%N eqn:Ex; [|now rewrite andb_false_r].
    apply N.eqb_eq in Ex. subst x. exfalso. apply H.
    eapply skipn_In, dropWhile_incl. rewrite E. now left.
Qed.

Lemma re_member_needs prev t : ~ In 46%N t -> re_member prev t = None.
Proof.
  intro H. unfold re_member.
  destruct (skipn (span_len is_word t) t) as [|x r] eqn:E; [reflexivity|].
  destruct (x =? 46)%N eqn:Ex; [|now rewrite andb_false_r].
  apply N.eqb_eq in Ex. subst x. exfalso. apply H.
  eapply skipn_In. rewrite E. now left.
Qed.

Lemma canonPunct_no_period (s : str) :
  Forall (fun c => c <> 46%N /\ c <> 59%N) (canonPunct s).
Proof.
  unfold canonPunct.
  do 4 (apply replaceAll_preserves;
        [intros prev t n out H; apply re_run_out in H as [-> _];
         repeat constructor; discriminate|]).
  apply replaceAll_run_clears.
  - repeat constructor; discriminate.
  - intros c Hc. split; intros ->; discriminate Hc.
Qed.

Lemma dropSymbols_codeFree (s : str) :
  Forall (fun c => c <> 46%N /\ c <> 59%N) s -> Forall codeFree (dropSymbols s).
Proof.
  intro Hs. unfold dropSymbols.
  apply replaceAll_preserves.
  { intros prev t n out H. apply re_drop_out in H as [-> _]. constructor. }
  apply replaceAll_drop_clears
    with (R := fun c => c <> 46%N /\ c <> 59%N /\ c <> 96%N /\ c <> 61%N).
  { intros c (H1 & H2 & H3 & H4) Hc. unfold codeFree.
    repeat split; try assumption; intros ->; discriminate Hc. }
  apply replaceAll_drop_clears with (R := fun c => c <> 46%N /\ c <> 59%N);
    [|exact Hs].
  intros c [H1 H2] Hc. repeat split; try assumption; intros ->; discriminate Hc.
Qed.

(** The sanitised response holds none of the code units that the
    signals other than the keywords need. *)
Lemma sanitized_codeFree (text : str) (maxLen : Z) :
  Forall codeFree (sanitizeSummaryText text maxLen).
Proof.
  unfold sanitizeSummaryText. destruct text as [|c text]; [constructor|].
  match goal with
  | |- context [collapseBlanks ?x] => destruct (collapseBlanks x) as [|d rest]
  end; [constructor|].
  apply toDeclarativeSentence_from_core;
    [repeat split; discriminate ..|].
  apply dropSymbols_codeFree, canonPunct_no_period.
Qed.

(** Of the six signals only the keywords can count in a sanitised
    response. *)
Lemma sanitized_score (text : str) (maxLen : Z) :
  let san := sanitizeSummaryText text maxLen in
  test re_fenced san = false /\ test re_inline_code san = false
  /\ test re_arrow san = false /\ test re_member san = false
  /\ punctCount san = O
  /\ codeScore san = weight (test re_keyword san) 2.
Proof.
  cbv zeta. pose proof (sanitized_codeFree text maxLen) as H.
  set (san := sanitizeSummaryText text maxLen) in *.
  assert (Hf : test re_fenced san = false).
  { apply (test_from_absent re_fenced 96%N re_fenced_head).
    apply Forall_not_In. weaken H. }
  assert (Hi : test re_inline_code san = false).
  { apply (test_from_absent re_inline_code 96%N re_inline_code_head).
    apply Forall_not_In. weaken H. }
  assert (Ha : test re_arrow san = false).
  { apply (test_from_without re_arrow 61%N re_arrow_needs).
    apply Forall_not_In. weaken H. }
  assert (Hm : test re_member san = false).
  { apply (test_from_without re_member 46%N re_member_needs).
    apply Forall_not_In. weaken H. }
  assert (Hp : punctCount san = O).
  { unfold punctCount. rewrite filter_none; [reflexivity|].
    eapply Forall_impl; [|exact H]. intros c Hc.
    destruct (one_of (js "{}();[]") c) eqn:E; [|reflexivity].
    unfold one_of in E. apply existsb_exists in E as (x & Hx & Ex).
    apply N.eqb_eq in Ex. subst x. unfold codeFree in Hc.
    cbn in Hx. intuition congruence. }
  repeat split; try assumption.
  rewrite codeScore_weights, Hf, Hi, Ha, Hm, Hp.
  destruct (test re_keyword san); reflexivity.
Qed.

(** C5: the scorer adds 2 for a fenced block, 1 for inline code, 2 for
    a keyword, 1 for an arrow, 1 for a member access and 1 for three or
    more of the structural characters, and rejects a text that is not
    empty from 2 points on; it rejects every text with a fenced block.
    [processOne] however hands it the response as [sanitizeSummaryText]
    returns it, in which the fenced blocks, the backticks, the equals
    signs, the full stops, the structural characters and the ASCII
    blanks are gone, so that only the keywords can count there.  The
    response [sampleResponse], with a fenced block and the keyword
    [function], is rejected by the scorer (5 points), yet the summary
    of the endpoint is written in place of [Bodytext。], the summary
    of the local rules; and the line of code [arrowResponse], which
    scores 5 as well, becomes the summary [xreturny，z。]. *)
Theorem code_response_written :
  (forall text,
      codeScore text
      = (weight (test re_fenced text) 2 + weight (test re_inline_code text) 1
         + weight (test re_keyword text) 2 + weight (test re_arrow text) 1
         + weight (test re_member text) 1
         + weight (3 <=? punctCount text)%nat 1)%nat
      /\ looksLikeCode text = nonempty text && (2 <=? codeScore text)%nat)
  /\ (forall pre mid post,
        looksLikeCode (pre ++ js "```" ++ mid ++ js "```" ++ post) = true)
  /\ (forall (apiSummary : option str) (title body : str),
        let san :=
          sanitizeSummaryText (match apiSummary with Some s => s | None => [] end)
            SUMMARY_MAX_LEN in
        fst (chooseSummary apiSummary title body)
        = nonempty san && negb (looksLikeCode san)
        /\ codeScore san = weight (test re_keyword san) 2)
  /\ (test re_fenced sampleResponse = true
      /\ test re_keyword sampleResponse = true
      /\ codeScore sampleResponse = 5%nat
      /\ looksLikeCode sampleResponse = true
      /\ ~ codeGate sampleResponse (js "T") (js "Body text.")
      /\ written (processOne sampleRun sampleDocument 8000)
         = Some (nl [js "---"; js "title: T";
                     js "summary: " ++ [DQ] ++ js "Introafunctionhere。" ++ [DQ];
                     js "---"; js "Body text."; []])
      /\ localGenerateSummary (js "T") (js "Body text.") SUMMARY_MAX_LEN
         = js "Bodytext。")
  /\ (codeScore arrowResponse = 5%nat
      /\ looksLikeCode arrowResponse = true
      /\ written (processOne (answeringRun arrowResponse) sampleDocument 8000)
         = Some (nl [js "---"; js "title: T";
                     js "summary: " ++ [DQ] ++ js "xreturny，z。" ++ [DQ];
                     js "---"; js "Body text."; []])).
Proof.
  split; [|split; [|split; [|split]]].
  - intro text. split; [apply codeScore_weights|destruct text; reflexivity].
  - intros pre mid post.
    set (t := pre ++ js "```" ++ mid ++ js "```" ++ post).
    assert (Hf : test re_fenced t = true).
    { unfold test, t. apply test_from_app. intro prev. unfold re_fenced.
      rewrite startsWith_app.
      change (skipn 3 (js "```" ++ mid ++ js "```" ++ post))
        with (mid ++ js "```" ++ post).
      pose proof (indexOf_app (js "```") mid post) as Hi.
      destruct (indexOf (js "```") (mid ++ js "```" ++ post));
        [discriminate|contradiction]. }
    assert (Hne : nonempty t = true).
    { unfold t. destruct pre; reflexivity. }
    unfold looksLikeCode. destruct t as [|c t']; [discriminate Hne|].
    rewrite codeScore_weights, Hf. reflexivity.
  - intros apiSummary title body. cbv zeta. split.
    + unfold chooseSummary.
      destruct (nonempty _); destruct (looksLikeCode _); reflexivity.
    + apply sanitized_score.
  - repeat split; try (vm_compute; reflexivity).
    intro H. specialize (H eq_refl eq_refl). vm_compute in H. discriminate H.
  - repeat split; vm_compute; reflexivity.
Qed.

(** ** C6: the overwrite policy *)

Lemma promptYesNo_affirmative (ans : str) : promptYesNo ans false = affirmative ans.
Proof.
  unfold promptYesNo, affirmative, includes.
  destruct (toLowerCase (trim ans)) as [|c v]; [reflexivity|].
  simpl existsb. now rewrite orb_false_r.
Qed.

(** C6: for a document whose front-matter has a summary, [never]
    leaves the file alone without asking; [ask] asks, and writes
    exactly when the answer, trimmed and lowered, is [y] or [yes], so
    an empty answer and any other answer leave the file alone;
    [always] writes without asking. *)
Theorem overwrite_policy (r : Run) (content : str) (limit : Z) :
  hasSummaryInFrontmatter (fst (splitFrontmatterAndBody content)) = true ->
  match overwritePolicy r with
  | never =>
      processOne r content limit = {| prompted := false; written := None |}
  | ask =>
      processOne r content limit
      = {| prompted := true;
           written := if affirmative (answer r)
                      then Some (generateAndWrite r content limit) else None |}
      /\ affirmative [] = false
  | always =>
      processOne r content limit
      = {| prompted := false;
           written := Some (generateAndWrite r content limit) |}
  end.
Proof.
  intro H. unfold processOne. rewrite H.
  destruct (overwritePolicy r); try reflexivity.
  split; [|reflexivity]. rewrite promptYesNo_affirmative.
  now destruct (affirmative (answer r)).
Qed.

(** The three policies at a document that has a summary. *)
Lemma overwrite_policy_witness :
  processOne (localRun never []) summarisedDocument 8000
  = {| prompted := false; written := None |}
  /\ written (processOne (localRun ask []) summarisedDocument 8000) = None
  /\ written (processOne (localRun ask (js "nope")) summarisedDocument 8000) = None
  /\ written (processOne (localRun always []) summarisedDocument 8000)
     = Some (nl [js "---"; js "title: T";
                 js "summary: " ++ [DQ] ++ js "Bodytext。" ++ [DQ];
                 js "---"; js "Body text."; []]).
Proof.
  split; [exact (overwrite_policy (localRun never []) summarisedDocument 8000 eq_refl)|].
  split; [|split].
  - destruct (overwrite_policy (localRun ask []) summarisedDocument 8000 eq_refl)
      as [-> _]. reflexivity.
  - destruct (overwrite_policy (localRun ask (js "nope")) summarisedDocument 8000 eq_refl)
      as [-> _]. reflexivity.
  - rewrite (overwrite_policy (localRun always []) summarisedDocument 8000 eq_refl).
    reflexivity.
Defined.

(** ** C7: where the credential travels *)

Lemma isASCII_false (key : str) :
  isASCII key = false -> Exists (fun c => (127 < c)%N) key.
Proof.
  induction key as [|c key IH]; simpl; [discriminate|].
  destruct (c <=? 127)%N eqn:E; simpl.
  - intro H. right. now apply IH.
  - intros _. left. apply N.leb_gt in E. exact E.
Qed.

Lemma isASCII_true (key : str) :
  isASCII key = true -> Forall (fun c => (c <= 127)%N) key.
Proof.
  unfold isASCII. rewrite forallb_forall, Forall_forall.
  intros H c Hc. apply N.leb_le. now apply H.
Qed.

(** C7: for every credential that is not empty, the request that
    [callSummaryAPI] hands to [fetch] carries it in one place: when all
    its code units are at most 127, in the header
    [Authorization: Bearer <credential>], and the body has no [apiKey]
    field; when one code unit is above 127, in the [apiKey] field of
    the body, and there is no [Authorization] header. *)
Theorem credential_transport (st : Settings) (f : Request -> Response)
  (api key title body : str) (limit : Z) :
  api <> [] -> key <> [] ->
  or_else (cfg_api st) (env_api st) = Some api ->
  or_else (cfg_key st) (env_key st) = Some key ->
  let rq := buildRequest api (Some key) title body limit in
  callSummaryAPI st f title body limit = summaryOf (f rq)
  /\ url rq = api
  /\ if isASCII key
     then Forall (fun c => (c <= 127)%N) key
          /\ get (headers rq) (js "Authorization") = Some (js "Bearer " ++ key)
          /\ get (payload rq) (js "apiKey") = None
     else Exists (fun c => (127 < c)%N) key
          /\ get (payload rq) (js "apiKey") = Some (JString key)
          /\ get (headers rq) (js "Authorization") = None.
Proof.
  intros Hapi Hkey Ea Ek rq. split; [|split].
  - unfold callSummaryAPI. rewrite Ea, Ek.
    destruct api; [contradiction|reflexivity].
  - unfold rq, buildRequest. destruct key; [contradiction|].
    now destruct (isASCII (n :: key)).
  - unfold rq, buildRequest. destruct key as [|c key]; [contradiction|].
    destruct (isASCII (c :: key)) eqn:E.
    + split; [now apply isASCII_true|]. split; reflexivity.
    + split; [now apply isASCII_false|]. split; reflexivity.
Qed.

(** A credential within ASCII and one outside of it. *)
Lemma credential_transport_witness :
  get (headers (buildRequest sampleEndpoint (Some asciiKey) (js "T") (js "Body") 8000))
    (js "Authorization")
  = Some (js "Bearer " ++ asciiKey)
  /\ get (payload (buildRequest sampleEndpoint (Some wideKey) (js "T") (js "Body") 8000))
       (js "apiKey")
     = Some (JString wideKey).
Proof.
  assert (Ha : sampleEndpoint <> []) by discriminate.
  split.
  - assert (Hk : asciiKey <> []) by discriminate.
    pose proof (credential_transport (keyedSettings asciiKey)
                  (fun _ => NetworkError) sampleEndpoint asciiKey (js "T") (js "Body")
                  8000 Ha Hk eq_refl eq_refl) as H.
    cbv zeta in H. destruct H as (_ & _ & H).
    change (isASCII asciiKey) with true in H. cbv iota in H.
    exact (proj1 (proj2 H)).
  - assert (Hk : wideKey <> []) by discriminate.
    pose proof (credential_transport (keyedSettings wideKey)
                  (fun _ => NetworkError) sampleEndpoint wideKey (js "T") (js "Body")
                  8000 Ha Hk eq_refl eq_refl) as H.
    cbv zeta in H. destruct H as (_ & _ & H).
    change (isASCII wideKey) with false in H. cbv iota in H.
    exact (proj1 (proj2 H)).
Defined.

(** ** C8: the ASCII semicolon *)

Lemma canonPunct_no_semicolon (s : str) : ~ In 59%N (canonPunct s).
Proof.
  apply Forall_not_In. unfold canonPunct.
  do 4 (apply replaceAll_preserves;
        [intros prev t n out H; apply re_run_out in H as [-> _];
         repeat constructor; discriminate|]).
  apply replaceAll_run_clears.
  - repeat constructor. discriminate.
  - intros c Hc ->. discriminate Hc.
Qed.

(** C8 does not hold of the code: the first replacement of the
    punctuation stage turns the ASCII semicolon into the sentence
    terminator, so the fifth one, which would turn it into the
    full-width semicolon, never sees it; the clause behind it is then
    joined with a comma.  The full-width semicolon is kept. *)
Theorem semicolon_becomes_terminator :
  canonPunct (js "a;b") = js "a。b"
  /\ toDeclarativeSentence (js "a;b") SUMMARY_MAX_LEN = js "a，b。"
  /\ toDeclarativeSentence (js "a；b") SUMMARY_MAX_LEN = js "a；b。"
  /\ forall s, ~ In 59%N (canonPunct s).
Proof.
  split; [vm_compute; reflexivity|]. split; [vm_compute; reflexivity|].
  split; [vm_compute; reflexivity|]. apply canonPunct_no_semicolon.
Qed.

(** ** C9: quotes, backslashes and line feeds in the summary *)

Lemma summaryFor_canonical (r : Run) (content : str) (limit : Z) :
  exists text, summaryFor r content limit = toDeclarativeSentence text SUMMARY_MAX_LEN.
Proof.
  unfold summaryFor, chooseSummary.
  match goal with
  | |- context [if ?c then _ else _] => destruct c
  end; simpl; eauto.
Qed.

Lemma canonical_plain (text : str) (maxLen : Z) :
  let s := toDeclarativeSentence text maxLen in
  ~ In DQ s /\ ~ In 92%N s /\ escapeYaml s = [DQ] ++ s ++ [DQ].
Proof.
  cbv zeta. pose proof (toDeclarativeSentence_survives text maxLen) as H.
  assert (Hq : ~ In DQ (toDeclarativeSentence text maxLen)).
  { apply Forall_not_In. weaken H. }
  split; [exact Hq|]. split.
  - apply Forall_not_In. weaken H.
  - rewrite escapeYaml_flat_map. now rewrite escape_plain.
Qed.

(** C9: the result of the canonicaliser holds no double quote and no
    backslash, for every input, and so does the summary that
    [processOne] writes, so [escapeYaml] returns it unchanged between
    two double quotes; and the result has no line feed when the input
    has none.  The value that is written is however not always on one
    line, against the documentation ([escapeYaml] is for a text of one
    line, the summary is the last line between the delimiters).  The
    title that [readTitleFromFrontmatter] reads runs over the lines
    behind the title line, the canonicaliser keeps a single line feed,
    and the title becomes the summary when the body is empty: for
    [titledDocument] the value spans two lines; for
    [delimiterDocument] its second line is a line of three dashes, at
    which [splitFrontmatterAndBody] ends the block of the written
    document, so that the rest of the value becomes the body.  A
    single carriage return in the response of the endpoint is written
    as it is, too. *)
Theorem summary_value_over_lines :
  (forall text maxLen,
      let s := toDeclarativeSentence text maxLen in
      ~ In DQ s /\ ~ In 92%N s /\ escapeYaml s = [DQ] ++ s ++ [DQ])
  /\ (forall r content limit,
        let w := summaryFor r content limit in
        ~ In DQ w /\ ~ In 92%N w /\ escapeYaml w = [DQ] ++ w ++ [DQ])
  /\ (forall text maxLen,
        oneLine text = true -> oneLine (toDeclarativeSentence text maxLen) = true)
  /\ (summaryFor (localRun always []) titledDocument 8000 = nl [js "a"; js "b：c。"]
      /\ oneLine (escapeYaml (summaryFor (localRun always []) titledDocument 8000))
         = false
      /\ written (processOne (localRun always []) titledDocument 8000)
         = Some (nl [js "---"; js "title: a"; js "b: c";
                     js "summary: " ++ [DQ] ++ js "a"; js "b：c。" ++ [DQ];
                     js "---"; []]))
  /\ (summaryFor (localRun always []) delimiterDocument 8000
      = nl [js "a"; js "---"; js "b：c。"]
      /\ written (processOne (localRun always []) delimiterDocument 8000)
         = Some (nl [js "---"; js "title: a";
                     js "summary: " ++ [DQ] ++ js "a"; js "---";
                     js "b：c。" ++ [DQ]; js "---"; []])
      /\ splitFrontmatterAndBody
           (nl [js "---"; js "title: a";
                js "summary: " ++ [DQ] ++ js "a"; js "---";
                js "b：c。" ++ [DQ]; js "---"; []])
         = (nl [js "---"; js "title: a"; js "summary: " ++ [DQ] ++ js "a"; js "---"],
            nl [js "b：c。" ++ [DQ]; js "---"; []]))
  /\ (summaryFor (answeringRun returnResponse) sampleDocument 8000
      = js "a" ++ [CR] ++ js "b。"
      /\ written (processOne (answeringRun returnResponse) sampleDocument 8000)
         = Some (nl [js "---"; js "title: T";
                     js "summary: " ++ [DQ] ++ js "a" ++ [CR] ++ js "b。" ++ [DQ];
                     js "---"; js "Body text."; []])).
Proof.
  split; [|split; [|split; [|split; [|split]]]].
  - intros text maxLen. apply canonical_plain.
  - intros r content limit.
    destruct (summaryFor_canonical r content limit) as [t ->]. apply canonical_plain.
  - intros text maxLen E.
    apply oneLine_spec. apply oneLine_spec in E. apply Forall_not_In.
    apply toDeclarativeSentence_preserves; try discriminate.
    now apply Forall_not_In.
  - repeat split; vm_compute; reflexivity.
  - repeat split; vm_compute; reflexivity.
  - repeat split; vm_compute; reflexivity.
Qed.

(** ** C10: the overwrite policy and its aliases *)












(** * Further properties *)

(** ** The written document, split again *)

Ltac app_norm := repeat first [rewrite <- app_assoc | progress cbn [app]].

Lemma join_lines (K rest : list str) :
  rest <> [] -> join [LF] (K ++ rest) = linesText K ++ join [LF] rest.
Proof.
  intro H. induction K as [|l K IH]; [reflexivity|].
  change ((l :: K) ++ rest) with (l :: (K ++ rest)).
  rewrite join_cons by (destruct K; [exact H|discriminate]).
  rewrite IH. unfold linesText. cbn [flat_map]. now rewrite <- !app_assoc.
Qed.

(** The block that the upsert returns, as a text. *)
Lemma upsert_text (fm s : str) :
  exists body,
    Forall keptLine body
    /\ upsertSummaryInFrontmatter fm s
       = js "---" ++ LF :: linesText body ++ summaryLine s ++ LF :: js "---" ++ [LF].
Proof.
  destruct (upsert_shape fm s) as (body & Hb & ->). exists body. split; [exact Hb|].
  unfold nl. rewrite join_cons by (destruct body; discriminate).
  rewrite join_lines by discriminate. cbn [join]. now rewrite app_nil_r.
Qed.

Lemma fm_close_here_head (c : N) (r : str) : c <> LF -> fm_close_here (c :: r) = false.
Proof. intro H. unfold fm_close_here. apply N.eqb_neq in H. now rewrite H. Qed.

Lemma fm_close_len_in_line (c : N) (l tail : str) :
  c <> LF -> ~ In LF l -> fm_close_here (LF :: tail) = false ->
  fm_close_len (c :: l ++ LF :: tail) = None.
Proof.
  intros Hc Hl Ht. unfold fm_close_len. destruct (c =? CR)%N.
  - destruct l as [|d l]; simpl app.
    + now rewrite Ht.
    + rewrite fm_close_here_head; [reflexivity|]. intros ->. apply Hl. now left.
  - now rewrite fm_close_here_head.
Qed.

(** A line without a closing delimiter behind it is passed over by the
    lazy star. *)
Lemma fm_rest_len_line (l tail : str) :
  ~ In LF l -> fm_close_here (LF :: tail) = false ->
  fm_rest_len (l ++ LF :: tail)
  = option_map (fun n => (length l + 1 + n)%nat) (fm_rest_len tail).
Proof.
  intros Hl Ht. induction l as [|c l IH].
  - simpl app. rewrite fm_rest_len_eq. unfold fm_close_len.
    change (LF =? CR)%N with false. cbv iota. rewrite Ht.
    now destruct (fm_rest_len tail).
  - change ((c :: l) ++ LF :: tail) with (c :: l ++ LF :: tail).
    rewrite fm_rest_len_eq, fm_close_len_in_line; auto.
    + rewrite IH by (intro H; apply Hl; now right).
      now destruct (fm_rest_len tail).
    + intros ->. apply Hl. now left.
    + intro H. apply Hl. now right.
Qed.

(** A line that is not the delimiter does not close the block. *)
Lemma close_here_open (l tail : str) :
  ~ In LF l -> openLine l = true -> fm_close_here (LF :: l ++ LF :: tail) = false.
Proof.
  intros Hl Ho. destruct (fm_close_here (LF :: l ++ LF :: tail)) eqn:E; [|reflexivity].
  exfalso. unfold fm_close_here in E. rewrite N.eqb_refl in E.
  apply andb_true_iff in E as [E1 E2]. apply andb_true_iff in E1 as [_ E1].
  destruct l as [|a [|b [|c l]]];
    try (cbn in E1; rewrite ?andb_false_r in E1; discriminate E1).
  change (startsWith (js "---") ((a :: b :: c :: l) ++ LF :: tail))
    with ((45 =? a)%N && ((45 =? b)%N && ((45 =? c)%N && true))) in E1.
  apply andb_true_iff in E1 as [Ea E1]. apply andb_true_iff in E1 as [Eb E1].
  apply andb_true_iff in E1 as [Ec _].
  apply N.eqb_eq in Ea, Eb, Ec. subst a b c.
  change (skipn 3 (([45; 45; 45]%N ++ l) ++ LF :: tail)) with (l ++ LF :: tail) in E2.
  destruct l as [|d l]; [discriminate Ho|].
  simpl in E2. apply orb_true_iff in E2 as [E2|E2].
  - apply N.eqb_eq in E2. subst d. apply Hl. simpl. tauto.
  - apply andb_true_iff in E2 as [Ed E2]. apply N.eqb_eq in Ed. subst d.
    destruct l as [|e l]; [discriminate Ho|].
    simpl in E2. apply N.eqb_eq in E2. subst e. apply Hl. simpl. tauto.
Qed.

Lemma fm_rest_len_lines (K : list str) (tail : str) :
  Forall (fun l => ~ In LF l /\ openLine l = true) K ->
  fm_close_here (LF :: tail) = false ->
  fm_rest_len (linesText K ++ tail)
  = option_map (fun n => (length (linesText K) + n)%nat) (fm_rest_len tail).
Proof.
  intros HK Ht. induction HK as [|l K [Hl Ho] HK IH].
  - simpl. now destruct (fm_rest_len tail).
  - change (linesText (l :: K)) with ((l ++ [LF]) ++ linesText K).
    rewrite <- !app_assoc. change ([LF] ++ linesText K ++ tail) with (LF :: linesText K ++ tail).
    rewrite fm_rest_len_line; [rewrite IH|exact Hl|].
    + destruct (fm_rest_len tail); [|reflexivity]. simpl. f_equal.
      rewrite !length_app. simpl. lia.
    + destruct HK as [|l' K' [Hl' Ho'] HK']; [exact Ht|].
      change (linesText (l' :: K') ++ tail) with (((l' ++ [LF]) ++ linesText K') ++ tail).
      rewrite <- !app_assoc. now apply close_here_open.
Qed.

Lemma fm_rest_len_plain (P t : str) :
  Forall (fun c => c <> LF /\ c <> CR) P ->
  fm_rest_len (P ++ t) = option_map (fun n => (length P + n)%nat) (fm_rest_len t).
Proof.
  induction 1 as [|c P [H1 H2] HP IH].
  - simpl. now destruct (fm_rest_len t).
  - change ((c :: P) ++ t) with (c :: P ++ t). rewrite fm_rest_len_eq.
    unfold fm_close_len. apply N.eqb_neq in H2. rewrite H2.
    rewrite fm_close_here_head by exact H1. rewrite IH.
    now destruct (fm_rest_len t).
Qed.

Lemma fm_rest_len_exists (X t : str) :
  fm_lookahead t = true -> fm_rest_len (X ++ LF :: js "---" ++ t) <> None.
Proof.
  intro Ht. induction X as [|c X IH]; rewrite fm_rest_len_eq.
  - change ([] ++ LF :: js "---" ++ t) with (LF :: js "---" ++ t).
    unfold fm_close_len. change (LF =? CR)%N with false. cbv iota.
    unfold fm_close_here. rewrite N.eqb_refl.
    change (startsWith (js "---") (js "---" ++ t)) with true.
    change (skipn 3 (js "---" ++ t)) with t. rewrite Ht. discriminate.
  - destruct (fm_close_len ((c :: X) ++ LF :: js "---" ++ t)); [discriminate|].
    change ((c :: X) ++ LF :: js "---" ++ t) with (c :: X ++ LF :: js "---" ++ t).
    cbv iota. destruct (fm_rest_len (X ++ LF :: js "---" ++ t)); [discriminate|contradiction].
Qed.

(** The closing delimiter behind a line that holds no line feed and
    does not end in a carriage return. *)
Lemma fm_rest_len_last (x : str) (d : N) (tail : str) :
  ~ In LF x -> d <> LF -> d <> CR -> fm_close_here (LF :: tail) = true ->
  fm_rest_len (x ++ d :: LF :: tail) = Some (length x + 1 + 4)%nat.
Proof.
  intros Hx H1 H2 Ht. induction x as [|c x IH].
  - simpl app. rewrite fm_rest_len_eq. unfold fm_close_len at 1.
    apply N.eqb_neq in H2. rewrite H2. rewrite fm_close_here_head by exact H1.
    rewrite fm_rest_len_eq. unfold fm_close_len.
    change (LF =? CR)%N with false. cbv iota. rewrite Ht. reflexivity.
  - change ((c :: x) ++ d :: LF :: tail) with (c :: x ++ d :: LF :: tail).
    rewrite fm_rest_len_eq.
    assert (E : fm_close_len (c :: x ++ d :: LF :: tail) = None).
    { unfold fm_close_len. rewrite (fm_close_here_head c).
      2:{ intros ->. apply Hx. now left. }
      destruct (c =? CR)%N; [|reflexivity].
      destruct x as [|e x]; simpl app.
      - now rewrite fm_close_here_head.
      - rewrite fm_close_here_head; [reflexivity|]. intros ->. apply Hx. simpl. tauto. }
    rewrite E, IH by (intro H; apply Hx; now right). reflexivity.
Qed.

Lemma exec_frontmatter_open (rest : str) :
  exec_frontmatter (js "---" ++ LF :: rest)
  = option_map (fun n => (4 + n)%nat) (fm_rest_len rest).
Proof. reflexivity. Qed.

Lemma stripLead_dash (t : str) : stripLead (js "---" ++ t) = js "---" ++ t.
Proof. reflexivity. Qed.

Lemma linesText_end (K : list str) :
  exists Q, js "---" ++ LF :: linesText K = Q ++ [LF].
Proof.
  assert (H : linesText K = [] \/ exists Q, linesText K = Q ++ [LF]).
  { induction K as [|l K IH]; [now left|right].
    change (linesText (l :: K)) with ((l ++ [LF]) ++ linesText K).
    destruct IH as [->|[Q ->]].
    - exists l. now rewrite app_nil_r.
    - exists (l ++ [LF] ++ Q). now rewrite <- !app_assoc. }
  destruct H as [->|[Q ->]].
  - now exists (js "---").
  - exists (js "---" ++ LF :: Q). now rewrite <- app_assoc.
Qed.

Lemma keptLine_open (K : list str) :
  Forall keptLine K -> Forall (fun l => ~ In LF l /\ openLine l = true) K.
Proof. intro H. eapply Forall_impl; [|exact H]. intros l (_ & H1 & H2). auto. Qed.

Lemma summaryLine_close (s tail : str) :
  fm_close_here (LF :: summaryLine s ++ tail) = false.
Proof. reflexivity. Qed.

Lemma re_summary_key_line (s rest : str) :
  re_summary_key (js "summary: " ++ rest) = true.
Proof. reflexivity. Qed.

Lemma summary_key_after_lf_app (a t : str) :
  re_summary_key t = true -> summary_key_after_lf (a ++ LF :: t) = true.
Proof.
  intro H. induction a as [|c a IH]; simpl.
  - now rewrite H.
  - rewrite IH. apply orb_true_r.
Qed.

Lemma hasSummary_app (a t : str) :
  re_summary_key t = true -> hasSummaryInFrontmatter (a ++ LF :: t) = true.
Proof.
  intro H. unfold hasSummaryInFrontmatter.
  rewrite (summary_key_after_lf_app a t H).
  destruct (a ++ LF :: t) eqn:E; [destruct a; discriminate E|]. apply orb_true_r.
Qed.

(** The block found at the head of a written document reaches behind
    the key of the summary line. *)
Lemma written_block (fm s body : str) :
  exists n Q rest,
    exec_frontmatter (upsertSummaryInFrontmatter fm s ++ body) = Some n
    /\ firstn n (upsertSummaryInFrontmatter fm s ++ body)
       = Q ++ LF :: js "summary: " ++ rest.
Proof.
  destruct (upsert_text fm s) as (K & HK & ->).
  set (P := js "summary: " ++ [DQ]).
  set (T := flat_map escapeUnit s ++ [DQ] ++ LF :: js "---" ++ LF :: body).
  assert (EW : (js "---" ++ LF :: linesText K ++ summaryLine s ++ LF :: js "---" ++ [LF]) ++ body
               = js "---" ++ LF :: linesText K ++ P ++ T).
  { rewrite summaryLine_eq. unfold P, T.
    do 3 (rewrite <- ?app_assoc; simpl). reflexivity. }
  rewrite EW.
  destruct (fm_rest_len T) as [m|] eqn:Em.
  2:{ exfalso. revert Em. unfold T. rewrite app_assoc.
      apply (fm_rest_len_exists (flat_map escapeUnit s ++ [DQ]) (LF :: body)).
      reflexivity. }
  destruct (linesText_end K) as [Q HQ].
  exists (4 + (length (linesText K) + (length P + m)))%nat, Q, ([DQ] ++ firstn m T).
  split.
  - rewrite exec_frontmatter_open, fm_rest_len_lines.
    + rewrite fm_rest_len_plain, Em; [reflexivity|].
      unfold P. repeat constructor; discriminate.
    + now apply keptLine_open.
    + reflexivity.
  - assert (E2 : js "---" ++ LF :: linesText K ++ P ++ T = (Q ++ [LF]) ++ P ++ T).
    { rewrite <- HQ. now rewrite <- app_assoc. }
    assert (EL : length (Q ++ [LF]) = (4 + length (linesText K))%nat).
    { rewrite <- HQ. reflexivity. }
    rewrite E2.
    replace (4 + (length (linesText K) + (length P + m)))%nat
      with (length (Q ++ [LF]) + (length P + m))%nat by lia.
    rewrite firstn_app_2, firstn_app_2. unfold P.
    rewrite <- !app_assoc. reflexivity.
Qed.

Lemma written_stripLead (fm s body : str) :
  stripLead (upsertSummaryInFrontmatter fm s ++ body)
  = upsertSummaryInFrontmatter fm s ++ body.
Proof. destruct (upsert_text fm s) as (K & _ & ->). reflexivity. Qed.

Lemma upsert_has_summary (fm s : str) :
  hasSummaryInFrontmatter (upsertSummaryInFrontmatter fm s) = true.
Proof.
  destruct (upsert_text fm s) as (K & _ & ->).
  destruct (linesText_end K) as [Q HQ].
  assert (E : js "---" ++ LF :: linesText K ++ summaryLine s ++ LF :: js "---" ++ [LF]
              = Q ++ LF :: js "summary: " ++ escapeYaml s ++ LF :: js "---" ++ [LF]).
  { transitivity ((js "---" ++ LF :: linesText K)
                  ++ summaryLine s ++ LF :: js "---" ++ [LF]).
    - now rewrite <- app_assoc.
    - rewrite HQ. unfold summaryLine. now rewrite <- !app_assoc. }
  rewrite E. apply hasSummary_app, re_summary_key_line. exact [].
Qed.

Lemma written_has_summary (fm s body : str) :
  hasSummaryInFrontmatter
    (fst (splitFrontmatterAndBody (upsertSummaryInFrontmatter fm s ++ body))) = true.
Proof.
  destruct (written_block fm s body) as (n & Q & rest & E & Eb).
  unfold splitFrontmatterAndBody. rewrite written_stripLead, E.
  rewrite (exec_frontmatter_tail _ _ E). cbn [fst]. rewrite Eb.
  apply hasSummary_app, re_summary_key_line. exact [].
Qed.

Lemma generateAndWrite_eq (r : Run) (content : str) (limit : Z) :
  generateAndWrite r content limit
  = upsertSummaryInFrontmatter (fst (splitFrontmatterAndBody content))
      (summaryFor r content limit)
    ++ snd (splitFrontmatterAndBody content).
Proof. unfold generateAndWrite. now destruct (splitFrontmatterAndBody content). Qed.

Lemma body_head (content : str) :
  head_is LF (snd (splitFrontmatterAndBody content)) = false.
Proof.
  unfold splitFrontmatterAndBody.
  destruct (exec_frontmatter (stripLead content)) as [n|] eqn:E.
  - rewrite (exec_frontmatter_tail _ _ E). cbn [snd].
    unfold stripBreaks. apply dropWhile_head. intros x Hx.
    rewrite N.eqb_sym. exact Hx.
  - cbn [snd]. unfold stripLead, trimStart. apply dropWhile_head.
    intros x Hx. apply N.eqb_eq in Hx. now subst x.
Qed.

Lemma firstn_exact {A : Type} (a b : list A) : firstn (length a) (a ++ b) = a.
Proof.
  rewrite firstn_app, Nat.sub_diag, firstn_all. simpl. apply app_nil_r.
Qed.

Lemma skipn_exact {A : Type} (a b : list A) : skipn (length a) (a ++ b) = b.
Proof. rewrite skipn_app, Nat.sub_diag, skipn_all. reflexivity. Qed.

(** The written document splits into the block without its final line
    feed and the body, when the summary is one line. *)
Lemma written_split (fm s body : str) :
  ~ In LF s -> head_is LF body = false ->
  exists K,
    Forall keptLine K
    /\ upsertSummaryInFrontmatter fm s
       = nl (js "---" :: K ++ [summaryLine s; js "---"]) ++ [LF]
    /\ splitFrontmatterAndBody (upsertSummaryInFrontmatter fm s ++ body)
       = (nl (js "---" :: K ++ [summaryLine s; js "---"]), body).
Proof.
  intros Hs Hb. destruct (upsert_text fm s) as (K & HK & EU).
  exists K. split; [exact HK|].
  set (A := nl (js "---" :: K ++ [summaryLine s; js "---"])).
  assert (EA : A = js "---" ++ LF :: linesText K ++ summaryLine s ++ LF :: js "---").
  { unfold A, nl. rewrite join_cons by (destruct K; discriminate).
    rewrite join_lines by discriminate. reflexivity. }
  assert (EU' : upsertSummaryInFrontmatter fm s = A ++ [LF]).
  { rewrite EU, EA. app_norm. reflexivity. }
  split; [exact EU'|].
  set (x := js "summary: " ++ [DQ] ++ flat_map escapeUnit s).
  assert (Ex : summaryLine s = x ++ [DQ]).
  { rewrite summaryLine_eq. unfold x. now rewrite <- !app_assoc. }
  assert (Hx : ~ In LF x).
  { intro H. apply (summaryLine_one_line s Hs). rewrite Ex. apply in_or_app. now left. }
  assert (E : exec_frontmatter ((A ++ [LF]) ++ body) = Some (length A)).
  { assert (EW : (A ++ [LF]) ++ body
                 = js "---" ++ LF :: linesText K
                     ++ x ++ DQ :: LF :: js "---" ++ LF :: body).
    { rewrite EA, Ex. app_norm. reflexivity. }
    rewrite EW, exec_frontmatter_open, fm_rest_len_lines.
    - rewrite fm_rest_len_last; auto; try discriminate.
      simpl option_map. f_equal. rewrite EA, Ex. simpl.
      rewrite !length_app. simpl. rewrite !length_app. simpl. lia.
    - now apply keptLine_open.
    - reflexivity. }
  unfold splitFrontmatterAndBody. rewrite written_stripLead, EU', E.
  rewrite (exec_frontmatter_tail _ _ E). rewrite <- app_assoc.
  rewrite firstn_exact, skipn_exact. f_equal.
  unfold stripBreaks. simpl. destruct body as [|c body]; [reflexivity|].
  cbn [head_is] in Hb. cbn [dropWhile]. rewrite N.eqb_sym, Hb. reflexivity.
Qed.

(** A block with the summary line and the closing delimiter, whatever
    follows, is rebuilt into the block that the upsert returns. *)
Lemma upsert_rebuilds (body : list str) (s : str) (rest : list str) :
  Forall keptLine body -> ~ In LF s -> Forall (fun l => ~ In LF l) rest ->
  upsertSummaryInFrontmatter
    (nl (js "---" :: body ++ [summaryLine s; js "---"] ++ rest)) s
  = nl (js "---" :: body ++ [summaryLine s; js "---"; []]).
Proof.
  intros Hbody Hs Hr.
  set (tl := body ++ [summaryLine s; js "---"] ++ rest).
  assert (Htl : tl <> []) by (unfold tl; destruct body; discriminate).
  assert (Hlines : split_char LF (nl (js "---" :: tl)) = js "---" :: tl).
  { unfold nl. rewrite split_join by discriminate. apply flat_map_single.
    constructor; [vm_compute; intuition discriminate|].
    unfold tl. apply Forall_app; split.
    - apply Forall_forall. intros l Hl.
      eapply Forall_forall in Hbody; [|exact Hl]. apply Hbody.
    - constructor; [now apply summaryLine_one_line|].
      constructor; [vm_compute; intuition discriminate|exact Hr]. }
  destruct (nl (js "---" :: tl)) as [|c fm] eqn:E.
  { unfold nl in E. rewrite join_cons in E by exact Htl. discriminate E. }
  unfold upsertSummaryInFrontmatter. rewrite Hlines. cbv zeta.
  rewrite slice_take_open.
  assert (Htake : take_open tl = body ++ [summaryLine s]).
  { unfold tl.
    change (body ++ [summaryLine s; js "---"] ++ rest)
      with (body ++ [summaryLine s] ++ js "---" :: rest).
    rewrite app_assoc. apply take_open_app; [|reflexivity].
    apply Forall_app; split.
    - apply Forall_forall. intros l Hl.
      eapply Forall_forall in Hbody; [|exact Hl]. apply Hbody.
    - repeat constructor. apply summaryLine_open. }
  rewrite Htake, filter_app, filter_all.
  - change (filter keepLine [summaryLine s])
      with (if keepLine (summaryLine s) then [summaryLine s] else []).
    rewrite summaryLine_dropped, app_nil_r.
    pose proof (upsert_rebuilt body s) as R. cbv zeta in R. exact R.
  - apply Forall_forall. intros l Hl.
    eapply Forall_forall in Hbody; [|exact Hl]. apply Hbody.
Qed.

(** X1: for every document, [extractBodyOnly] returns the body that
    [splitFrontmatterAndBody] returns, so the text that is summarised is
    the text that [processOne] writes back behind the new front-matter
    block. *)
Theorem extractBodyOnly_is_body (r : Run) (content : str) (limit : Z) :
  extractBodyOnly content = snd (splitFrontmatterAndBody content)
  /\ generateAndWrite r content limit
     = upsertSummaryInFrontmatter (fst (splitFrontmatterAndBody content))
         (summaryFor r content limit)
       ++ extractBodyOnly content.
Proof.
  assert (E : extractBodyOnly content = snd (splitFrontmatterAndBody content)).
  { unfold extractBodyOnly, splitFrontmatterAndBody.
    destruct (exec_frontmatter (stripLead content)) as [n|] eqn:E; [|reflexivity].
    now rewrite (exec_frontmatter_tail _ _ E). }
  split; [exact E|]. rewrite E. apply generateAndWrite_eq.
Qed.

(** X2: the block that the upsert returns has a summary for
    [hasSummaryInFrontmatter], for every block and every summary; the
    block found by splitting a document that [processOne] has written
    has one as well, for every run and every document, also when the
    summary spans several lines; so a later run under the policy
    [never] neither asks nor writes. *)
Theorem second_run_skips (fm s : str) (r r' : Run) (content : str) (limit limit' : Z) :
  overwritePolicy r' = never ->
  hasSummaryInFrontmatter (upsertSummaryInFrontmatter fm s) = true
  /\ hasSummaryInFrontmatter
       (fst (splitFrontmatterAndBody (generateAndWrite r content limit))) = true
  /\ processOne r' (generateAndWrite r content limit) limit'
     = {| prompted := false; written := None |}.
Proof.
  intro Hp. split; [apply upsert_has_summary|].
  assert (H : hasSummaryInFrontmatter
                (fst (splitFrontmatterAndBody (generateAndWrite r content limit))) = true).
  { rewrite generateAndWrite_eq. apply written_has_summary. }
  split; [exact H|]. unfold processOne. now rewrite H, Hp.
Qed.

Lemma second_run_skips_witness :
  processOne (localRun never []) (generateAndWrite (localRun always []) sampleDocument 8000)
    8000
  = {| prompted := false; written := None |}.
Proof.
  exact (proj2 (proj2 (second_run_skips [] [] (localRun always []) (localRun never [])
                         sampleDocument 8000 8000 eq_refl))).
Defined.

(** X3: when the summary holds no line feed, splitting the written
    document gives the block of the upsert without its final line feed
    and the body of the original document; and writing the same summary
    into the written document once more gives the written document. *)
Theorem written_document_splits (r : Run) (content : str) (limit : Z) :
  oneLine (summaryFor r content limit) = true ->
  let W := generateAndWrite r content limit in
  fst (splitFrontmatterAndBody W) ++ [LF]
  = upsertSummaryInFrontmatter (fst (splitFrontmatterAndBody content))
      (summaryFor r content limit)
  /\ snd (splitFrontmatterAndBody W) = snd (splitFrontmatterAndBody content)
  /\ upsertSummaryInFrontmatter (fst (splitFrontmatterAndBody W))
       (summaryFor r content limit)
     ++ snd (splitFrontmatterAndBody W) = W.
Proof.
  intros H W. apply oneLine_spec in H. unfold W. rewrite generateAndWrite_eq.
  destruct (written_split (fst (splitFrontmatterAndBody content))
              (summaryFor r content limit) (snd (splitFrontmatterAndBody content))
              H (body_head content)) as (K & HK & EU & ES).
  rewrite ES. cbn [fst snd]. split; [now rewrite EU|]. split; [reflexivity|].
  f_equal. rewrite EU.
  pose proof (upsert_rebuilds K (summaryFor r content limit) [] HK H (Forall_nil _)) as R.
  cbn [app] in R. rewrite R.
  set (s := summaryFor r content limit).
  assert (E1 : js "---" :: K ++ [summaryLine s; js "---"; []]
               = (js "---" :: K ++ [summaryLine s]) ++ [js "---"; []]).
  { cbn [app]. now rewrite <- app_assoc. }
  assert (E2 : js "---" :: K ++ [summaryLine s; js "---"]
               = (js "---" :: K ++ [summaryLine s]) ++ [js "---"]).
  { cbn [app]. now rewrite <- app_assoc. }
  rewrite E1, E2. apply nl_closed. discriminate.
Qed.

Lemma written_document_splits_witness :
  snd (splitFrontmatterAndBody (generateAndWrite (localRun always []) sampleDocument 8000))
  = snd (splitFrontmatterAndBody sampleDocument).
Proof.
  exact (proj1 (proj2 (written_document_splits (localRun always []) sampleDocument 8000
                         ltac:(vm_compute; reflexivity)))).
Defined.

(** ** Reading the summary back *)

Lemma split_lines_line (l t : str) :
  ~ In LF l -> split_lines (l ++ LF :: t) = chopCR l :: split_lines t.
Proof.
  induction l as [|c l IH]; intro Hl; [reflexivity|].
  assert (Hc : (c =? LF)%N = false).
  { apply N.eqb_neq. intros ->. apply Hl. now left. }
  change ((c :: l) ++ LF :: t) with (c :: l ++ LF :: t).
  cbn [split_lines]. rewrite Hc.
  destruct l as [|d l].
  - cbn [app startsWith]. rewrite N.eqb_refl. cbn [andb chopCR].
    destruct (c =? CR)%N; reflexivity.
  - assert (Hd : (LF =? d)%N = false).
    { apply N.eqb_neq. intros <-. apply Hl. simpl. tauto. }
    change ((d :: l) ++ LF :: t) with (d :: l ++ LF :: t) at 1.
    cbn [startsWith]. rewrite Hd. cbn [andb]. rewrite andb_false_r.
    rewrite IH by (intro H; apply Hl; now right). reflexivity.
Qed.

Lemma split_lines_last (l : str) : ~ In LF l -> split_lines l = [l].
Proof.
  induction l as [|c l IH]; intro Hl; [reflexivity|].
  assert (Hc : (c =? LF)%N = false).
  { apply N.eqb_neq. intros ->. apply Hl. now left. }
  cbn [split_lines]. rewrite Hc.
  assert (Hs : startsWith [LF] l = false).
  { destruct l as [|d l]; [reflexivity|]. cbn [startsWith].
    replace (LF =? d)%N with false; [reflexivity|].
    symmetry. apply N.eqb_neq. intros <-. apply Hl. simpl. tauto. }
  rewrite Hs, andb_false_r, IH by (intro H; apply Hl; now right). reflexivity.
Qed.

Lemma split_lines_text (K : list str) (rest : str) :
  Forall (fun l => ~ In LF l) K ->
  split_lines (linesText K ++ rest) = map chopCR K ++ split_lines rest.
Proof.
  induction 1 as [|l K Hl HK IH]; [reflexivity|].
  change (linesText (l :: K)) with ((l ++ [LF]) ++ linesText K).
  app_norm. rewrite split_lines_line by exact Hl. now rewrite IH.
Qed.

Lemma chopCR_cases (l : str) : chopCR l = l \/ l = chopCR l ++ [CR].
Proof.
  induction l as [|c l IH]; [now left|].
  destruct l as [|d l].
  - cbn [chopCR]. destruct (c =? CR)%N eqn:E; [right|now left].
    apply N.eqb_eq in E. now subst.
  - change (chopCR (c :: d :: l)) with (c :: chopCR (d :: l)).
    destruct IH as [->|IH]; [now left|right]. cbn [app]. now rewrite <- IH.
Qed.

Lemma chopCR_snoc (x : str) (d : N) : d <> CR -> chopCR (x ++ [d]) = x ++ [d].
Proof.
  intro H. induction x as [|c x IH].
  - simpl. apply N.eqb_neq in H. now rewrite H.
  - change ((c :: x) ++ [d]) with (c :: x ++ [d]).
    destruct (x ++ [d]) eqn:E; [destruct x; discriminate E|].
    change (chopCR (c :: n :: l)) with (c :: chopCR (n :: l)). now rewrite IH.
Qed.

Lemma dropWhile_app_ne (p : N -> bool) (a b : str) :
  dropWhile p a <> [] -> dropWhile p (a ++ b) = dropWhile p a ++ b.
Proof.
  induction a as [|c a IH]; simpl; [contradiction|].
  destruct (p c); [exact IH|reflexivity].
Qed.

Lemma dropWhile_app_nil (p : N -> bool) (a b : str) :
  dropWhile p a = [] -> dropWhile p (a ++ b) = dropWhile p b.
Proof.
  induction a as [|c a IH]; simpl; [reflexivity|].
  destruct (p c); [exact IH|discriminate].
Qed.

Lemma trim_snoc_space (l : str) (c : N) :
  is_space c = true -> trim (l ++ [c]) = trim l.
Proof.
  intro Hc. unfold trim, trimStart, trimEnd.
  destruct (dropWhile is_space l) as [|d r] eqn:E.
  - rewrite dropWhile_app_nil by exact E. simpl. now rewrite Hc.
  - rewrite dropWhile_app_ne by (rewrite E; discriminate). rewrite E.
    rewrite rev_app_distr. simpl rev at 1. cbn [app dropWhile]. now rewrite Hc.
Qed.

Lemma trim_chopCR (l : str) : trim (chopCR l) = trim l.
Proof.
  destruct (chopCR_cases l) as [->|E]; [reflexivity|].
  rewrite E at 2. now rewrite trim_snoc_space.
Qed.

Lemma startsWith_i_app (p s x : str) :
  startsWith_i p s = true -> startsWith_i p (s ++ x) = true.
Proof.
  revert s. induction p as [|a p IH]; intro s; [reflexivity|].
  destruct s as [|b s]; simpl; [discriminate|].
  intro H. apply andb_true_iff in H as [H1 H2]. now rewrite H1, IH.
Qed.

Lemma startsWith_i_length (p s : str) :
  startsWith_i p s = true -> (length p <= length s)%nat.
Proof.
  revert s. induction p as [|a p IH]; intro s; [simpl; lia|].
  destruct s as [|b s]; simpl; [discriminate|].
  intro H. apply andb_true_iff in H as [_ H]. apply IH in H. lia.
Qed.

Lemma head_is_app (c : N) (a x : str) : head_is c a = true -> head_is c (a ++ x) = true.
Proof. destruct a; [discriminate|auto]. Qed.

(** The key expression has no anchor at the end: what follows a match
    does not undo it. *)
Lemma re_summary_key_app (l x : str) :
  re_summary_key l = true -> re_summary_key (l ++ x) = true.
Proof.
  unfold re_summary_key. intro H. apply andb_true_iff in H as [H1 H2].
  assert (N1 : dropWhile is_space l <> []).
  { intro E. rewrite E in H1. discriminate H1. }
  rewrite dropWhile_app_ne by exact N1.
  rewrite (startsWith_i_app _ _ x H1). cbn [andb].
  apply startsWith_i_length in H1.
  rewrite skipn_app.
  replace (7 - length (dropWhile is_space l))%nat with O
    by (change (length (js "summary")) with 7%nat in H1; lia).
  cbn [skipn].
  assert (N2 : dropWhile is_space (skipn 7 (dropWhile is_space l)) <> []).
  { intro E. rewrite E in H2. discriminate H2. }
  rewrite dropWhile_app_ne by exact N2. now apply head_is_app.
Qed.

Lemma summary_value_key (l : str) (v : str) :
  summary_value l = Some v -> re_summary_key l = true.
Proof.
  unfold summary_value, re_summary_key.
  destruct (startsWith_i (js "summary") (dropWhile is_space l)); [|discriminate].
  destruct (dropWhile is_space (skipn 7 (dropWhile is_space l))) as [|c r]; [discriminate|].
  cbn [head_is andb]. destruct (c =? 58)%N; [reflexivity|discriminate].
Qed.

Lemma summary_value_kept (l : str) : keepLine l = true -> summary_value (chopCR l) = None.
Proof.
  intro H. destruct (summary_value (chopCR l)) as [v|] eqn:E; [|reflexivity].
  apply summary_value_key in E.
  assert (K : re_summary_key l = true).
  { destruct (chopCR_cases l) as [<-|El]; [exact E|].
    rewrite El. now apply re_summary_key_app. }
  unfold keepLine in H. rewrite K in H. discriminate H.
Qed.

Lemma first_summary_kept (K : list str) (rest : list str) :
  Forall keptLine K -> first_summary (map chopCR K ++ rest) = first_summary rest.
Proof.
  induction 1 as [|l K [Hl _] HK IH]; [reflexivity|].
  cbn [map app first_summary]. now rewrite summary_value_kept.
Qed.

(** The inner lines that the reader takes. *)
Lemma innerLines_take_open (l0 : str) (rest : list str) :
  let lines := l0 :: rest in
  let endIdx := findIndex is_closing lines in
  (if (endIdx >? -1)%Z then slice 1 endIdx lines else slice_from 1 lines)
  = take_open rest.
Proof.
  cbv zeta. unfold findIndex, slice, slice_from. cbn [findIndex_from].
  change (is_closing l0 0) with false. cbv iota. change (0 + 1)%Z with 1%Z.
  change (skipn (Z.to_nat 1) (l0 :: rest)) with rest.
  destruct (findIndex_from_open rest 1 ltac:(lia)) as [[H1 H2]|[H1 H2]];
    cbv zeta in H1, H2.
  - rewrite H1. change (-1 >? -1)%Z with false. cbv iota. now rewrite H2.
  - destruct (findIndex_from is_closing 1 rest >? -1)%Z eqn:E.
    + exact H2.
    + rewrite Z.gtb_ltb, Z.ltb_ge in E. lia.
Qed.

Lemma trim_both (c d : N) (x : str) :
  is_space c = false -> is_space d = false -> trim (c :: x ++ [d]) = c :: x ++ [d].
Proof.
  intros Hc Hd. unfold trim, trimStart, trimEnd. cbn [dropWhile]. rewrite Hc.
  change (c :: x ++ [d]) with ((c :: x) ++ [d]).
  rewrite rev_app_distr. cbn [rev app dropWhile]. rewrite Hd.
  change (d :: rev x ++ [c]) with ([d] ++ rev (c :: x)).
  rewrite rev_app_distr, rev_involutive. reflexivity.
Qed.

Lemma strip_quotes (x : str) :
  stripQuoteEnd (stripQuoteStart (DQ :: x ++ [DQ])) = x.
Proof.
  change (stripQuoteStart (DQ :: x ++ [DQ])) with (x ++ [DQ]).
  unfold stripQuoteEnd. rewrite rev_app_distr. cbn [rev app].
  change (stripQuoteStart (DQ :: rev x)) with (rev x). apply rev_involutive.
Qed.

Lemma summary_value_line (v : str) :
  summary_value (js "summary: " ++ DQ :: v)
  = if lineTerminatorFree (DQ :: v) then Some (DQ :: v) else None.
Proof. reflexivity. Qed.

Lemma lineTerminatorFree_escape (s : str) :
  lineTerminatorFree s = true -> lineTerminatorFree (DQ :: flat_map escapeUnit s ++ [DQ]) = true.
Proof.
  unfold lineTerminatorFree. rewrite !forallb_forall. intros H c Hc.
  destruct Hc as [<-|Hc]; [reflexivity|].
  apply in_app_or in Hc as [Hc|[<-|[]]]; [|reflexivity].
  apply in_flat_map in Hc as (y & Hy & Hc). unfold escapeUnit in Hc.
  destruct (y =? DQ)%N.
  - destruct Hc as [<-|[<-|[]]]; reflexivity.
  - destruct Hc as [<-|[]]. now apply H.
Qed.

Lemma lineTerminatorFree_one_line (s : str) : lineTerminatorFree s = true -> ~ In LF s.
Proof.
  unfold lineTerminatorFree. rewrite forallb_forall. intros H Hin.
  apply H in Hin. discriminate Hin.
Qed.

(** The reader at a block with kept lines, the summary line and the
    closing delimiter, at the end of the text or of a line. *)
Lemma read_back (K : list str) (s rest : str) :
  Forall keptLine K -> lineTerminatorFree s = true ->
  rest = [] \/ (exists r, rest = LF :: r) ->
  readSummaryFromFrontmatter
    (js "---" ++ LF :: linesText K ++ summaryLine s ++ LF :: js "---" ++ rest)
  = flat_map escapeUnit s.
Proof.
  intros HK Hs Hrest.
  pose proof (lineTerminatorFree_one_line s Hs) as Hlf.
  unfold readSummaryFromFrontmatter.
  change (js "---" ++ LF :: linesText K ++ summaryLine s ++ LF :: js "---" ++ rest)
    with (45%N :: 45%N :: 45%N :: LF
          :: linesText K ++ summaryLine s ++ LF :: js "---" ++ rest) at 1.
  cbv iota. unfold innerLines.
  assert (Hend : exists more, split_lines (js "---" ++ rest) = js "---" :: more).
  { destruct Hrest as [->|[r ->]].
    - now exists [].
    - exists (split_lines r).
      now rewrite split_lines_line by (vm_compute; intuition discriminate). }
  destruct Hend as [more Hmore].
  assert (E : split_lines
                (js "---" ++ LF :: linesText K ++ summaryLine s ++ LF :: js "---" ++ rest)
              = js "---" :: map chopCR K ++ summaryLine s :: js "---" :: more).
  { rewrite split_lines_line by (vm_compute; intuition discriminate).
    rewrite split_lines_text.
    - rewrite split_lines_line by now apply summaryLine_one_line.
      rewrite Hmore. f_equal. f_equal. f_equal.
      rewrite summaryLine_eq.
      change (js "summary: " ++ [DQ] ++ flat_map escapeUnit s ++ [DQ])
        with ((js "summary: " ++ [DQ] ++ flat_map escapeUnit s) ++ [DQ]).
      apply chopCR_snoc. discriminate.
    - eapply Forall_impl; [|exact HK]. intros l (_ & H & _). exact H. }
  rewrite E. cbv zeta.
  pose proof (innerLines_take_open (js "---")
                (map chopCR K ++ summaryLine s :: js "---" :: more)) as R.
  cbv zeta in R. rewrite R. clear R.
  change (map chopCR K ++ summaryLine s :: js "---" :: more)
    with (map chopCR K ++ [summaryLine s] ++ js "---" :: more).
  rewrite app_assoc, take_open_app; [| |reflexivity].
  - rewrite first_summary_kept by exact HK.
    cbn [first_summary]. rewrite summaryLine_eq.
    change (js "summary: " ++ [DQ] ++ flat_map escapeUnit s ++ [DQ])
      with (js "summary: " ++ DQ :: flat_map escapeUnit s ++ [DQ]).
    rewrite summary_value_line, lineTerminatorFree_escape by exact Hs.
    rewrite trim_both by reflexivity. apply strip_quotes.
  - apply Forall_app; split; [|repeat constructor; apply summaryLine_open].
    apply Forall_forall. intros l Hl. apply in_map_iff in Hl as (l' & <- & Hl').
    eapply Forall_forall in HK; [|exact Hl']. destruct HK as (_ & _ & Ho).
    unfold openLine in *. now rewrite trim_chopCR.
Qed.

(** X4: [readSummaryFromFrontmatter] finds what the upsert wrote, as
    long as the summary holds no line terminator.  For every summary
    without a line terminator it returns the escaped summary from the
    block of the upsert, a backslash in front of every double quote
    included; and when the summary that [processOne] computes for a
    document holds no line terminator, it returns that summary itself,
    which has no double quote, from the block of the written document.
    Of the summary of two lines that is written for [titledDocument],
    the first line is read. *)
Theorem summary_read_back (fm s : str) (r : Run) (content : str) (limit : Z) :
  (lineTerminatorFree s = true ->
   readSummaryFromFrontmatter (upsertSummaryInFrontmatter fm s)
   = flat_map escapeUnit s)
  /\ (lineTerminatorFree (summaryFor r content limit) = true ->
      readSummaryFromFrontmatter
        (fst (splitFrontmatterAndBody (generateAndWrite r content limit)))
      = summaryFor r content limit)
  /\ (lineTerminatorFree (summaryFor (localRun always []) titledDocument 8000) = false
      /\ readSummaryFromFrontmatter
           (fst (splitFrontmatterAndBody
                   (generateAndWrite (localRun always []) titledDocument 8000)))
         = js "a").
Proof.
  split; [|split].
  - intro Hs. destruct (upsert_text fm s) as (K & HK & ->).
    apply read_back; auto. right. now exists [].
  - intro Hw. set (w := summaryFor r content limit) in *.
    pose proof (lineTerminatorFree_one_line w Hw) as Hlf.
    rewrite generateAndWrite_eq. fold w.
    destruct (written_split (fst (splitFrontmatterAndBody content)) w
                (snd (splitFrontmatterAndBody content)) Hlf (body_head content))
      as (K & HK & _ & ->).
    cbn [fst].
    assert (EA : nl (js "---" :: K ++ [summaryLine w; js "---"])
                 = js "---" ++ LF :: linesText K ++ summaryLine w ++ LF :: js "---" ++ []).
    { unfold nl. rewrite join_cons by (destruct K; discriminate).
      rewrite join_lines by discriminate. cbn [join]. now rewrite app_nil_r. }
    rewrite EA, read_back; auto.
    apply escape_plain. unfold w.
    destruct (summaryFor_canonical r content limit) as [t ->]. apply canonical_plain.
  - split; vm_compute; reflexivity.
Qed.

Lemma summary_read_back_witness :
  readSummaryFromFrontmatter (upsertSummaryInFrontmatter sampleBlock (js "One sentence。"))
  = js "One sentence。"
  /\ readSummaryFromFrontmatter
       (fst (splitFrontmatterAndBody
               (generateAndWrite (localRun always []) sampleDocument 8000)))
     = js "Bodytext。".
Proof.
  destruct (summary_read_back sampleBlock (js "One sentence。") (localRun always [])
              sampleDocument 8000) as (H1 & H2 & _).
  split.
  - rewrite H1; vm_compute; reflexivity.
  - rewrite H2; vm_compute; reflexivity.
Defined.

(** ** One sentence *)

Lemma replaceAll_run_clears_from (R Q : N -> Prop) (cls : N -> bool) (o s : str) :
  Forall Q o -> (forall c, R c -> cls c = false -> Q c) ->
  Forall R s -> Forall Q (replaceAll (re_run 1 cls o) s).
Proof.
  intros Ho Hc Hs. unfold replaceAll.
  apply scan_Forall with (R := R); auto.
  - intros prev t n out H. apply re_run_out in H as [-> _]. exact Ho.
  - intros prev c t HR. unfold re_run. simpl.
    destruct (cls c) eqn:E; simpl; auto.
Qed.

Lemma canonPunct_no_marks (s : str) :
  Forall (fun c => one_of (js ".;") c = false /\ one_of (js "!?") c = false)
    (canonPunct s).
Proof.
  unfold canonPunct.
  do 3 (apply replaceAll_preserves;
        [intros prev t n out H; apply re_run_out in H as [-> _];
         repeat constructor; reflexivity|]).
  apply replaceAll_run_clears_from with (R := fun c => one_of (js ".;") c = false).
  - repeat constructor; reflexivity.
  - auto.
  - apply replaceAll_run_clears; [repeat constructor; reflexivity|auto].
Qed.

Lemma split_runs_from_free (R : N -> Prop) (cls : N -> bool) (s : str) :
  Forall R s ->
  forall in_sep acc, Forall (fun c => R c /\ cls c = false) acc ->
  Forall (Forall (fun c => R c /\ cls c = false)) (split_runs_from cls in_sep acc s).
Proof.
  induction 1 as [|c s Hc Hs IH]; intros in_sep acc Hacc; simpl.
  - constructor; [now apply Forall_rev|constructor].
  - destruct (cls c) eqn:E.
    + destruct in_sep; [now apply IH|].
      constructor; [now apply Forall_rev|]. apply IH. constructor.
    + apply IH. constructor; auto.
Qed.

Lemma mergeClauses_no_marks (s : str) :
  Forall (fun c => one_of (js ".;") c = false /\ one_of (js "!?") c = false) s ->
  Forall (fun c => sentenceMark c = false) (mergeClauses s).
Proof.
  intro Hs. unfold mergeClauses.
  set (cls := one_of (js "。！？!？…")).
  set (Q := fun c => (one_of (js ".;") c = false /\ one_of (js "!?") c = false)
                     /\ cls c = false).
  assert (HQ : forall x, Forall Q x -> Forall (fun c => sentenceMark c = false) x).
  { intros x Hx. eapply Forall_impl; [|exact Hx].
    intros c [[H1 H2] H3]. unfold sentenceMark. fold cls. now rewrite H1, H2, H3. }
  apply HQ. apply trim_Forall.
  apply replaceAll_preserves.
  { intros prev t n out H. apply re_run_out in H as [-> _].
    repeat constructor; reflexivity. }
  apply replaceAll_preserves.
  { intros prev t n out H. apply re_run_out in H as [-> _].
    repeat constructor; reflexivity. }
  apply join_Forall; [repeat constructor; reflexivity|].
  apply filter_Forall.
  apply map_Forall with (P := Forall Q); [intros x Hx; now apply trim_Forall|].
  apply split_runs_from_free; [exact Hs|constructor].
Qed.

Lemma scan_skip_all (cls : N -> bool) (s : str) (prev : option N) :
  scan (re_trailing cls) (length s) prev s = [].
Proof. revert prev. induction s as [|c s IH]; intro prev; [reflexivity|apply IH]. Qed.

(** What [/[cls]+$/] leaves does not end in the class. *)
Lemma scan_trailing (cls : N -> bool) (s : str) (prev : option N) :
  (forallb cls s = true /\ scan (re_trailing cls) 0 prev s = [])
  \/ (exists pre d, scan (re_trailing cls) 0 prev s = pre ++ [d] /\ cls d = false).
Proof.
  revert prev. induction s as [|c s IH]; intro prev; [now left|].
  cbn [scan].
  assert (Em : re_trailing cls prev (c :: s)
               = if forallb cls (c :: s) then Some (S (length s), []) else None)
    by reflexivity.
  rewrite Em. clear Em.
  destruct (forallb cls (c :: s)) eqn:E.
  - left. split; [reflexivity|]. cbn [app]. apply scan_skip_all.
  - right. destruct (IH (Some c)) as [[H1 H2]|(pre & d & H1 & H2)].
    + exists [], c. rewrite H2. split; [reflexivity|].
      cbn [forallb] in E. rewrite H1, andb_true_r in E. exact E.
    + exists (c :: pre), d. rewrite H1. auto.
Qed.

Lemma replaceAll_trailing_end (cls : N -> bool) (s pre : str) (d : N) :
  replaceAll (re_trailing cls) s = pre ++ [d] -> cls d = false.
Proof.
  unfold replaceAll. intro H.
  destruct (scan_trailing cls s None) as [[_ E]|(pre' & d' & E & Hd)].
  - rewrite E in H. destruct pre; discriminate H.
  - rewrite E in H. apply app_inj_tail in H as [_ <-]. exact Hd.
Qed.

Lemma endsWith_In (c : N) (s : str) : endsWith [c] s = true -> In c s.
Proof.
  unfold endsWith. intro H. apply andb_true_iff in H as [_ H].
  apply str_eqb_eq in H. eapply skipn_In. rewrite H. now left.
Qed.

Lemma toDeclarativeSentence_single (text : str) (maxLen : Z) :
  singleSentence maxLen (toDeclarativeSentence text maxLen).
Proof.
  unfold toDeclarativeSentence.
  set (merged := mergeClauses _).
  assert (Hm : Forall (fun c => sentenceMark c = false) merged).
  { apply mergeClauses_no_marks.
    apply dropSymbols_preserves, canonPunct_no_marks. }
  set (cls := one_of (js "，、：；")).
  set (cut := if (Z.of_nat (length merged) >? Z.max 1 (maxLen - 1))%Z
              then replaceAll (re_trailing cls) (firstn (Z.to_nat (Z.max 1 (maxLen - 1))) merged)
              else replaceAll (re_trailing cls) merged).
  assert (Hpres : forall x, Forall (fun c => sentenceMark c = false) x ->
            Forall (fun c => sentenceMark c = false) (replaceAll (re_trailing cls) x)).
  { intros x Hx. apply replaceAll_preserves; [|exact Hx].
    intros prev t n out H. apply re_trailing_out in H as ->. constructor. }
  assert (Hcut : Forall (fun c => sentenceMark c = false) cut).
  { unfold cut. destruct (Z.of_nat (length merged) >? Z.max 1 (maxLen - 1))%Z;
      apply Hpres; [now apply firstn_Forall|exact Hm]. }
  assert (Hlen : (Z.of_nat (length cut) <= Z.max 1 (maxLen - 1))%Z).
  { unfold cut. destruct (Z.of_nat (length merged) >? Z.max 1 (maxLen - 1))%Z eqn:E.
    - pose proof (replaceAll_trailing_length cls
                    (firstn (Z.to_nat (Z.max 1 (maxLen - 1))) merged)) as H1.
      pose proof (firstn_le_length (Z.to_nat (Z.max 1 (maxLen - 1))) merged) as H2.
      lia.
    - pose proof (replaceAll_trailing_length cls merged) as H1.
      rewrite Z.gtb_ltb, Z.ltb_ge in E. lia. }
  assert (Hend : forall pre d, cut = pre ++ [d] -> cls d = false).
  { intros pre d. unfold cut.
    destruct (Z.of_nat (length merged) >? Z.max 1 (maxLen - 1))%Z;
      apply replaceAll_trailing_end. }
  destruct (endsWith (js "。") cut) eqn:E.
  - exfalso. apply endsWith_In in E.
    eapply Forall_forall in Hcut; [|exact E]. discriminate Hcut.
  - exists cut. auto.
Qed.

(** X5: the canonical sentence is one sentence: a core followed by
    the terminal mark, where the core holds none of the code units that
    end a sentence (the ASCII and the full-width marks and the
    ellipsis), does not end in a comma, an enumeration comma, a colon or
    a semicolon of full width, and has at most [max 1 (maxLen - 1)] code
    units.  The same holds of the summary that [processOne] writes, at
    [SUMMARY_MAX_LEN]. *)
Theorem single_sentence (text : str) (maxLen : Z) (r : Run) (content : str) (limit : Z) :
  singleSentence maxLen (toDeclarativeSentence text maxLen)
  /\ singleSentence SUMMARY_MAX_LEN (summaryFor r content limit).
Proof.
  split; [apply toDeclarativeSentence_single|].
  destruct (summaryFor_canonical r content limit) as [t ->].
  apply toDeclarativeSentence_single.
Qed.

(** ** Collapsed white space *)

Lemma spacedOnce_spec (s : str) :
  spacedOnce s = true
  <-> (forall a c d b, s = a ++ c :: d :: b -> is_space c && is_space d = false).
Proof.
  split.
  - induction s as [|x s IH]; intros H a c d b E; [destruct a; discriminate E|].
    destruct s as [|y s]; [destruct a as [|? [|? ?]]; discriminate E|].
    cbn [spacedOnce] in H. apply andb_true_iff in H as [H1 H2].
    destruct a as [|x' a].
    + injection E as <- <- _. now apply negb_true_iff in H1.
    + injection E as _ E. now apply (IH H2 a c d b).
  - induction s as [|x s IH]; intro H; [reflexivity|].
    destruct s as [|y s]; [reflexivity|]. cbn [spacedOnce].
    apply andb_true_iff. split.
    + apply negb_true_iff. now apply (H [] x y s).
    + apply IH. intros a c d b E. apply (H (x :: a) c d b). now rewrite E.
Qed.

Lemma spacedOnce_rev (s : str) : spacedOnce s = true -> spacedOnce (rev s) = true.
Proof.
  rewrite !spacedOnce_spec. intros H a c d b E.
  apply (f_equal (@rev N)) in E. rewrite rev_involutive in E.
  rewrite rev_app_distr in E. cbn [rev] in E. rewrite <- !app_assoc in E.
  cbn [app] in E. rewrite andb_comm. now apply (H (rev b) d c (rev a)).
Qed.

Lemma spacedOnce_dropWhile (p : N -> bool) (s : str) :
  spacedOnce s = true -> spacedOnce (dropWhile p s) = true.
Proof.
  induction s as [|c s IH]; [auto|]. intro H. cbn [dropWhile].
  destruct (p c); [|exact H]. apply IH.
  destruct s as [|d s]; [reflexivity|]. cbn [spacedOnce] in H.
  now apply andb_true_iff in H as [_ H].
Qed.

Lemma spacedOnce_trim (s : str) : spacedOnce s = true -> spacedOnce (trim s) = true.
Proof.
  intro H. unfold trim, trimStart, trimEnd.
  now apply spacedOnce_rev, spacedOnce_dropWhile, spacedOnce_rev, spacedOnce_dropWhile.
Qed.

Lemma dropWhile_idem (p : N -> bool) (s : str) :
  dropWhile p (dropWhile p s) = dropWhile p s.
Proof.
  induction s as [|c s IH]; [reflexivity|]. cbn [dropWhile].
  destruct (p c) eqn:E; [exact IH|]. cbn [dropWhile]. now rewrite E.
Qed.

Lemma dropWhile_length (p : N -> bool) (s : str) :
  (length (dropWhile p s) <= length s)%nat.
Proof.
  induction s as [|c s IH]; simpl; [lia|]. destruct (p c); simpl; lia.
Qed.

Lemma dropWhile_fixed_prefix (p : N -> bool) (a b : str) :
  dropWhile p (a ++ b) = a ++ b -> a <> [] -> dropWhile p a = a.
Proof.
  destruct a as [|c a]; [contradiction|]. intros H _.
  cbn [app dropWhile] in *. destruct (p c); [|reflexivity].
  pose proof (dropWhile_length p (a ++ b)) as L. rewrite H in L. simpl in L. lia.
Qed.

Lemma trim_idem (s : str) : trim (trim s) = trim s.
Proof.
  unfold trim, trimStart, trimEnd.
  set (y := dropWhile is_space s). set (z := dropWhile is_space (rev y)).
  destruct (dropWhile_prefix is_space (rev y)) as (lead & E & _). fold z in E.
  assert (Ey : y = rev z ++ rev lead).
  { rewrite <- rev_app_distr, <- E. symmetry. apply rev_involutive. }
  assert (Hy : dropWhile is_space y = y) by apply dropWhile_idem.
  assert (Hz : dropWhile is_space z = z) by apply dropWhile_idem.
  destruct (rev z) as [|c q] eqn:Ez.
  - simpl. assert (z = []) as ->; [|reflexivity].
    apply (f_equal (@rev N)) in Ez. now rewrite rev_involutive in Ez.
  - rewrite Ey in Hy. apply dropWhile_fixed_prefix in Hy; [|discriminate].
    rewrite Hy, <- Ez, rev_involutive, Hz. reflexivity.
Qed.

Lemma replaceAll_newlines_one_line (s : str) : ~ In LF (replaceAll re_newlines s).
Proof.
  apply Forall_not_In. unfold replaceAll.
  apply scan_Forall with (R := fun _ => True).
  - intros prev t n out H. unfold re_newlines in H.
    destruct t as [|c r]; [discriminate|].
    destruct (c =? CR)%N.
    + destruct (1 <=? span_len (N.eqb LF) r)%nat; [|discriminate].
      injection H as _ <-. repeat constructor. discriminate.
    + destruct (1 <=? span_len (N.eqb LF) (c :: r))%nat; [|discriminate].
      injection H as _ <-. repeat constructor. discriminate.
  - intros prev c t _. destruct (N.eq_dec c LF) as [->|Hc].
    + reflexivity.
    + now destruct (re_newlines prev (c :: t)) as [[[|n] out]|].
  - apply Forall_forall. auto.
Qed.

Lemma scan_run_skip (k : nat) (cls : N -> bool) (o : str) (s : str) :
  forall j prev,
    scan (re_run k cls o) j prev s = scan (re_run k cls o) 0 None (skipn j s).
Proof.
  induction s as [|c s IH]; intros [|j] prev; try reflexivity.
  cbn [scan skipn]. apply IH.
Qed.

Lemma span_len_stop (p : N -> bool) (s : str) :
  match skipn (span_len p s) s with c :: _ => p c = false | [] => True end.
Proof.
  induction s as [|c s IH]; simpl; [exact I|].
  destruct (p c) eqn:E; simpl; [exact IH|exact E].
Qed.

Lemma spacedOnce_cons (c : N) (r : str) :
  is_space c && headSpace r = false -> spacedOnce r = true -> spacedOnce (c :: r) = true.
Proof.
  intros H1 H2. destruct r as [|d r]; [reflexivity|].
  change (spacedOnce (c :: d :: r))
    with (negb (is_space c && is_space d) && spacedOnce (d :: r)).
  cbn [headSpace] in H1. now rewrite H1, H2.
Qed.

(** After [/\s{2,}/g] is replaced by one blank, no two white-space
    code units are adjacent. *)
Lemma collapse_runs (n : nat) (s : str) :
  (length s <= n)%nat ->
  let out := scan (re_run 2 is_space (js " ")) 0 None s in
  spacedOnce out = true /\ (headSpace out = true -> headSpace s = true).
Proof.
  revert s. induction n as [|n IH]; intros s Hn.
  { destruct s; [split; auto|simpl in Hn; lia]. }
  destruct s as [|c s]; [split; auto|]. cbv zeta.
  cbn [scan].
  set (k := span_len is_space (c :: s)).
  assert (Em : re_run 2 is_space (js " ") None (c :: s)
               = if ((1 <=? k)%nat && (2 <=? k)%nat) then Some (k, js " ") else None)
    by reflexivity.
  rewrite Em. clear Em.
  pose proof (span_len_stop is_space (c :: s)) as Hstop. fold k in Hstop.
  destruct ((1 <=? k)%nat && (2 <=? k)%nat) eqn:E.
  - apply andb_true_iff in E as [E1 E2]. apply Nat.leb_le in E1, E2.
    destruct k as [|k'] eqn:Ek; [lia|].
    rewrite scan_run_skip.
    assert (Hc : is_space c = true).
    { unfold k in Ek. simpl in Ek. destruct (is_space c); [reflexivity|discriminate]. }
    change (skipn (S k') (c :: s)) with (skipn k' s) in Hstop.
    assert (Hl : (length (skipn k' s) <= n)%nat).
    { rewrite length_skipn. simpl in Hn. lia. }
    destruct (IH (skipn k' s) Hl) as [I1 I2]. cbv zeta in I1, I2.
    split; [|intros _; exact Hc].
    change (js " " ++ scan (re_run 2 is_space (js " ")) 0 None (skipn k' s))
      with (32%N :: scan (re_run 2 is_space (js " ")) 0 None (skipn k' s)).
    apply spacedOnce_cons; [|exact I1].
    destruct (headSpace (scan (re_run 2 is_space (js " ")) 0 None (skipn k' s))) eqn:Eh;
      [|apply andb_false_r].
    specialize (I2 eq_refl). destruct (skipn k' s) as [|d r]; [discriminate I2|].
    simpl in I2. congruence.
  - assert (Hl : (length s <= n)%nat) by (simpl in Hn; lia).
    rewrite scan_run_skip. cbn [skipn].
    destruct (IH s Hl) as [I1 I2]. cbv zeta in I1, I2.
    split.
    + apply spacedOnce_cons; [|exact I1].
      destruct (is_space c) eqn:Hc; [|reflexivity]. cbn [andb].
      destruct (headSpace (scan (re_run 2 is_space (js " ")) 0 None s)) eqn:Eh;
        [|reflexivity].
      specialize (I2 eq_refl). destruct s as [|d r]; [discriminate I2|].
      cbn [headSpace] in I2. unfold k in E. cbn [span_len] in E.
      rewrite Hc, I2 in E. discriminate E.
    + cbn [headSpace]. intro H. exact H.
Qed.

Lemma collapseBlanks_normalised (text : str) : normalised (collapseBlanks text).
Proof.
  unfold collapseBlanks. repeat split.
  - apply Forall_not_In, trim_Forall. apply replaceAll_preserves.
    + intros prev t n out H. apply re_run_out in H as [-> _].
      repeat constructor. discriminate.
    + apply Forall_not_In, replaceAll_newlines_one_line.
  - apply spacedOnce_trim. unfold replaceAll.
    apply (collapse_runs (length (scan re_newlines 0 None text))). lia.
  - apply trim_idem.
Qed.

(** X6: the text that comes out of the collapse of white space, and
    with it the cleaned body of [sanitizeBodyForAPI] and the plain text
    of [localGenerateSummary], holds no line feed, no two adjacent
    white-space code units and no white space at either end. *)
Theorem plain_text_normalised (text body : str) :
  normalised (collapseBlanks text)
  /\ normalised (plainText body)
  /\ normalised (sanitizeBodyForAPI body).
Proof.
  split; [apply collapseBlanks_normalised|].
  split; [apply collapseBlanks_normalised|].
  destruct body as [|c body]; [repeat split; intros []|].
  apply collapseBlanks_normalised.
Qed.

(** X7: [previewText] is on one line, and its length is at most
    [max + 1] code units for a [max] that is not negative (in general at
    most the larger of that and the length of the collapsed text). *)
Theorem preview_bounded (text : str) (max : Z) :
  ~ In LF (previewText text max)
  /\ (Z.of_nat (length (previewText text max))
      <= Z.max (Z.of_nat (length (collapseBlanks text))) (Z.max 0 max + 1))%Z
  /\ previewText text max
     = if (Z.of_nat (length (collapseBlanks text)) >? max)%Z
       then slice0 (collapseBlanks text) max ++ js "…"
       else collapseBlanks text.
Proof.
  destruct (collapseBlanks_normalised text) as (Hlf & _ & _).
  unfold previewText. cbv zeta.
  destruct (Z.of_nat (length (collapseBlanks text)) >? max)%Z eqn:E.
  - split; [|split; [|reflexivity]].
    + intro H. apply in_app_or in H as [H|H].
      * unfold slice0 in H. destruct (max <? 0)%Z; apply firstn_In in H; contradiction.
      * simpl in H. intuition discriminate.
    + rewrite length_app. change (length (js "…")) with 1%nat.
      unfold slice0. destruct (max <? 0)%Z eqn:En.
      * rewrite length_firstn. apply Z.ltb_lt in En. lia.
      * rewrite length_firstn. apply Z.ltb_ge in En. lia.
  - split; [exact Hlf|]. split; [lia|reflexivity].
Qed.

(** ** Truncation, and the summary when the endpoint gives none *)

(** X8: [limitBody] returns a prefix of the body; its length is the
    length of the body when the limit is not positive and the smaller of
    the two otherwise; limiting twice is limiting once, so the [content]
    field of the request that [callSummaryAPI] builds from a limited
    body is that limited body, whatever the credential. *)
Theorem limitBody_prefix (body : str) (maxChars : Z) (api : str) (key : option str)
  (title : str) :
  limitBody body maxChars = firstn (length (limitBody body maxChars)) body
  /\ Z.of_nat (length (limitBody body maxChars))
     = (if (maxChars <=? 0)%Z then Z.of_nat (length body)
        else Z.min (Z.of_nat (length body)) maxChars)
  /\ limitBody (limitBody body maxChars) maxChars = limitBody body maxChars
  /\ get (payload (buildRequest api key title (limitBody body maxChars) maxChars))
       (js "content")
     = Some (JString (limitBody body maxChars)).
Proof.
  assert (Hidem : limitBody (limitBody body maxChars) maxChars = limitBody body maxChars).
  { unfold limitBody. destruct (maxChars <=? 0)%Z eqn:E0; [reflexivity|].
    apply Z.leb_gt in E0.
    destruct (Z.of_nat (length body) >? maxChars)%Z eqn:E1.
    - rewrite length_firstn.
      destruct (Z.of_nat (Nat.min (Z.to_nat maxChars) (length body)) >? maxChars)%Z eqn:E2.
      + rewrite Z.gtb_ltb in E2. apply Z.ltb_lt in E2. lia.
      + reflexivity.
    - now rewrite E1. }
  split; [|split; [|split; [exact Hidem|]]].
  - unfold limitBody. destruct (maxChars <=? 0)%Z; [now rewrite firstn_all|].
    destruct (Z.of_nat (length body) >? maxChars)%Z eqn:E1.
    + rewrite length_firstn. f_equal.
      rewrite Z.gtb_ltb in E1. apply Z.ltb_lt in E1. lia.
    + now rewrite firstn_all.
  - unfold limitBody. destruct (maxChars <=? 0)%Z eqn:E0; [reflexivity|].
    apply Z.leb_gt in E0.
    destruct (Z.of_nat (length body) >? maxChars)%Z eqn:E1.
    + rewrite length_firstn. rewrite Z.gtb_ltb in E1. apply Z.ltb_lt in E1. lia.
    + rewrite Z.gtb_ltb in E1. apply Z.ltb_ge in E1. lia.
  - unfold buildRequest. rewrite Hidem.
    destruct key as [[|c k]|]; [reflexivity| |reflexivity].
    destruct (isASCII (c :: k)); reflexivity.
Qed.

(** X9: when no endpoint is configured, or when the endpoint gives
    no summary (a network error, a status that is not 2xx, a body that
    is no JSON or has no string [summary]) or a blank one, the summary
    is the canonical sentence of the local summary of title and limited
    body, whether the body is cleaned before submission or not. *)
Theorem api_failure_falls_back (r : Run) (content : str) (limit : Z) :
  hasCustomAPI (settings r) = false
  \/ (forall rq, summaryOf (fetch r rq) = None \/ summaryOf (fetch r rq) = Some []) ->
  summaryFor r content limit
  = toDeclarativeSentence
      (localGenerateSummary
         (readTitleFromFrontmatter (fst (splitFrontmatterAndBody content)))
         (limitBody (extractBodyOnly content) limit) SUMMARY_MAX_LEN)
      SUMMARY_MAX_LEN.
Proof.
  intro H. unfold summaryFor.
  match goal with
  | |- snd (chooseSummary ?a _ _) = _ =>
      assert (E : a = None \/ a = Some []); [|destruct E as [-> | ->]; reflexivity]
  end.
  destruct H as [H|H].
  - rewrite H. now left.
  - destruct (hasCustomAPI (settings r)); [|now left].
    unfold callSummaryAPI.
    destruct (or_else (cfg_api (settings r)) (env_api (settings r))) as [[|c a]|];
      auto.
Qed.

Lemma api_failure_falls_back_witness :
  summaryFor failingRun sampleDocument 8000 = js "Bodytext。"
  /\ summaryFor (localRun always []) sampleDocument 8000 = js "Bodytext。".
Proof.
  split.
  - rewrite (api_failure_falls_back failingRun sampleDocument 8000
               (or_intror (fun _ => or_introl eq_refl))).
    vm_compute. reflexivity.
  - rewrite (api_failure_falls_back (localRun always []) sampleDocument 8000
               (or_introl eq_refl)).
    vm_compute. reflexivity.
Defined.

(** ** The settings *)

Lemma positiveOrNull_positive (v : option Z) (c : Z) :
  positiveOrNull v = Some c -> (0 < c)%Z.
Proof.
  destruct v as [x|]; [|discriminate]. unfold positiveOrNull.
  destruct (finiteNumber x); [|discriminate]. cbn [andb].
  destruct (0 <? x)%Z eqn:E; [|discriminate].
  intro H. injection H as <-. now apply Z.ltb_lt.
Qed.

(** X10: the number configured for the concurrency is at least 1 (a
    zero or a negative setting is not a setting, and the default is 3),
    so [getConcurrency] is the smaller of 5 and that number.  [run]
    starts no worker when no article is found; when there is one, it
    starts at least one worker and at most as many as the concurrency
    says, and exactly one under the policy [ask]. *)
Theorem concurrency_bounds (file env : option str) (policy : OverwritePolicy)
  (files : list path) :
  let v := configuredConcurrency file env in
  let c := getConcurrency file env in
  let w := workerCount files policy c in
  (1 <= v)%Z
  /\ c = Z.min 5 v
  /\ (0 <= w <= c)%Z
  /\ (w = 0%Z <-> files = [])
  /\ (files <> [] -> (1 <= w)%Z /\ (policy = ask -> w = 1%Z)).
Proof.
  cbv zeta.
  assert (Hv : (1 <= configuredConcurrency file env)%Z).
  { unfold configuredConcurrency.
    destruct (readConcurrencyFromCustom file) as [c|] eqn:E1.
    - unfold readConcurrencyFromCustom in E1. destruct file as [content|]; [|discriminate].
      destruct (comment_match _ _ _ _); [|discriminate].
      apply positiveOrNull_positive in E1. lia.
    - destruct (readConcurrencyFromEnv env) as [c|] eqn:E2; [|lia].
      apply positiveOrNull_positive in E2. lia. }
  assert (Hc : getConcurrency file env = Z.min 5 (configuredConcurrency file env)).
  { unfold getConcurrency, clampConcurrency. fold (configuredConcurrency file env). lia. }
  split; [exact Hv|]. split; [exact Hc|].
  rewrite Hc. set (c := Z.min 5 (configuredConcurrency file env)).
  assert (H1 : (1 <= c)%Z) by (unfold c; lia).
  unfold workerCount. destruct files as [|f files].
  - split; [lia|]. split; [tauto|]. intro H. contradiction.
  - cbv zeta.
    assert (Hw : (1 <= match policy with
                       | ask => if (c >? 1)%Z then 1 else c
                       | _ => c
                       end <= c)%Z).
    { destruct policy; try lia. destruct (c >? 1)%Z; lia. }
    split; [lia|]. split; [split; [lia|discriminate]|].
    intros _. split; [lia|]. intros ->.
    destruct (c >? 1)%Z eqn:E; [reflexivity|].
    rewrite Z.gtb_ltb in E. apply Z.ltb_ge in E. lia.
Qed.

Lemma policyOfWord_ask (v : str) : policyOfWord v = Some ask <-> v = js "ask".
Proof.
  unfold policyOfWord. destruct (str_eqb v (js "ask")) eqn:E.
  - apply str_eqb_eq in E. tauto.
  - split.
    + repeat match goal with
             | |- context [if ?b then _ else _] => destruct b
             end; discriminate.
    + intros ->. discriminate E.
Qed.

(** The policy is [ask] when the configuration file says so, or says
    nothing while the environment says so, or when neither says
    anything and the session is interactive. *)
Lemma getOverwritePolicy_ask (file env : option str) (interactive : bool) :
  getOverwritePolicy file env interactive = ask
  <-> (exists content w,
          file = Some content /\ policy_match None content = Some w
          /\ toLowerCase w = js "ask")
      \/ (readOverwritePolicyFromCustom file = None
          /\ exists v, env = Some v /\ toLowerCase (trim v) = js "ask")
      \/ (readOverwritePolicyFromCustom file = None
          /\ readOverwritePolicyFromEnv env = None /\ interactive = true).
Proof.
  assert (Hfile : forall p, readOverwritePolicyFromCustom file = Some p ->
            (p = ask <-> exists content w,
                file = Some content /\ policy_match None content = Some w
                /\ toLowerCase w = js "ask")).
  { intros p Hp. unfold readOverwritePolicyFromCustom in Hp.
    destruct file as [content|]; [|discriminate].
    destruct (policy_match None content) as [w|] eqn:Em; [|discriminate].
    split.
    - intros ->. exists content, w. repeat split; auto. now apply policyOfWord_ask.
    - intros (content' & w' & Hc & Hm & Hw). injection Hc as <-.
      rewrite Em in Hm. injection Hm as <-.
      apply policyOfWord_ask in Hw. congruence. }
  assert (Henv : forall p, readOverwritePolicyFromEnv env = Some p ->
            (p = ask <-> exists v, env = Some v /\ toLowerCase (trim v) = js "ask")).
  { intros p Hp. unfold readOverwritePolicyFromEnv in Hp.
    destruct env as [v|].
    - destruct (toLowerCase (trim v)) as [|c raw] eqn:Er; [discriminate|].
      split.
      + intros ->. exists v. split; [reflexivity|]. rewrite Er.
        now apply policyOfWord_ask.
      + intros (v' & Hv & Hw). injection Hv as <-. rewrite Er in Hw.
        apply policyOfWord_ask in Hw. congruence.
    - discriminate Hp. }
  unfold getOverwritePolicy.
  destruct (readOverwritePolicyFromCustom file) as [p|] eqn:Ef.
  - rewrite (Hfile p eq_refl). split; [tauto|].
    intros [H|[[H _]|[H _]]]; [exact H|discriminate H..].
  - assert (Hno : ~ exists content w,
                file = Some content /\ policy_match None content = Some w
                /\ toLowerCase w = js "ask").
    { intros (content & w & -> & Hm & Hw). unfold readOverwritePolicyFromCustom in Ef.
      rewrite Hm in Ef. apply policyOfWord_ask in Hw. congruence. }
    destruct (readOverwritePolicyFromEnv env) as [p|] eqn:Ee.
    + rewrite (Henv p eq_refl). split.
      * intro H. right. left. split; [reflexivity|exact H].
      * intros [H|[[_ H]|(_ & H & _)]]; [contradiction|exact H|discriminate H].
    + assert (Hnone : ~ exists v, env = Some v /\ toLowerCase (trim v) = js "ask").
      { intros (v & -> & Hw). unfold readOverwritePolicyFromEnv in Ee.
        rewrite Hw in Ee. discriminate Ee. }
      destruct interactive; split.
      * intros _. right. right. repeat split.
      * reflexivity.
      * discriminate.
      * intros [H|[[_ H]|(_ & _ & H)]]; [contradiction|contradiction|discriminate H].
Qed.

(** X11: under the policy that [run] computes, [processOne] asks the
    user about a document exactly when the document has a summary in
    its front-matter and one of three things holds: the line of the
    configuration file for the policy has a word whose lower case is
    [ask]; or the file gives no policy and the environment variable,
    trimmed and lowered, is [ask]; or neither gives a policy and
    standard input and standard output are both terminals.  A run
    without a terminal thus asks nothing unless [ask] is set
    explicitly. *)
Theorem prompt_only_when_asked (file env : option str) (stdinTTY stdoutTTY : bool)
  (r : Run) (content : str) (limit : Z) :
  overwritePolicy r = getOverwritePolicy file env (isInteractive stdinTTY stdoutTTY) ->
  (prompted (processOne r content limit) = true
   <-> hasSummaryInFrontmatter (fst (splitFrontmatterAndBody content)) = true
       /\ ((exists text w,
               file = Some text /\ policy_match None text = Some w
               /\ toLowerCase w = js "ask")
           \/ (readOverwritePolicyFromCustom file = None
               /\ exists v, env = Some v /\ toLowerCase (trim v) = js "ask")
           \/ (readOverwritePolicyFromCustom file = None
               /\ readOverwritePolicyFromEnv env = None
               /\ stdinTTY = true /\ stdoutTTY = true)))
  /\ (stdinTTY && stdoutTTY = false ->
      readOverwritePolicyFromCustom file <> Some ask ->
      readOverwritePolicyFromEnv env <> Some ask ->
      prompted (processOne r content limit) = false).
Proof.
  intro Hr.
  assert (Hp : prompted (processOne r content limit) = true
               <-> hasSummaryInFrontmatter (fst (splitFrontmatterAndBody content)) = true
                   /\ overwritePolicy r = ask).
  { unfold processOne.
    destruct (hasSummaryInFrontmatter _); [|cbn; intuition discriminate].
    destruct (overwritePolicy r); cbn; try intuition discriminate.
    destruct (promptYesNo _ _); cbn; tauto. }
  split.
  - rewrite Hp, Hr, getOverwritePolicy_ask. unfold isInteractive.
    rewrite andb_true_iff. tauto.
  - intros Htty Hf He.
    apply not_true_is_false. intro E.
    apply Hp in E as [_ E]. rewrite Hr in E.
    unfold getOverwritePolicy, isInteractive in E. rewrite Htty in E.
    destruct (readOverwritePolicyFromCustom file) as [p|]; [congruence|].
    destruct (readOverwritePolicyFromEnv env) as [p|]; [congruence|discriminate E].
Qed.

(** The theorem for a session without a terminal in which the
    configuration file says [ASK], at a document that has a summary,
    and for one in which nothing is configured. *)
Lemma prompt_only_when_asked_witness :
  prompted (processOne (localRun ask []) summarisedDocument 8000) = true
  /\ prompted (processOne (localRun never []) summarisedDocument 8000) = false.
Proof.
  split.
  - apply (prompt_only_when_asked (Some (policyFile (js "ASK"))) None false false
             (localRun ask []) summarisedDocument 8000
             ltac:(vm_compute; reflexivity)).
    split; [vm_compute; reflexivity|].
    left. exists (policyFile (js "ASK")), (js "ASK").
    repeat split; vm_compute; reflexivity.
  - apply (prompt_only_when_asked None None false false
             (localRun never []) summarisedDocument 8000
             ltac:(vm_compute; reflexivity));
      [reflexivity|discriminate|discriminate].
Defined.

(** ** The cleaning flag *)

Lemma lower_unit_canon (x y : N) :
  lowerOrDigit x = true -> (canon_i x =? canon_i y)%N = true -> lower_unit y = [x].
Proof.
  unfold lowerOrDigit, is_digit, canon_i, lower_unit, in_range. intros Hx H.
  apply N.eqb_eq in H.
  destruct ((97 <=? x) && (x <=? 122))%N eqn:Ex;
    destruct ((97 <=? y) && (y <=? 122))%N eqn:Ey;
    destruct ((65 <=? y) && (y <=? 90))%N eqn:Ey';
    destruct (y =? 8490)%N eqn:E1; destruct (y =? 304)%N eqn:E2;
    cbn [orb] in Hx;
    repeat match goal with
           | H : (_ && _)%bool = true |- _ => apply andb_true_iff in H as [? ?]
           | H : (_ && _)%bool = false |- _ => apply andb_false_iff in H
           | H : (_ <=? _)%N = true |- _ => apply N.leb_le in H
           | H : (_ =? _)%N = true |- _ => apply N.eqb_eq in H
           | H : (_ =? _)%N = false |- _ => apply N.eqb_neq in H
           end;
    try (f_equal; f_equal; lia); try lia;
    rewrite ?N.leb_gt in *; try (f_equal; lia); try lia.
Qed.

Lemma startsWith_i_lower (w s : str) :
  forallb lowerOrDigit w = true -> startsWith_i w s = true ->
  toLowerCase (firstn (length w) s) = w.
Proof.
  revert s. induction w as [|x w IH]; intros s Hw H; [reflexivity|].
  destruct s as [|y s]; [discriminate H|].
  cbn [forallb] in Hw. apply andb_true_iff in Hw as [Hx Hw].
  cbn [startsWith_i] in H. apply andb_true_iff in H as [Hc H].
  cbn [length firstn]. unfold toLowerCase. cbn [flat_map].
  rewrite (lower_unit_canon x y Hx Hc). fold (toLowerCase (firstn (length w) s)).
  now rewrite IH.
Qed.

Lemma clean_word_lower (s w : str) :
  clean_word s = Some w ->
  In (toLowerCase w) [js "true"; js "false"; js "1"; js "0"].
Proof.
  unfold clean_word. cbv beta zeta.
  repeat match goal with
         | |- context [startsWith_i ?x s && ?b] =>
             let E := fresh "E" in
             destruct (startsWith_i x s) eqn:E; cbn [andb];
             [destruct b;
              [intro H; injection H as <-;
               pose proof (startsWith_i_lower x s eq_refl E) as L; cbn [In];
               first [left; symmetry; exact L
                     |right; left; symmetry; exact L
                     |right; right; left; symmetry; exact L
                     |right; right; right; left; symmetry; exact L]|]|]
         end;
    discriminate.
Qed.

Lemma clean_match_lower (s : str) :
  forall prev w, clean_match prev s = Some w ->
  In (toLowerCase w) [js "true"; js "false"; js "1"; js "0"].
Proof.
  assert (Hl : forall prev t w, clean_line prev t = Some w ->
                 In (toLowerCase w) [js "true"; js "false"; js "1"; js "0"]).
  { intros prev t w. unfold clean_line.
    destruct (_ && _); [apply clean_word_lower|discriminate]. }
  induction s as [|c s IH]; intros prev w; cbn [clean_match].
  - destruct (clean_line prev []) eqn:E; [|discriminate].
    intro H. injection H as <-. eapply Hl, E.
  - destruct (clean_line prev (c :: s)) eqn:E.
    + intro H. injection H as <-. eapply Hl, E.
    + apply IH.
Qed.

(** X12: the reader of the cleaning flag in the environment is the
    lookup of the trimmed, lowered value among eight words, the reader in
    the configuration file the lookup of the matched word among four;
    and when the expression of the file reader matches, the reader
    returns a flag, so its final [return null] is not reached. *)
Theorem clean_flag_from_table (file env : option str) (content : str) :
  readCleanBeforeAPIFromEnv env
  = lookupFlag cleanWordsEnv
      (toLowerCase (trim (match env with Some e => e | None => [] end)))
  /\ readCleanBeforeAPIFromCustom file
     = match file with
       | None => None
       | Some c =>
           match clean_match None c with
           | None => None
           | Some w => lookupFlag cleanWordsFile (toLowerCase w)
           end
       end
  /\ match clean_match None content with
     | Some w => exists b, readCleanBeforeAPIFromCustom (Some content) = Some b
     | None => readCleanBeforeAPIFromCustom (Some content) = None
     end.
Proof.
  assert (Hfile : forall v,
            (if str_eqb v (js "true") || str_eqb v (js "1") then Some true
             else if str_eqb v (js "false") || str_eqb v (js "0") then Some false
                  else None)
            = lookupFlag cleanWordsFile v).
  { intro v. unfold lookupFlag, cleanWordsFile. cbn [find fst].
    repeat match goal with
           | |- context [str_eqb v ?x] => destruct (str_eqb v x); [reflexivity|]
           end.
    reflexivity. }
  split; [|split].
  - unfold readCleanBeforeAPIFromEnv.
    destruct (trim _) as [|c raw] eqn:E; [reflexivity|].
    cbv zeta. set (v := toLowerCase (c :: raw)).
    unfold lookupFlag, cleanWordsEnv, includes. cbn [find fst existsb].
    repeat match goal with
           | |- context [str_eqb v ?x] => destruct (str_eqb v x); [reflexivity|]
           end.
    reflexivity.
  - destruct file as [c|]; [|reflexivity]. cbn [readCleanBeforeAPIFromCustom].
    destruct (clean_match None c); [apply Hfile|reflexivity].
  - cbn [readCleanBeforeAPIFromCustom].
    destruct (clean_match None content) as [w|] eqn:E; [|reflexivity].
    cbv zeta. apply clean_match_lower in E. cbn [In] in E.
    destruct E as [<-|[<-|[<-|[<-|[]]]]];
      [exists true|exists false|exists true|exists false]; reflexivity.
Qed.

(** ** The articles that are found *)

Lemma str_eqb_length (a b : str) : str_eqb a b = true -> length a = length b.
Proof. intro H. apply str_eqb_eq in H. now subst. Qed.

Lemma endsWith_cons (suf : str) (c : N) (s : str) :
  suf <> [] -> endsWith suf (c :: s) = str_eqb (c :: s) suf || endsWith suf s.
Proof.
  intro Hne. unfold endsWith. change (length (c :: s)) with (S (length s)).
  destruct (Nat.leb_spec (length suf) (length s)) as [H|H].
  - assert (E : str_eqb (c :: s) suf = false).
    { destruct (str_eqb (c :: s) suf) eqn:E; [|reflexivity].
      apply str_eqb_length in E. simpl in E. lia. }
    rewrite E. cbn [orb andb].
    assert (L : (length suf <=? S (length s))%nat = true) by (apply Nat.leb_le; lia).
    rewrite L. cbn [andb]. rewrite Nat.sub_succ_l by exact H. reflexivity.
  - rewrite orb_false_r.
    destruct (Nat.eq_dec (length suf) (S (length s))) as [E|E].
    + rewrite E, Nat.leb_refl, Nat.sub_diag. reflexivity.
    + assert (L : (length suf <=? S (length s))%nat = false) by (apply Nat.leb_gt; lia).
      rewrite L. cbn [andb].
      destruct (str_eqb (c :: s) suf) eqn:E'; [|reflexivity].
      apply str_eqb_length in E'. simpl in E'. lia.
Qed.

Lemma startsWith_spec (p s : str) :
  startsWith p s = true -> s = p ++ skipn (length p) s.
Proof.
  revert s. induction p as [|x p IH]; intro s; [reflexivity|].
  destruct s as [|y s]; simpl; [discriminate|]. intro H.
  apply andb_true_iff in H as [H1 H2]. apply N.eqb_eq in H1. subst y.
  f_equal. now apply IH.
Qed.

Lemma re_index_here (prev : option N) (s : str) :
  match re_index prev s with Some _ => true | None => false end
  = str_eqb s (js "index.md") || str_eqb s (js "index.mdx").
Proof.
  unfold re_index. destruct (startsWith (js "index.md") s) eqn:E.
  - apply startsWith_spec in E. change (length (js "index.md")) with 8%nat in E.
    rewrite E. set (t := skipn 8 s).
    change (skipn 8 (js "index.md" ++ t)) with t. cbn [andb].
    destruct t as [|c [|d t]].
    + reflexivity.
    + change (str_eqb (js "index.md" ++ [c]) (js "index.md")) with false.
      change (str_eqb (js "index.md" ++ [c]) (js "index.mdx")) with ((c =? 120)%N && true).
      rewrite andb_true_r. now destruct (c =? 120)%N.
    + change (str_eqb (js "index.md" ++ c :: d :: t) (js "index.md")) with false.
      change (str_eqb (js "index.md" ++ c :: d :: t) (js "index.mdx"))
        with ((c =? 120)%N && false).
      now rewrite andb_false_r.
  - cbn [andb].
    assert (H : forall w, startsWith (js "index.md") w = true -> str_eqb s w = false).
    { intros w Hw. destruct (str_eqb s w) eqn:E'; [|reflexivity].
      apply str_eqb_eq in E'. subst w. congruence. }
    now rewrite !H.
Qed.

Lemma test_index (name : str) : test re_index name = isIndexName name.
Proof.
  unfold test, isIndexName. generalize (@None N).
  induction name as [|c name IH]; intro prev; [reflexivity|].
  rewrite test_from_eq, !endsWith_cons by discriminate.
  pose proof (re_index_here prev (c :: name)) as H.
  destruct (re_index prev (c :: name));
    destruct (str_eqb (c :: name) (js "index.md")),
             (str_eqb (c :: name) (js "index.mdx"));
    cbn [orb] in *; try discriminate H; rewrite ?orb_true_r; try reflexivity.
  apply IH.
Qed.

Lemma last_snoc {A : Type} (l : list A) (x d : A) : last (l ++ [x]) d = x.
Proof.
  induction l as [|a l IH]; [reflexivity|].
  change ((a :: l) ++ [x]) with (a :: (l ++ [x])).
  destruct (l ++ [x]) eqn:E; [destruct l; discriminate E|exact IH].
Qed.

(** Induction on a directory tree. *)
Lemma node_ind' (P : node -> Prop) :
  (forall name, P (File name)) ->
  (forall name items, Forall P items -> P (Dir name items)) ->
  (forall name, P (Other name)) ->
  forall n, P n.
Proof.
  intros HF HD HO. fix IH 1. intros [name|name items|name]; [apply HF| |apply HO].
  apply HD. induction items as [|x r IHr]; constructor; [apply IH|exact IHr].
Qed.

Lemma entriesOf_Dir (dir : path) (name : str) (items : list node) :
  entriesOf dir (Dir name items) = flat_map (entriesOf (dir ++ [name])) items.
Proof.
  induction items as [|x rest IH]; [reflexivity|].
  cbn [flat_map]. rewrite <- IH. reflexivity.
Qed.

Lemma filesOf_Dir (dir : path) (name : str) (items : list node) :
  filesOf dir (Dir name items) = flat_map (filesOf (dir ++ [name])) items.
Proof.
  induction items as [|x rest IH]; [reflexivity|].
  cbn [flat_map]. rewrite <- IH. reflexivity.
Qed.

Lemma entriesOf_files (item : node) :
  forall dir,
    entriesOf dir item
    = filter (fun p => isIndexName (last p [])) (filesOf dir item).
Proof.
  induction item as [name|name items IH|name] using node_ind'; intro dir.
  - cbn [entriesOf filesOf filter]. rewrite last_snoc, test_index.
    reflexivity.
  - rewrite entriesOf_Dir, filesOf_Dir.
    induction IH as [|x rest Hx Hrest IHrest]; [reflexivity|].
    cbn [flat_map]. now rewrite filter_app, Hx, IHrest.
  - reflexivity.
Qed.

(** X13: [findMarkdownEntries] returns, in the order of the
    listing, the files below the directory whose name ends in
    [index.md] or [index.mdx], which is what its expression tests; a
    directory is descended into whatever its name, and an entry that is
    neither a file nor a directory is left out. *)
Theorem entries_are_index_files (dir : path) (items : list node) (name : str) :
  findMarkdownEntries dir items
  = filter (fun p => isIndexName (last p [])) (allFiles dir items)
  /\ test re_index name = isIndexName name
  /\ findMarkdownEntries dir [File name] = (if isIndexName name then [dir ++ [name]] else [])
  /\ findMarkdownEntries dir [Dir name items] = findMarkdownEntries (dir ++ [name]) items
  /\ findMarkdownEntries dir [Other name] = [].
Proof.
  assert (H : forall d its, findMarkdownEntries d its
                            = filter (fun p => isIndexName (last p [])) (allFiles d its)).
  { intros d its. unfold findMarkdownEntries, allFiles.
    induction its as [|x rest IH]; [reflexivity|].
    cbn [flat_map]. now rewrite filter_app, IH, entriesOf_files. }
  split; [apply H|]. split; [apply test_index|].
  split; [|split; [|reflexivity]].
  - unfold findMarkdownEntries. cbn [flat_map entriesOf]. rewrite test_index.
    now rewrite app_nil_r.
  - unfold findMarkdownEntries. cbn [flat_map]. rewrite app_nil_r.
    apply entriesOf_Dir.
Qed.

(** ** The analytics loader *)

(** X14: [getUmamiDecision] says to load exactly when the build is
    not a development build and the host name contains [blog.ljx.icu];
    the test for the local addresses never changes the answer.
    [injectUmamiScript] appends the script when the decision says so and
    no script with the same source and website id is there; doing it
    twice is doing it once, and it never makes a second such script. *)
Theorem umami_decision (dev : bool) (hostname : str) (scripts : list Script) :
  shouldLoad (getUmamiDecision dev hostname) = negb dev && hostMatches hostname
  /\ injectUmamiScript dev hostname (injectUmamiScript dev hostname scripts)
     = injectUmamiScript dev hostname scripts
  /\ injectUmamiScript dev hostname scripts
     = (if negb dev && hostMatches hostname && negb (existsb isUmamiScript scripts)
        then scripts ++ [umamiScript] else scripts)
  /\ (length (filter isUmamiScript (injectUmamiScript dev hostname scripts))
      <= Nat.max 1 (length (filter isUmamiScript scripts)))%nat.
Proof.
  assert (H : shouldLoad (getUmamiDecision dev hostname) = negb dev && hostMatches hostname).
  { unfold getUmamiDecision, hostMatches. destruct dev; [reflexivity|]. cbn [negb andb].
    destruct (str_eqb hostname (js "localhost")) eqn:E1.
    { apply str_eqb_eq in E1. subst. reflexivity. }
    destruct (str_eqb hostname (js "127.0.0.1")) eqn:E2.
    { apply str_eqb_eq in E2. subst. reflexivity. }
    destruct (str_eqb hostname (js "0.0.0.0")) eqn:E3.
    { apply str_eqb_eq in E3. subst. reflexivity. }
    destruct (str_eqb hostname (js "::1")) eqn:E4.
    { apply str_eqb_eq in E4. subst. reflexivity. }
    cbn [orb]. now destruct (indexOf (js "blog.ljx.icu") hostname). }
  assert (E : injectUmamiScript dev hostname scripts
              = if negb dev && hostMatches hostname && negb (existsb isUmamiScript scripts)
                then scripts ++ [umamiScript] else scripts).
  { unfold injectUmamiScript. rewrite H.
    destruct (negb dev && hostMatches hostname); [|reflexivity].
    now destruct (existsb isUmamiScript scripts). }
  split; [exact H|]. split; [|split; [exact E|]].
  - unfold injectUmamiScript at 1. rewrite H, E.
    destruct (negb dev && hostMatches hostname); [|reflexivity]. cbn [andb].
    destruct (existsb isUmamiScript scripts) eqn:Ex; cbn [negb].
    + now rewrite Ex.
    + rewrite existsb_app. cbn [existsb]. now rewrite orb_true_r.
  - rewrite E.
    destruct (negb dev && hostMatches hostname && negb (existsb isUmamiScript scripts)) eqn:Ec;
      [|lia].
    apply andb_true_iff in Ec as [_ Ec]. apply negb_true_iff in Ec.
    rewrite filter_app, length_app.
    assert (Hn : filter isUmamiScript scripts = []).
    { apply filter_none. apply Forall_forall. intros x Hx.
      destruct (isUmamiScript x) eqn:Eu; [|reflexivity].
      assert (existsb isUmamiScript scripts = true) by (apply existsb_exists; eauto).
      congruence. }
    rewrite Hn. simpl. lia.
Qed.

(** X15: on a production build, for a host name that contains
    [blog.ljx.icu] and a document without the script,
    [injectUmamiScript] appends what the first loader appends; the first
    loader, run twice, appends the script twice. *)
Theorem loader_agrees_with_first (hostname : str) (scripts : list Script) :
  existsb isUmamiScript scripts = false -> hostMatches hostname = true ->
  injectUmamiScript false hostname scripts = firstLoader hostname scripts
  /\ firstLoader hostname scripts = scripts ++ [umamiScript]
  /\ firstLoader hostname (firstLoader hostname scripts)
     = scripts ++ [umamiScript; umamiScript].
Proof.
  intros He Hh.
  assert (E : forall l, firstLoader hostname l = l ++ [umamiScript]).
  { intro l. unfold firstLoader. unfold hostMatches in Hh.
    destruct (indexOf (js "blog.ljx.icu") hostname); [reflexivity|discriminate Hh]. }
  split; [|split; [apply E|]].
  - rewrite E. unfold injectUmamiScript.
    assert (H : shouldLoad (getUmamiDecision false hostname) = true).
    { unfold getUmamiDecision, hostMatches in *.
      destruct (str_eqb hostname (js "localhost")) eqn:E1.
      { apply str_eqb_eq in E1. subst. discriminate Hh. }
      destruct (str_eqb hostname (js "127.0.0.1")) eqn:E2.
      { apply str_eqb_eq in E2. subst. discriminate Hh. }
      destruct (str_eqb hostname (js "0.0.0.0")) eqn:E3.
      { apply str_eqb_eq in E3. subst. discriminate Hh. }
      destruct (str_eqb hostname (js "::1")) eqn:E4.
      { apply str_eqb_eq in E4. subst. discriminate Hh. }
      cbn [orb]. destruct (indexOf (js "blog.ljx.icu") hostname); [reflexivity|discriminate]. }
    now rewrite H, He.
  - rewrite !E, <- app_assoc. reflexivity.
Qed.

Lemma loader_agrees_with_first_witness :
  injectUmamiScript false (js "blog.ljx.icu") [] = firstLoader (js "blog.ljx.icu") [].
Proof.
  exact (proj1 (loader_agrees_with_first (js "blog.ljx.icu") [] eq_refl
                  ltac:(vm_compute; reflexivity))).
Defined.

(** ** The earlier script and the present one *)

Lemma entriesOfEarlier_Dir (dir : path) (name : str) (items : list node) :
  entriesOfEarlier dir (Dir name items)
  = flat_map (entriesOfEarlier (dir ++ [name])) items.
Proof.
  induction items as [|x rest IH]; [reflexivity|].
  cbn [flat_map]. rewrite <- IH. reflexivity.
Qed.

Lemma entriesOfEarlier_asFile (item : node) :
  forall dir, entriesOfEarlier dir item = entriesOf dir (asFile item).
Proof.
  induction item as [name|name items IH|name] using node_ind'; intro dir;
    try reflexivity.
  change (asFile (Dir name items)) with (Dir name (map asFile items)).
  rewrite entriesOfEarlier_Dir, entriesOf_Dir.
  induction IH as [|x rest Hx Hrest IHrest]; [reflexivity|].
  cbn [flat_map map]. now rewrite Hx, IHrest.
Qed.

Lemma entriesOf_sub (item : node) :
  forall dir p, In p (entriesOf dir item) -> In p (entriesOfEarlier dir item).
Proof.
  induction item as [name|name items IH|name] using node_ind'; intros dir p;
    try (cbn [entriesOf entriesOfEarlier In]; tauto).
  rewrite entriesOfEarlier_Dir, entriesOf_Dir, !in_flat_map.
  intros (x & Hx & Hp). exists x. split; [exact Hx|].
  eapply Forall_forall in IH; [|exact Hx]. now apply IH.
Qed.

Lemma startsWith_canon (p s : str) : startsWith p s = true -> startsWith_i p s = true.
Proof.
  revert s. induction p as [|x p IH]; intro s; [reflexivity|].
  destruct s as [|y s]; simpl; [discriminate|]. intro H.
  apply andb_true_iff in H as [H1 H2]. apply N.eqb_eq in H1. subst y.
  now rewrite N.eqb_refl, IH.
Qed.

Lemma re_summary_key_exact_i (s : str) :
  re_summary_key_exact s = true -> re_summary_key s = true.
Proof.
  unfold re_summary_key_exact, re_summary_key. intro H.
  apply andb_true_iff in H as [H1 H2]. now rewrite (startsWith_canon _ _ H1), H2.
Qed.

Lemma summary_key_exact_after_lf_i (s : str) :
  summary_key_exact_after_lf s = true -> summary_key_after_lf s = true.
Proof.
  induction s as [|c s IH]; simpl; [discriminate|]. intro H.
  apply orb_true_iff in H as [H|H].
  - apply andb_true_iff in H as [H1 H2].
    now rewrite H1, (re_summary_key_exact_i _ H2).
  - rewrite IH by exact H. apply orb_true_r.
Qed.

Lemma endsInMark_snoc (s : str) (c : N) : endsInMark (s ++ [c]) = one_of (js "。.!?") c.
Proof. unfold endsInMark. now rewrite rev_app_distr. Qed.

(** X16: the earlier script against the present one.  [findEntries]
    finds what [findMarkdownEntries] finds when every entry that is
    neither file nor directory is taken for a file, hence at least the
    same articles; a block in which [hasSummary] sees a summary has one
    for [hasSummaryInFrontmatter]; [toSentence] always ends in one of
    its four marks and adds at most one code unit to the text; and
    [sanitize] returns one line with single white space. *)
Theorem earlier_script (dir : path) (items : list node) (fm s : str) (maxLen : Z) :
  findEntries dir items = findMarkdownEntries dir (map asFile items)
  /\ incl (findMarkdownEntries dir items) (findEntries dir items)
  /\ implb (hasSummary fm) (hasSummaryInFrontmatter fm) = true
  /\ endsInMark (toSentence s maxLen) = true
  /\ (Z.of_nat (length (toSentence s maxLen))
      <= Z.max (Z.of_nat (length s)) (Z.max 0 maxLen) + 1)%Z
  /\ normalised (sanitize s).
Proof.
  split; [|split; [|split; [|split; [|split]]]].
  - unfold findEntries, findMarkdownEntries.
    induction items as [|x rest IH]; [reflexivity|].
    cbn [flat_map map]. now rewrite IH, entriesOfEarlier_asFile.
  - intros p. unfold findEntries, findMarkdownEntries. rewrite !in_flat_map.
    intros (x & Hx & Hp). exists x. split; [exact Hx|]. now apply entriesOf_sub.
  - destruct (hasSummary fm) eqn:E; [cbn [implb]|reflexivity].
    unfold hasSummary in E. unfold hasSummaryInFrontmatter.
    destruct fm as [|c fm]; [discriminate E|].
    apply orb_true_iff in E as [E|E].
    + now rewrite (re_summary_key_exact_i _ E).
    + rewrite (summary_key_exact_after_lf_i _ E). apply orb_true_r.
  - unfold toSentence. cbv zeta.
    destruct (endsInMark (trim (slice0 s maxLen))) eqn:E; [exact E|].
    apply endsInMark_snoc.
  - unfold toSentence. cbv zeta.
    assert (L : (length (trim (slice0 s maxLen)) <= length (slice0 s maxLen))%nat).
    { unfold trim, trimEnd, trimStart. rewrite length_rev.
      pose proof (dropWhile_length is_space (rev (dropWhile is_space (slice0 s maxLen)))).
      pose proof (dropWhile_length is_space (slice0 s maxLen)).
      rewrite length_rev in *. lia. }
    assert (L2 : (Z.of_nat (length (slice0 s maxLen))
                  <= Z.max (Z.of_nat (length s)) (Z.max 0 maxLen))%Z).
    { unfold slice0. destruct (maxLen <? 0)%Z; rewrite length_firstn; lia. }
    destruct (endsInMark (trim (slice0 s maxLen))).
    + lia.
    + rewrite length_app. simpl length. lia.
  - apply collapseBlanks_normalised.
Qed.

(** ** The earlier script on its own output *)

Lemma marked_eq (t : str) :
  marked t = startsWith (LF :: js "---") t || startsWith (CR :: LF :: js "---") t.
Proof.
  unfold marked, close_mark. destruct t as [|c r]; [reflexivity|].
  destruct (c =? CR)%N eqn:E.
  - apply N.eqb_eq in E. subst c.
    change (startsWith (LF :: js "---") (CR :: r)) with false.
    change (startsWith (CR :: LF :: js "---") (CR :: r))
      with (startsWith (LF :: js "---") r).
    cbn [orb]. now destruct (startsWith (LF :: js "---") r).
  - assert (E2 : startsWith (CR :: LF :: js "---") (c :: r) = false).
    { cbn [startsWith]. now rewrite N.eqb_sym, E. }
    rewrite E2, orb_false_r. now destruct (startsWith (LF :: js "---") (c :: r)).
Qed.

Lemma startsWith_extend (p a b : str) :
  startsWith p a = true -> startsWith p (a ++ b) = true.
Proof.
  revert a. induction p as [|x p IH]; intro a; [reflexivity|].
  destruct a as [|y a]; simpl; [discriminate|]. intro H.
  apply andb_true_iff in H as [H1 H2]. now rewrite H1, IH.
Qed.

Lemma marked_extend (a b : str) : marked a = true -> marked (a ++ b) = true.
Proof.
  rewrite !marked_eq. intro H. apply orb_true_iff in H as [H|H].
  - now rewrite (startsWith_extend _ _ b H).
  - rewrite (startsWith_extend _ _ b H). apply orb_true_r.
Qed.

(** A mark that starts inside [a] lies inside [a], when a line feed
    and a letter follow. *)
Lemma marked_inside (a rest : str) :
  a <> [] -> marked (a ++ LF :: 115%N :: rest) = true -> marked a = true.
Proof.
  intro Ha. rewrite !marked_eq.
  destruct a as [|c1 [|c2 [|c3 [|c4 [|c5 a]]]]]; [contradiction| | | | |];
    cbn [app startsWith js];
    change (js "---") with [45%N; 45%N; 45%N]; cbn [startsWith];
    repeat match goal with
           | |- context [(?x =? ?y)%N] =>
               lazymatch y with
               | context [rest] => fail
               | _ => destruct (x =? y)%N eqn:?
               end
           end;
    cbn [andb orb]; try discriminate; auto.
Qed.

Lemma lazy_group_eq (r : str) :
  lazy_group r
  = match close_mark r with
    | Some k => Some (O, k)
    | None =>
        match r with
        | [] => None
        | _ :: r' => option_map (fun nk => (S (fst nk), snd nk)) (lazy_group r')
        end
    end.
Proof. destruct r; reflexivity. Qed.

Lemma lazy_group_min (r : str) :
  forall n k, lazy_group r = Some (n, k) ->
  (forall j, (j < n)%nat -> marked (skipn j r) = false)
  /\ (n <= length r)%nat
  /\ marked (skipn n r) = true.
Proof.
  induction r as [|c r IH]; intros n k; rewrite lazy_group_eq.
  - destruct (close_mark []) eqn:E; [discriminate E|discriminate].
  - destruct (close_mark (c :: r)) as [k0|] eqn:E.
    + intro H. injection H as <- <-. split; [intros j Hj; lia|].
      split; [simpl; lia|]. cbn [skipn]. unfold marked. now rewrite E.
    + destruct (lazy_group r) as [[n' k']|] eqn:El; [|discriminate].
      cbn [option_map fst snd]. intro H. injection H as <- <-.
      destruct (IH n' k' eq_refl) as (I1 & I2 & I3).
      split; [|split; [simpl; lia|exact I3]].
      intros [|j] Hj.
      * cbn [skipn]. unfold marked. now rewrite E.
      * cbn [skipn]. apply I1. lia.
Qed.

Lemma lazy_group_exists (Y Z : str) :
  lazy_group (Y ++ LF :: js "---" ++ Z) <> None.
Proof.
  induction Y as [|c Y IH]; rewrite lazy_group_eq.
  - reflexivity || (cbn [app]; change (close_mark (LF :: js "---" ++ Z)) with (Some 4%nat);
                    discriminate).
  - destruct (close_mark ((c :: Y) ++ LF :: js "---" ++ Z)); [discriminate|].
    change ((c :: Y) ++ LF :: js "---" ++ Z) with (c :: Y ++ LF :: js "---" ++ Z).
    cbv iota. destruct (lazy_group (Y ++ LF :: js "---" ++ Z)); [discriminate|contradiction].
Qed.

Lemma earlier_exec_eq (prev : option N) (s : str) :
  earlier_exec prev s
  = match earlier_block prev s with
    | Some m => Some m
    | None =>
        match s with
        | [] => None
        | c :: s' => earlier_exec (Some c) s'
        end
    end.
Proof. destruct s; reflexivity. Qed.

Lemma earlier_exec_block (s : str) :
  forall prev m, earlier_exec prev s = Some m ->
  exists prev' s', earlier_block prev' s' = Some m.
Proof.
  induction s as [|c s IH]; intros prev m; cbn [earlier_exec].
  - destruct (earlier_block prev []) eqn:E; [|discriminate].
    intro H. injection H as <-. eauto.
  - destruct (earlier_block prev (c :: s)) eqn:E.
    + intro H. injection H as <-. eauto.
    + apply IH.
Qed.

(** The block that the earlier splitter returns holds no closing
    mark. *)
Lemma splitFrontmatter_unmarked (raw : str) (j : nat) :
  marked (skipn j (fst (splitFrontmatter raw))) = false.
Proof.
  unfold splitFrontmatter.
  destruct (earlier_exec None (trimStart raw)) as [[fm body]|] eqn:E.
  2:{ cbn [fst]. now rewrite skipn_nil. }
  cbn [fst]. apply earlier_exec_block in E as (prev & s & E).
  unfold earlier_block in E.
  destruct (at_line_start prev && startsWith (js "---") s); [|discriminate].
  cbv zeta in E.
  match type of E with
  | match ?r with _ => _ end = _ => destruct r as [|c r0]; [discriminate|]
  end.
  destruct (c =? LF)%N; [|discriminate].
  destruct (lazy_group r0) as [[n k]|] eqn:El; [|discriminate].
  injection E as <- _.
  destruct (lazy_group_min r0 n k El) as (L1 & L2 & _).
  destruct (Nat.lt_ge_cases j n) as [Hj|Hj].
  - destruct (marked (skipn j (firstn n r0))) eqn:Em; [|reflexivity].
    apply (marked_extend _ (skipn n r0)) in Em.
    assert (Es : skipn j (firstn n r0) ++ skipn n r0 = skipn j r0).
    { rewrite <- (firstn_skipn n r0) at 3. rewrite skipn_app.
      rewrite length_firstn. replace (j - Nat.min n (length r0))%nat with O by lia.
      reflexivity. }
    rewrite Es in Em. rewrite (L1 j Hj) in Em. discriminate Em.
  - rewrite skipn_all2; [reflexivity|]. rewrite length_firstn. lia.
Qed.

Lemma summary_key_exact_app (a t : str) :
  re_summary_key_exact t = true -> summary_key_exact_after_lf (a ++ LF :: t) = true.
Proof.
  intro H. induction a as [|c a IH]; simpl.
  - now rewrite H.
  - rewrite IH. apply orb_true_r.
Qed.

(** The block found in the content that the earlier script writes
    reaches behind the key of the summary line. *)
Lemma earlierContent_split (fm body summary : str) :
  (forall j, marked (skipn j fm) = false) ->
  hasSummary (fst (splitFrontmatter (earlierContent fm body summary))) = true.
Proof.
  intro Hfm.
  set (P := LF :: js "summary: " ++ [DQ]).
  set (T := replaceAll re_quote_single summary ++ [DQ] ++ [LF] ++ js "---" ++ [LF; LF] ++ body).
  assert (EC : earlierContent fm body summary = js "---" ++ LF :: fm ++ P ++ T).
  { unfold earlierContent, P, T. app_norm. reflexivity. }
  rewrite EC.
  assert (Hex : lazy_group (fm ++ P ++ T) <> None).
  { assert (E0 : fm ++ P ++ T
                 = (fm ++ P ++ replaceAll re_quote_single summary ++ [DQ])
                   ++ LF :: js "---" ++ ([LF; LF] ++ body)).
    { unfold T. app_norm. reflexivity. }
    rewrite E0. apply lazy_group_exists. }
  destruct (lazy_group (fm ++ P ++ T)) as [[n k]|] eqn:El; [clear Hex|contradiction].
  assert (ES : splitFrontmatter (js "---" ++ LF :: fm ++ P ++ T)
               = (firstn n (fm ++ P ++ T), skip_break (skipn (n + k) (fm ++ P ++ T)))).
  { unfold splitFrontmatter.
    change (trimStart (js "---" ++ LF :: fm ++ P ++ T))
      with (js "---" ++ LF :: fm ++ P ++ T).
    assert (Eb : earlier_block None (js "---" ++ LF :: fm ++ P ++ T)
                 = match lazy_group (fm ++ P ++ T) with
                   | Some (n, k) =>
                       Some (firstn n (fm ++ P ++ T),
                             skip_break (skipn (n + k) (fm ++ P ++ T)))
                   | None => None
                   end) by reflexivity.
    rewrite earlier_exec_eq, Eb, El. reflexivity. }
  rewrite ES. cbn [fst].
  destruct (lazy_group_min _ n k El) as (L1 & L2 & L3).
  assert (Hn : (length fm + length P <= n)%nat).
  { destruct (Nat.lt_ge_cases n (length fm + length P)) as [Hlt|Hge]; [exfalso|exact Hge].
    destruct (Nat.lt_ge_cases n (length fm)) as [Hin|Hout].
    - assert (Es : skipn n (fm ++ P ++ T) = skipn n fm ++ LF :: 115%N :: skipn 2 (P ++ T)).
      { rewrite skipn_app. replace (n - length fm)%nat with O by lia. reflexivity. }
      rewrite Es in L3. apply marked_inside in L3.
      + rewrite Hfm in L3. discriminate L3.
      + intro E0. apply (f_equal (@length N)) in E0. rewrite length_skipn in E0.
        simpl in E0. lia.
    - assert (Es : skipn n (fm ++ P ++ T) = skipn (n - length fm) P ++ T).
      { rewrite skipn_app, skipn_all2 by lia. cbn [app].
        rewrite skipn_app. replace (n - length fm - length P)%nat with O by lia.
        reflexivity. }
      rewrite Es in L3. remember (n - length fm)%nat as i eqn:Ei.
      assert (Hi : (i < 11)%nat) by (change (length P) with 11%nat in Hlt; lia).
      do 11 (destruct i as [|i]; [discriminate L3|]). lia. }
  assert (EF : firstn n (fm ++ P ++ T)
               = fm ++ LF :: js "summary: " ++ [DQ] ++ firstn (n - length fm - length P) T).
  { rewrite firstn_app, (firstn_all2 fm) by lia.
    rewrite firstn_app, (firstn_all2 P) by lia. unfold P. app_norm. reflexivity. }
  rewrite EF. unfold hasSummary.
  rewrite summary_key_exact_app; [apply orb_true_r|reflexivity].
Qed.

(** X18: the earlier script does not write a file twice.  Whatever
    it writes for a file, with the summary of the endpoint or with its
    own sentence, the block that its splitter finds in the written
    content has a summary for [hasSummary], so the next round leaves the
    file alone. *)
Theorem earlier_second_run (api api' : option str) (maxLen maxLen' : Z) (raw out : str) :
  earlierProcess api maxLen raw = Some out ->
  hasSummary (fst (splitFrontmatter out)) = true
  /\ earlierProcess api' maxLen' out = None.
Proof.
  intro H. unfold earlierProcess in H.
  pose proof (splitFrontmatter_unmarked raw) as Hu.
  destruct (splitFrontmatter raw) as [fm body]. cbn [fst] in Hu.
  destruct (hasSummary fm); [discriminate H|]. cbv zeta in H. injection H as <-.
  match goal with
  | |- hasSummary (fst (splitFrontmatter (earlierContent fm body ?s))) = true /\ _ =>
      pose proof (earlierContent_split fm body s Hu) as Hs
  end.
  split; [exact Hs|]. unfold earlierProcess.
  destruct (splitFrontmatter (earlierContent fm body _)) as [fm' body'].
  cbn [fst] in Hs. now rewrite Hs.
Qed.

Lemma earlier_second_run_witness :
  exists out,
    earlierProcess None 800 sampleDocument = Some out
    /\ earlierProcess None 800 out = None.
Proof.
  destruct (earlierProcess None 800 sampleDocument) as [out|] eqn:E.
  - exists out. split; [reflexivity|].
    exact (proj2 (earlier_second_run None None 800 800 sampleDocument out E)).
  - vm_compute in E. discriminate E.
Defined.

(** ** Every article is processed once *)

Lemma path_eqb_eq (a b : path) : path_eqb a b = true <-> a = b.
Proof.
  revert b. induction a as [|x a IH]; intros [|y b]; simpl; split; intro H;
    try reflexivity; try discriminate.
  - apply andb_true_iff in H as [H1 H2]. apply str_eqb_eq in H1.
    apply IH in H2. now subst.
  - injection H as -> ->. rewrite str_eqb_refl. now apply IH.
Qed.

Lemma path_eqb_refl (a : path) : path_eqb a a = true.
Proof. now apply path_eqb_eq. Qed.

Lemma path_eqb_neq (a b : path) : a <> b -> path_eqb a b = false.
Proof.
  intro H. destruct (path_eqb a b) eqn:E; [|reflexivity].
  apply path_eqb_eq in E. contradiction.
Qed.

Lemma existsb_path (f : path) (files : list path) :
  existsb (path_eqb f) files = true <-> In f files.
Proof.
  rewrite existsb_exists. split.
  - intros (x & Hx & E). apply path_eqb_eq in E. now subst.
  - intro H. exists f. split; [exact H|apply path_eqb_refl].
Qed.

Lemma poolInv_start (runOf : path -> Run) (limit : Z) (files : list path)
  (d0 : path -> str) :
  NoDup files ->
  poolInv runOf limit files d0 {| queue := files; active := []; disk := d0 |}.
Proof.
  intro H. unfold poolInv. cbn [queue active disk map]. rewrite app_nil_r.
  repeat split; auto.
  - apply incl_refl.
  - intros f c [].
  - intros f Hf. unfold afterRun.
    destruct (existsb (path_eqb f) files) eqn:E; [|reflexivity].
    apply existsb_path in E. contradiction.
Qed.

Lemma poolInv_step (runOf : path -> Run) (limit concurrency : Z) (files : list path)
  (d0 : path -> str) (st st' : Pool) :
  poolInv runOf limit files d0 st -> step runOf limit concurrency st st' ->
  poolInv runOf limit files d0 st'.
Proof.
  intros (H1 & H2 & H3 & H4 & H5) Hs. destruct Hs as [f q a d Hc|f c a1 a2 q d];
    unfold poolInv in *; cbn [queue active disk] in *.
  - assert (P : Permutation (q ++ map fst (a ++ [(f, d f)])) ((f :: q) ++ map fst a)).
    { rewrite map_app. cbn [map fst]. rewrite app_assoc.
      apply Permutation_sym. apply (Permutation_cons_append (q ++ map fst a) f). }
    repeat split.
    + eapply Permutation_NoDup; [apply Permutation_sym, P|exact H1].
    + intros x Hx. apply H2. eapply Permutation_in; [exact P|exact Hx].
    + intros f' c' Hin. apply in_app_or in Hin as [Hin|[Hin|[]]]; [now apply H3|].
      injection Hin as <- <-. apply H4. now left.
    + intros f' Hin. apply H4. eapply Permutation_in; [exact P|exact Hin].
    + intros f' Hin. apply H5. intro Hn. apply Hin.
      eapply Permutation_in; [apply Permutation_sym, P|exact Hn].
  - assert (E : q ++ map fst (a1 ++ (f, c) :: a2)
                = (q ++ map fst a1) ++ f :: map fst a2).
    { rewrite map_app. cbn [map fst]. now rewrite app_assoc. }
    assert (E' : q ++ map fst (a1 ++ a2) = (q ++ map fst a1) ++ map fst a2).
    { rewrite map_app. now rewrite app_assoc. }
    rewrite E in *. rewrite E'.
    pose proof (NoDup_remove _ _ _ H1) as [N1 N2].
    assert (Hsub : forall x, In x ((q ++ map fst a1) ++ map fst a2) ->
                     In x ((q ++ map fst a1) ++ f :: map fst a2)).
    { intros x Hx. apply in_or_app. apply in_app_or in Hx as [Hx|Hx]; [now left|].
      right. now right. }
    repeat split.
    + exact N1.
    + intros x Hx. apply H2. now apply Hsub.
    + intros f' c' Hin. apply H3. apply in_or_app.
      apply in_app_or in Hin as [Hin|Hin]; [now left|right; now right].
    + intros f' Hin. unfold writeFile.
      rewrite path_eqb_neq by (intros ->; contradiction). apply H4. now apply Hsub.
    + intros f' Hin. unfold writeFile.
      destruct (path_eqb f' f) eqn:Ef.
      * apply path_eqb_eq in Ef. subst f'.
        rewrite (H3 f c) by (apply in_or_app; right; now left).
        unfold afterRun.
        assert (Hf : In f files).
        { apply H2. apply in_or_app. right. now left. }
        apply existsb_path in Hf. now rewrite Hf.
      * apply H5. intro Hn. apply Hin.
        apply in_app_or in Hn as [Hn|[Hn|Hn]].
        -- apply in_or_app. now left.
        -- subst f'. rewrite path_eqb_refl in Ef. discriminate Ef.
        -- apply in_or_app. now right.
Qed.

Lemma step_measure (runOf : path -> Run) (limit concurrency : Z) (st st' : Pool) :
  step runOf limit concurrency st st' ->
  (2 * length (queue st') + length (active st') + 1
   = 2 * length (queue st) + length (active st))%nat
  /\ ((Z.of_nat (length (active st)) <= concurrency)%Z ->
      (Z.of_nat (length (active st')) <= concurrency)%Z).
Proof.
  intros [f q a d Hc|f c a1 a2 q d]; cbn [queue active]; rewrite !length_app;
    cbn [length]; split; lia.
Qed.

Lemma step_exists (runOf : path -> Run) (limit concurrency : Z) (st : Pool) :
  (1 <= concurrency)%Z ->
  (queue st = [] /\ active st = []) \/ exists st', step runOf limit concurrency st st'.
Proof.
  intro Hc. destruct st as [q a d]. cbn [queue active].
  destruct a as [|[f c] a].
  - destruct q as [|f q]; [now left|right].
    eexists. apply step_take. simpl. lia.
  - right. eexists. apply (step_finish runOf limit concurrency f c [] a q d).
Qed.

(** X17: the workers of [run] process every article exactly once.
    From the start with distinct articles and a concurrency of at least
    1, after [n] steps the number of steps left is twice the queue plus
    the articles in work, so every run ends after twice as many steps as
    there are articles; never more articles are in work than the
    concurrency allows; a state that is not final has a next step; and
    in the final state every article holds what [processOne] makes of
    its initial content and every other file is as it was, whatever the
    order in which the workers ran. *)
Theorem pool_processes_each_once (runOf : path -> Run) (limit concurrency : Z)
  (files : list path) (d0 : path -> str) (n : nat) (st : Pool) :
  NoDup files -> (1 <= concurrency)%Z ->
  steps runOf limit concurrency n {| queue := files; active := []; disk := d0 |} st ->
  (2 * length (queue st) + length (active st) + n = 2 * length files)%nat
  /\ (Z.of_nat (length (active st)) <= concurrency)%Z
  /\ ((queue st = [] /\ active st = [])
      \/ exists st', step runOf limit concurrency st st')
  /\ (queue st = [] -> active st = [] ->
      forall f, disk st f = afterRun runOf limit files d0 f).
Proof.
  intros Hnd Hc Hrun.
  assert (H : poolInv runOf limit files d0 st
              /\ (2 * length (queue st) + length (active st) + n = 2 * length files)%nat
              /\ (Z.of_nat (length (active st)) <= concurrency)%Z).
  { remember {| queue := files; active := []; disk := d0 |} as st0 eqn:E0.
    induction Hrun as [st|n st st' st'' Hrun IH Hs].
    - subst st. split; [now apply poolInv_start|]. cbn [queue active length]. lia.
    - destruct (IH E0) as (I1 & I2 & I3).
      split; [eapply poolInv_step; eauto|].
      destruct (step_measure _ _ _ _ _ Hs) as [M1 M2]. split; [lia|auto]. }
  destruct H as ((_ & _ & _ & _ & H5) & Hm & Hb).
  split; [exact Hm|]. split; [exact Hb|]. split; [now apply step_exists|].
  intros Eq Ea f. apply H5. rewrite Eq, Ea. intros [].
Qed.

Lemma pool_processes_each_once_witness :
  exists st,
    steps (fun _ => localRun always []) 8000 2 4
      {| queue := twoArticles; active := []; disk := sampleDisk |} st
    /\ forall f, disk st f
                 = afterRun (fun _ => localRun always []) 8000 twoArticles sampleDisk f.
Proof.
  assert (Hrun : exists st,
            steps (fun _ => localRun always []) 8000 2 4
              {| queue := twoArticles; active := []; disk := sampleDisk |} st
            /\ queue st = [] /\ active st = []).
  { eexists. split.
    - eapply steps_more; [eapply steps_more; [eapply steps_more; [eapply steps_more;
        [apply steps_zero|]|]|]|].
      + apply step_take. reflexivity.
      + apply step_take. reflexivity.
      + apply (step_finish _ _ _ _ _ [] _).
      + apply (step_finish _ _ _ _ _ [] _).
    - split; reflexivity. }
  destruct Hrun as (st & Hrun & Eq & Ea). exists st. split; [exact Hrun|].
  assert (Hnd : NoDup twoArticles).
  { unfold twoArticles. repeat constructor; cbn [In]; [|tauto].
    intros [H|[]]. vm_compute in H. discriminate H. }
  exact (proj2 (proj2 (proj2
           (pool_processes_each_once (fun _ => localRun always []) 8000 2 twoArticles
              sampleDisk 4 st Hnd ltac:(lia) Hrun))) Eq Ea).
Defined.

(** ** What is read from the configuration file *)

Lemma upToLineEnd_free (s : str) :
  Forall (fun x => is_line_terminator x = false) (upToLineEnd s).
Proof.
  induction s as [|c s IH]; simpl; [constructor|].
  destruct (is_line_terminator c) eqn:E; constructor; auto.
Qed.

Lemma lastOnLine_free (w : str) (c : N) :
  lastOnLine w = Some c -> is_line_terminator c = false.
Proof.
  induction w as [|x w IH]; simpl; [discriminate|].
  destruct (lastOnLine w) as [d|].
  - intro H. injection H as <-. now apply IH.
  - destruct (is_line_terminator x) eqn:E; [discriminate|].
    intro H. now injection H as <-.
Qed.

Lemma config_match_free (key : str) (s : str) :
  forall prev g, config_match key prev s = Some g ->
  Forall (fun x => is_line_terminator x = false) g.
Proof.
  assert (Hl : forall prev t g, config_line key prev t = Some g ->
                 Forall (fun x => is_line_terminator x = false) g).
  { intros prev t g. unfold config_line. cbv zeta.
    destruct (_ && _); [|discriminate].
    destruct (dropWhile is_space (tl _)) as [|c r].
    - destruct (lastOnLine _) as [d|] eqn:E; [|discriminate].
      intro H. injection H as <-. constructor; [|constructor].
      eapply lastOnLine_free, E.
    - intro H. injection H as <-. apply (upToLineEnd_free (c :: r)). }
  induction s as [|c s IH]; intros prev g; cbn [config_match].
  - destruct (config_line key prev []) eqn:E; [|discriminate].
    intro H. injection H as <-. eapply Hl, E.
  - destruct (config_line key prev (c :: s)) eqn:E.
    + intro H. injection H as <-. eapply Hl, E.
    + apply IH.
Qed.

Lemma stripQuoteStart_Forall (Q : N -> Prop) (s : str) :
  Forall Q s -> Forall Q (stripQuoteStart s).
Proof.
  intro H. destruct s as [|c r]; [constructor|]. simpl.
  destruct (is_quote c); [now inversion H|exact H].
Qed.

Lemma stripQuoteEnd_Forall (Q : N -> Prop) (s : str) :
  Forall Q s -> Forall Q (stripQuoteEnd s).
Proof.
  intro H. unfold stripQuoteEnd. now apply Forall_rev, stripQuoteStart_Forall, Forall_rev.
Qed.

Lemma cutComment_Forall (Q : N -> Prop) (s : str) :
  Forall Q s -> Forall Q (cutComment s).
Proof.
  induction 1 as [|c s Hc Hs IH]; cbn [cutComment]; [constructor|]. cbv zeta.
  destruct (_ && _); [constructor|now constructor].
Qed.

(** X19: a value that [readAIConfigFromCustom] reads from the
    configuration file is not empty, holds no line terminator and has no
    white space at either end; so the header value [Bearer <credential>]
    made of a credential from the file holds no line terminator. *)
Theorem config_value_clean (key content v : str) (file : option str) (k : str) :
  readConfigValue key content = Some v ->
  snd (readAIConfigFromCustom file) = Some k ->
  (v <> [] /\ lineTerminatorFree v = true /\ trim v = v)
  /\ lineTerminatorFree (js "Bearer " ++ k) = true.
Proof.
  assert (H : forall key' content' v', readConfigValue key' content' = Some v' ->
                v' <> [] /\ lineTerminatorFree v' = true /\ trim v' = v').
  { intros key' content' v'. unfold readConfigValue.
    destruct (config_match key' None content') as [g|] eqn:E; [|discriminate].
    cbv zeta. apply config_match_free in E.
    set (val := replaceAll (re_trailing (N.eqb 59))
                  (cutComment (stripQuoteEnd (stripQuoteStart (trim g))))).
    assert (Hval : Forall (fun x => is_line_terminator x = false) (trim val)).
    { apply trim_Forall. unfold val. apply replaceAll_preserves.
      - intros prev t n out Ho. apply re_trailing_out in Ho as ->. constructor.
      - now apply cutComment_Forall, stripQuoteEnd_Forall, stripQuoteStart_Forall,
          trim_Forall. }
    destruct (trim val) as [|c r] eqn:Et; [discriminate|].
    intro Hv. injection Hv as <-. split; [discriminate|]. split.
    - unfold lineTerminatorFree. apply forallb_forall. intros x Hx.
      eapply Forall_forall in Hval; [|exact Hx]. now rewrite Hval.
    - rewrite <- Et. apply trim_idem. }
  intros Hv Hk. split; [now apply (H key content)|].
  destruct file as [c|]; [|discriminate Hk]. cbn [readAIConfigFromCustom snd] in Hk.
  apply H in Hk as (_ & Hk & _).
  unfold lineTerminatorFree in *. rewrite forallb_app, Hk. reflexivity.
Qed.

Lemma config_value_clean_witness :
  readConfigValue (js "AI_SUMMARY_KEY") (js "// AI_SUMMARY_KEY = 'sk-123'; // secret")
  = Some (js "sk-123'")
  /\ lineTerminatorFree (js "Bearer " ++ js "sk-123'") = true.
Proof.
  assert (E : readConfigValue (js "AI_SUMMARY_KEY")
                (js "// AI_SUMMARY_KEY = 'sk-123'; // secret") = Some (js "sk-123'"))
    by (vm_compute; reflexivity).
  split; [exact E|].
  exact (proj2 (config_value_clean (js "AI_SUMMARY_KEY")
                  (js "// AI_SUMMARY_KEY = 'sk-123'; // secret") (js "sk-123'")
                  (Some (js "// AI_SUMMARY_KEY = 'sk-123'; // secret")) (js "sk-123'")
                  E ltac:(vm_compute; reflexivity))).
Defined.

(** ** A title between quotes *)

Lemma quote_not_space (q : N) : is_quote q = true -> is_space q = false.
Proof.
  unfold is_quote. intro H. apply orb_true_iff in H as [H|H];
    apply N.eqb_eq in H; subst q; reflexivity.
Qed.

Lemma title_capture_quoted (title rest : str) (q : N) :
  title <> [] -> forallb (fun c => negb (is_quote c)) title = true ->
  is_quote q = true ->
  title_capture (title ++ q :: LF :: rest) = Some (length title).
Proof.
  intros Hne Ht Hq. induction title as [|c t IH]; [contradiction|].
  cbn [forallb] in Ht. apply andb_true_iff in Ht as [Hc Ht].
  apply negb_true_iff in Hc.
  change ((c :: t) ++ q :: LF :: rest) with (c :: t ++ q :: LF :: rest).
  cbn [title_capture]. rewrite Hc.
  destruct t as [|d t].
  - cbn [app title_capture]. rewrite Hq. cbn [title_tail]. rewrite Hq.
    cbn [blanks_then_lf]. rewrite N.eqb_refl. reflexivity.
  - rewrite IH by (discriminate || exact Ht). reflexivity.
Qed.

Lemma title_value_quoted (ws title rest : str) (q1 q2 : N) :
  forallb is_space ws = true -> is_quote q1 = true -> is_quote q2 = true ->
  title <> [] -> forallb (fun c => negb (is_quote c)) title = true ->
  title_value (ws ++ q1 :: title ++ q2 :: LF :: rest) = Some title.
Proof.
  intros Hws H1 H2 Hne Ht. induction ws as [|c ws IH].
  - cbn [app title_value]. rewrite (quote_not_space q1 H1).
    unfold title_quoted. rewrite H1.
    rewrite title_capture_quoted by assumption.
    cbn [option_map]. now rewrite firstn_exact.
  - cbn [forallb] in Hws. apply andb_true_iff in Hws as [Hc Hws].
    change ((c :: ws) ++ q1 :: title ++ q2 :: LF :: rest)
      with (c :: ws ++ q1 :: title ++ q2 :: LF :: rest).
    cbn [title_value]. now rewrite Hc, IH.
Qed.

Lemma title_match_skip (pre t : str) :
  ~ In LF pre -> title_match (pre ++ t) = title_match t.
Proof.
  induction pre as [|c pre IH]; intro H; [reflexivity|].
  change ((c :: pre) ++ t) with (c :: pre ++ t). cbn [title_match].
  replace (c =? LF)%N with false
    by (symmetry; apply N.eqb_neq; intros ->; apply H; now left).
  cbn [andb]. apply IH. intro Hin. apply H. now right.
Qed.

(** X20: a title between quotes is read as it stands.  For a
    block whose first line behind the opening line is [title:], white
    space, a quote, a title without quotes that is not empty, a quote
    and a line feed, [readTitleFromFrontmatter] returns the trimmed
    title, whatever follows. *)
Theorem quoted_title_exact (pre ws title rest : str) (q1 q2 : N) :
  ~ In LF pre -> forallb is_space ws = true ->
  is_quote q1 = true -> is_quote q2 = true ->
  title <> [] -> forallb (fun c => negb (is_quote c)) title = true ->
  readTitleFromFrontmatter (titledBlock pre ws q1 q2 title rest) = trim title.
Proof.
  intros Hpre Hws H1 H2 Hne Ht. unfold readTitleFromFrontmatter, titledBlock.
  rewrite title_match_skip by exact Hpre.
  cbn [title_match]. rewrite N.eqb_refl.
  change (startsWith (js "title:")
            (js "title:" ++ ws ++ q1 :: title ++ q2 :: LF :: rest)) with true.
  cbn [andb].
  change (skipn 6 (js "title:" ++ ws ++ q1 :: title ++ q2 :: LF :: rest))
    with (ws ++ q1 :: title ++ q2 :: LF :: rest).
  now rewrite title_value_quoted.
Qed.

Lemma quoted_title_exact_witness :
  readTitleFromFrontmatter
    (titledBlock (js "---") (js " ") DQ DQ (js "My post") (nl [js "tags: x"; js "---"]))
  = js "My post".
Proof.
  rewrite (quoted_title_exact (js "---") (js " ") (js "My post")
             (nl [js "tags: x"; js "---"]) DQ DQ);
    [vm_compute; reflexivity
    |vm_compute; intuition discriminate
    |reflexivity|reflexivity|reflexivity|discriminate|reflexivity].
Defined.
